(** * rollup-and-away: issue collections, enrichment and rendering

    A shallow embedding of

      - [src/2_pull/github/issue-list.ts], class [IssueList], and the class
        [IssueWrapper] of [./issue] that the sources give with it;
      - [src/3_transform/render-objects/issue.ts], [renderIssue];
      - [src/util/config/fetch.ts], [validateFetchParameters], and
        [validateRenderOptions] of the same configuration module;
      - [src/util/github-url.ts], [scrapeUrls] and [matchIssueUrl], and the
        string helpers [title], [fuzzy] and [toSnakeCase] of
        [@util/string].

    Of the two classes the model has the constructors ([forRepo],
    [forProject], [forProjectView], [forSubissues], [forUrls], [forIssue],
    [forUrl]), the fetch chain, the transformations ([sort], [groupBy],
    [status], [chart], [blame], [copy]), the getters and the timeframe
    tests, and the [body] getter with what it remembers.

    How the program is read:

      - every [await] is awaited before the next statement, so an
        asynchronous method is a sequential one;
      - an object mutated in place is the state of the method that runs on
        it, and is there whatever the outcome of the method;
      - exceptions are an outcome of their own, kept as the message of the
        [Error];
      - the methods of the fetch chain call each other without a bound that
        the code knows of, so the model runs them on fuel: one unit for
        each call of [IssueWrapper.fetch];
      - strings are byte strings, and case, whitespace and digits are the
        ASCII ones; numbers are integers;
      - the tracker, the comment list, the configuration singletons and the
        platform are parameters ([Collaborators]). *)

From Stdlib Require Import List String Ascii ZArith Bool Lia Permutation.
From Stdlib Require Import DecimalString DecimalPos.
Import ListNotations.

Local Open Scope list_scope.
Local Open Scope string_scope.

Set Warnings "-register-all".

(* ===================================================================== *)
(** ** Effects *)
(* ===================================================================== *)

(** What the outside world can observe of a run: warnings handed to
    [emitWarning] and requests sent to the tracker. *)
Inductive Event : Type :=
| Warning (msg : string)
| Request (endpoint : string) (args : list string).

(** A JavaScript call returns, throws an [Error] (kept as its message), or
    is still running when the fuel of the model is spent. *)
Inductive outcome (A : Type) : Type :=
| Returned (a : A)
| Thrown (message : string)
| Starved.

Arguments Returned {A} a.
Arguments Thrown {A} message.
Arguments Starved {A}.

(** A method running on a receiver of type [S]: the receiver is mutated in
    place, so its final state is there whatever the outcome. *)
Definition Eff (S A : Type) : Type :=
  S -> list Event -> outcome A * S * list Event.

Module Eff.

Definition ret {S A} (a : A) : Eff S A :=
  fun s log => (Returned a, s, log).

Definition bind {S A B} (m : Eff S A) (k : A -> Eff S B) : Eff S B :=
  fun s log =>
    match m s log with
    | (Returned a, s', log') => k a s' log'
    | (Thrown e, s', log') => (Thrown e, s', log')
    | (Starved, s', log') => (Starved, s', log')
    end.

Definition throw {S A} (message : string) : Eff S A :=
  fun s log => (Thrown message, s, log).

Definition starve {S A} : Eff S A :=
  fun s log => (Starved, s, log).

Definition this {S} : Eff S S :=
  fun s log => (Returned s, s, log).

Definition assign {S} (f : S -> S) : Eff S unit :=
  fun s log => (Returned tt, f s, log).

Definition emit {S} (e : Event) : Eff S unit :=
  fun s log => (Returned tt, s, (log ++ [e])%list).

(** [try { m } catch (error) { handler error }]: only a thrown error is
    caught; running out of fuel is not an exception. *)
Definition try_catch {S A} (m : Eff S A) (handler : string -> Eff S A)
  : Eff S A :=
  fun s log =>
    match m s log with
    | (Thrown e, s', log') => handler e s' log'
    | r => r
    end.

(** A call on another object [obj] that the caller holds only in a local
    variable: the caller gets the result together with the object as the
    call left it. *)
Definition on {S T A} (obj : T) (m : Eff T A) : Eff S (A * T) :=
  fun s log =>
    match m obj log with
    | (Returned a, obj', log') => (Returned (a, obj'), s, log')
    | (Thrown e, _, log') => (Thrown e, s, log')
    | (Starved, _, log') => (Starved, s, log')
    end.

(** A call on a part of the receiver (a member reached through [get]):
    the part is written back whatever the outcome. *)
Definition zoom {S T A} (get : S -> T) (set : T -> S -> S) (m : Eff T A)
  : Eff S A :=
  fun s log =>
    match m (get s) log with
    | (r, t', log') => (r, set t' s, log')
    end.

(** A static function, which has no receiver. *)
Definition static {S A} (m : Eff unit A) : Eff S A :=
  fun s log =>
    match m tt log with
    | (r, _, log') => (r, s, log')
    end.

(** The result of a function that only returns or throws. *)
Definition lift {S A} (r : outcome A) : Eff S A :=
  fun s log => (r, s, log).

(** [for (const x of xs) { await m(x) }] on an array whose elements are
    mutated in place; the loop stops at the first that does not return. *)
Fixpoint forEach {T} (m : Eff T unit) (xs : list T) (log : list Event)
  : outcome unit * list T * list Event :=
  match xs with
  | [] => (Returned tt, [], log)
  | x :: rest =>
      match m x log with
      | (Returned _, x', log') =>
          match forEach m rest log' with
          | (r, rest', log'') => (r, x' :: rest', log'')
          end
      | (Thrown e, x', log') => (Thrown e, x' :: rest, log')
      | (Starved, x', log') => (Starved, x' :: rest, log')
      end
  end.

(** An awaited request to a collaborator that may reject. *)
Definition request {S A} (endpoint : string) (args : list string)
           (answer : A + string) : Eff S A :=
  fun s log =>
    match answer with
    | inl a => (Returned a, s, (log ++ [Request endpoint args])%list)
    | inr e => (Thrown e, s, (log ++ [Request endpoint args])%list)
    end.

End Eff.

Declare Scope eff_scope.
Delimit Scope eff_scope with eff.
Notation "x <- m ;; k" := (Eff.bind m (fun x => k))
  (at level 100, m at next level, right associativity) : eff_scope.
Notation "m ;;; k" := (Eff.bind m (fun _ => k))
  (at level 100, right associativity) : eff_scope.

(** A call that is still running when the fuel is spent. *)
Definition starved {S A} (r : outcome A * S * list Event) : Prop :=
  fst (fst r) = Starved.

(** A method that leaves its receiver related by [R] to what it was,
    whatever its outcome. *)
Definition preserves {S A} (R : S -> S -> Prop) (m : Eff S A) : Prop :=
  forall s log, R s (snd (fst (m s log))).

(** [m'] does what [m] does wherever [m] has fuel enough to end. *)
Definition refines {S A} (m m' : Eff S A) : Prop :=
  forall s log, ~ starved (m s log) -> m' s log = m s log.

(** [when c m] is [if (c) { m }]. *)
Definition when {S} (c : bool) (m : Eff S unit) : Eff S unit :=
  if c then m else Eff.ret tt.

(** The warnings of a log. *)
Definition warnings (log : list Event) : list string :=
  flat_map (fun e => match e with Warning m => [m] | Request _ _ => [] end) log.

(* ===================================================================== *)
(** ** JavaScript values and strings *)
(* ===================================================================== *)

(** Numbers are integers or [NaN] ([None]); fractions do not occur in the
    quantities modelled here (counts, issue and project numbers). *)
Inductive JsValue : Type :=
| JsUndefined
| JsNull
| JsBool (b : bool)
| JsNumber (n : option Z)
| JsString (s : string)
| JsArray (items : list JsValue)
| JsObject.

(** Truthiness, as [if (v)] and [a && b] test it. *)
Definition truthy (v : JsValue) : bool :=
  match v with
  | JsUndefined | JsNull => false
  | JsBool b => b
  | JsNumber None => false
  | JsNumber (Some z) => negb (Z.eqb z 0)
  | JsString s => negb (String.eqb s "")
  | JsArray _ | JsObject => true
  end.

Definition is_undefined (v : JsValue) : bool :=
  match v with JsUndefined => true | _ => false end.

(** [`${n}`] and [String(n)] for an integer. *)
Definition string_of_Z (z : Z) : string :=
  NilZero.string_of_int (Z.to_int z).

(** A JavaScript object used as a bag of options: its own keys in
    [Object.keys] order with their values. *)
Definition JsRecord : Type := list (string * JsValue).

Definition Object_keys (o : JsRecord) : list string := map fst o.

Fixpoint prop (o : JsRecord) (key : string) : JsValue :=
  match o with
  | [] => JsUndefined
  | (k, v) :: rest => if String.eqb k key then v else prop rest key
  end.

(** [new Set([...]).has(key)] *)
Definition Set_has (keys : list string) (key : string) : bool :=
  existsb (String.eqb key) keys.

(** [items.join(sep)] *)
Definition join (sep : string) (items : list string) : string :=
  String.concat sep items.

Module StringUtil.

Definition code (c : ascii) : nat := nat_of_ascii c.

Definition toLowerCaseChar (c : ascii) : ascii :=
  if (65 <=? code c)%nat && (code c <=? 90)%nat
  then ascii_of_nat (code c + 32) else c.

Definition toUpperCaseChar (c : ascii) : ascii :=
  if (97 <=? code c)%nat && (code c <=? 122)%nat
  then ascii_of_nat (code c - 32) else c.

Fixpoint map_chars (f : ascii -> ascii) (s : string) : string :=
  match s with
  | EmptyString => EmptyString
  | String c rest => String (f c) (map_chars f rest)
  end.

(** ASCII letters only; other bytes are left as they are. *)
Definition toLowerCase : string -> string := map_chars toLowerCaseChar.
Definition toUpperCase : string -> string := map_chars toUpperCaseChar.

(** [s.split(sep)] for a one-character separator. *)
Fixpoint split (sep : ascii) (s : string) : list string :=
  match s with
  | EmptyString => [EmptyString]
  | String c rest =>
      if Ascii.eqb c sep then EmptyString :: split sep rest
      else match split sep rest with
           | [] => [String c EmptyString]
           | w :: ws => String c w :: ws
           end
  end.

(** [word.charAt(0).toUpperCase() + word.slice(1)] *)
Definition capitalize (word : string) : string :=
  match word with
  | EmptyString => EmptyString
  | String c rest => String (toUpperCaseChar c) rest
  end.

(** [title]: convert a string to title case. *)
Definition title (s : string) : string :=
  join " " (map capitalize (split " " (toLowerCase s))).

(** The ASCII members of the class [\s]. *)
Definition is_space (c : ascii) : bool :=
  ((9 <=? code c)%nat && (code c <=? 13)%nat) || (code c =? 32)%nat.

Fixpoint remove_chars (drop : ascii -> bool) (s : string) : string :=
  match s with
  | EmptyString => EmptyString
  | String c rest =>
      if drop c then remove_chars drop rest
      else String c (remove_chars drop rest)
  end.

(** [fuzzy]: remove all whitespace and underscores, then upper-case. *)
Definition fuzzy (s : string) : string :=
  toUpperCase
    (remove_chars (fun c => is_space c || Ascii.eqb c "_"%char) s).

(** [haystack.includes(needle)] *)
Fixpoint includes (haystack needle : string) : bool :=
  String.prefix needle haystack ||
  match haystack with
  | EmptyString => false
  | String _ rest => includes rest needle
  end.

End StringUtil.

(** [Number(v)]: fixed by the language on [undefined], [null], booleans
    and numbers, the platform's parser on the rest. *)
Definition ToNumber (parse : JsValue -> option Z) (v : JsValue) : option Z :=
  match v with
  | JsUndefined => None
  | JsNull => Some 0%Z
  | JsBool b => Some (Z.b2z b)
  | JsNumber n => n
  | other => parse other
  end.

(** The double-quote character, for messages that quote a name. *)
Definition dquote : string := String (ascii_of_nat 34) EmptyString.

(* ===================================================================== *)
(** ** Render options ([validateRenderOptions]) *)
(* ===================================================================== *)

Record IssueRenderOptions : Type := {
  header : bool;
  body : bool;
  updates : Z;
  author : bool;
  createdAt : bool;
  updatedAt : bool;
  fields : list string;
  subissues : option bool;
  relatedIssues : option bool;
  skipIfEmpty : bool
}.

Definition DirtyRenderOptions : Type := JsRecord.

Module RenderConfig.

(** [const validKeys = new Set([...])] of the render options. *)
Definition validKeys : list string :=
  [ "header"; "body"; "updates"; "author"; "createdAt"; "updatedAt";
    "field"; "fields"; "subissues"; "skipIfEmpty" ].

(** The keys the type [DirtyRenderOptions] declares. *)
Definition declaredKeys : list string :=
  [ "header"; "body"; "updates"; "author"; "createdAt"; "updatedAt";
    "field"; "fields"; "subissues"; "relatedIssues"; "skipIfEmpty" ].

Definition invalidKeys (options : DirtyRenderOptions) : list string :=
  filter (fun key => negb (Set_has validKeys key)) (Object_keys options).

Definition invalidKeysMessage (keys : list string) : string :=
  "Invalid RenderOption" ++ (if (1 <? List.length keys)%nat then "s" else "")
    ++ ": " ++ join ", " keys.

Definition bothFieldsMessage : string :=
  "Cannot use both " ++ dquote ++ "field" ++ dquote ++ " and " ++ dquote
    ++ "fields" ++ dquote ++ " options. Use " ++ dquote ++ "fields" ++ dquote
    ++ " for multiple fields.".

Section Validate.

(** [isTruthy] of [./truthy], and the coercions [Number(v)] and
    [String(v)] of the platform. *)
Variable isTruthy : JsValue -> bool.
Variable Number : JsValue -> option Z.
Variable ToString : JsValue -> string.

(** [if (v !== undefined) x = isTruthy(v)] over a default. *)
Definition definedOr (dflt : bool) (v : JsValue) : bool :=
  if is_undefined v then dflt else isTruthy v.

(** [if (v) x = isTruthy(v)] over a default. *)
Definition truthyOr (dflt : bool) (v : JsValue) : bool :=
  if truthy v then isTruthy v else dflt.

Definition validateUpdates (v : JsValue) : outcome Z :=
  if is_undefined v then Returned 1%Z
  else match ToNumber Number v with
       | None => Returned (Z.b2z (isTruthy v))
       | Some n =>
           if (n <? 0)%Z
           then Thrown ("Invalid updates option: " ++ string_of_Z n)
           else Returned n
       end.

Definition validateFields (field fields : JsValue) : list string :=
  if truthy field then [ToString field]
  else if truthy fields then
         match fields with
         | JsArray items => map ToString items
         | _ => [ToString fields]
         end
       else [].

Definition validateRenderOptions (options : DirtyRenderOptions)
  : outcome IssueRenderOptions :=
  let invalid := invalidKeys options in
  if (0 <? List.length invalid)%nat then Thrown (invalidKeysMessage invalid)
  else if truthy (prop options "field") && truthy (prop options "fields")
  then Thrown bothFieldsMessage
  else
    match validateUpdates (prop options "updates") with
    | Thrown e => Thrown e
    | Starved => Starved
    | Returned updates =>
        Returned
          {| header := definedOr true (prop options "header");
             body := definedOr false (prop options "body");
             updates := updates;
             author := truthyOr true (prop options "author");
             createdAt := truthyOr false (prop options "createdAt");
             updatedAt := truthyOr false (prop options "updatedAt");
             fields := validateFields (prop options "field")
                                      (prop options "fields");
             subissues :=
               if is_undefined (prop options "subissues") then None
               else Some (isTruthy (prop options "subissues"));
             relatedIssues :=
               if is_undefined (prop options "relatedIssues") then None
               else Some (isTruthy (prop options "relatedIssues"));
             skipIfEmpty := definedOr true (prop options "skipIfEmpty") |}
    end.

End Validate.

End RenderConfig.

(* ===================================================================== *)
(** ** GitHub URLs ([src/util/github-url.ts]) *)
(* ===================================================================== *)

Module GithubUrl.

Import StringUtil.

(** The parts of a parsed [URL] that the matchers read. *)
Record URL : Type := {
  hostname : string;
  pathname : string
}.

Record IssueMatch : Type := {
  owner : string;
  repo : string;
  issueNumber : option Z
}.

Definition is_digit (c : ascii) : bool :=
  (48 <=? code c)%nat && (code c <=? 57)%nat.

Fixpoint all_chars (p : ascii -> bool) (s : string) : bool :=
  match s with
  | EmptyString => true
  | String c rest => p c && all_chars p rest
  end.

(** [\d+] against a whole segment. *)
Definition is_number (s : string) : bool :=
  negb (String.eqb s "") && all_chars is_digit s.

(** [parseInt] of a string of decimal digits. *)
Fixpoint parseDigits (acc : Z) (s : string) : Z :=
  match s with
  | EmptyString => acc
  | String c rest => parseDigits (10 * acc + Z.of_nat (code c - 48)) rest
  end.

Definition parseInt (s : string) : Z := parseDigits 0 s.

(** The segments of a path that starts with a slash. *)
Definition segments (path : string) : option (list string) :=
  match path with
  | String "/" rest => Some (split "/" rest)
  | _ => None
  end.

Definition nonempty (s : string) : bool := negb (String.eqb s "").

(** [/^\/([^/]+)\/([^/]+)(?:\/issues(?:\/(\d+))?)?$/] on a path: the
    captured owner, repository and digits. *)
Definition issuePathMatch (path : string)
  : option (string * string * option string) :=
  match segments path with
  | Some [o; r] =>
      if nonempty o && nonempty r then Some (o, r, None) else None
  | Some [o; r; i] =>
      if nonempty o && nonempty r && String.eqb i "issues"
      then Some (o, r, None) else None
  | Some [o; r; i; n] =>
      if nonempty o && nonempty r && String.eqb i "issues" && is_number n
      then Some (o, r, Some n) else None
  | _ => None
  end.

(** [/\/([^/]+)\/([^/]+)\/discussions\/(\d+)/] somewhere in a path. *)
Fixpoint discussionSegments (segs : list string) : bool :=
  match segs with
  | o :: ((r :: d :: n :: _) as rest) =>
      (nonempty o && nonempty r && String.eqb d "discussions"
       && match n with String c _ => is_digit c | EmptyString => false end)
      || discussionSegments rest
  | _ => false
  end.

Definition discussionPathMatch (path : string) : bool :=
  match split "/" path with
  | _ :: segs => discussionSegments segs
  | [] => false
  end.

(** The characters the URL pattern accepts after the host: anything but
    whitespace, a closing parenthesis, a single or double quote, and the
    angle brackets. *)
Definition is_url_char (c : ascii) : bool :=
  negb (is_space c || (code c =? 41)%nat || (code c =? 39)%nat
        || (code c =? 34)%nat || (code c =? 60)%nat || (code c =? 62)%nat).

Fixpoint takeWhile (p : ascii -> bool) (s : string) : string :=
  match s with
  | String c rest => if p c then String c (takeWhile p rest) else EmptyString
  | EmptyString => EmptyString
  end.

Fixpoint dropPrefix (n : nat) (s : string) : string :=
  match n, s with
  | S n', String _ rest => dropPrefix n' rest
  | _, _ => s
  end.

(** A match of the URL pattern, [github.com/] followed by one or more
    accepted characters, that starts at the head of [s]. *)
Definition matchHere (s : string) : option string :=
  if String.prefix "github.com/" s then
    match takeWhile is_url_char (dropPrefix 11 s) with
    | EmptyString => None
    | tail => Some ("github.com/" ++ tail)
    end
  else None.

(** [blob.match(urlRegex)] with the global flag: the matches from left
    to right, none overlapping; [skip] characters belong to the match
    just found. *)
Fixpoint matchAll (skip : nat) (s : string) : list string :=
  match s with
  | EmptyString => []
  | String _ rest =>
      match skip with
      | S k => matchAll k rest
      | O =>
          match matchHere s with
          | Some m => m :: matchAll (String.length m - 1) rest
          | None => matchAll 0 rest
          end
      end
  end.

(** [set.add(x)] on a [Set] kept in insertion order. *)
Definition Set_add (set : list string) (x : string) : list string :=
  if Set_has set x then set else (set ++ [x])%list.

Section Matchers.

(** [new URL(text)]: the parsed URL, or the message of the error the
    constructor throws. *)
Variable newURL : string -> URL + string.

Definition validateUrl (url : string) : outcome URL :=
  let parsed :=
    match newURL url with
    | inl parts => Returned parts
    | inr _ =>
        match newURL ("https://" ++ url) with
        | inl parts => Returned parts
        | inr e => Thrown e
        end
    end in
  match parsed with
  | Returned parts =>
      if negb (String.eqb (hostname parts) "github.com")
      then Thrown ("Unsupported hostname: " ++ hostname parts
                     ++ ". Please provide a valid GitHub URL.")
      else Returned parts
  | other => other
  end.

Definition matchIssueUrl (url : string) : outcome (option IssueMatch) :=
  match validateUrl url with
  | Thrown e => Thrown e
  | Starved => Starved
  | Returned parts =>
      match issuePathMatch (pathname parts) with
      | None => Returned None
      | Some (o, r, digits) =>
          if negb (nonempty o) || negb (nonempty r)
          then Thrown ("Invalid GitHub URL: " ++ url)
          else Returned
                 (Some {| owner := o; repo := r;
                          issueNumber := option_map parseInt digits |})
      end
  end.

(** Whether [matchDiscussionUrl] finds a discussion. *)
Definition matchDiscussionUrl (url : string) : outcome bool :=
  match validateUrl url with
  | Thrown e => Thrown e
  | Starved => Starved
  | Returned parts => Returned (discussionPathMatch (pathname parts))
  end.

Definition is_some {A} (o : option A) : bool :=
  match o with Some _ => true | None => false end.

(** The loop of [scrapeUrls] over the matches. *)
Fixpoint scrapeLoop (kinds : list string) (matches : list string)
         (urls : list string) : outcome (list string) :=
  match matches with
  | [] => Returned urls
  | m :: rest =>
      let next (hit : bool) :=
        scrapeLoop kinds rest (if hit then Set_add urls m else urls) in
      let discussion :=
        if Set_has kinds "discussion" then
          match matchDiscussionUrl m with
          | Returned hit => next hit
          | Thrown e => Thrown e
          | Starved => Starved
          end
        else next false in
      if Set_has kinds "issue" then
        match matchIssueUrl m with
        | Returned (Some _) => next true
        | Returned None => discussion
        | Thrown e => Thrown e
        | Starved => Starved
        end
      else discussion
  end.

Definition scrapeUrls (blob : string) (kinds : list string)
  : outcome (list string) :=
  scrapeLoop kinds (matchAll 0 blob) [].

End Matchers.

End GithubUrl.

(* ===================================================================== *)
(** ** Data model ([issue.ts], [issue-list.ts]) *)
(* ===================================================================== *)

Record Parent : Type := {
  parent_title : string;
  parent_url : string;
  parent_number : Z
}.

Record Repository : Type := {
  repository_name : string;
  repository_owner : string;
  repository_nameWithOwner : string
}.

(** [GetIssueParameters], also the shape of
    [ListSubissuesForIssueParameters]. *)
Record GetIssueParameters : Type := {
  params_organization : string;
  params_repository : string;
  params_issueNumber : Z
}.

Record SourceOfTruth : Type := {
  sot_title : string;
  sot_url : string;
  sot_groupKey : option string (* When using a groupBy *)
}.

Record RenderedIssue : Type := {
  markdown : string;
  sources : list string
}.

(** A JavaScript [Map] with string keys, in insertion order. *)
Definition JsMap (V : Type) : Type := list (string * V).

Fixpoint Map_get {V} (m : JsMap V) (key : string) : option V :=
  match m with
  | [] => None
  | (k, v) :: rest => if String.eqb k key then Some v else Map_get rest key
  end.

Definition Map_has {V} (m : JsMap V) (key : string) : bool :=
  match Map_get m key with Some _ => true | None => false end.

(** [m.set(key, f(m.get(key)))] for a key that is present. *)
Fixpoint Map_update {V} (m : JsMap V) (key : string) (f : V -> V) : JsMap V :=
  match m with
  | [] => []
  | (k, v) :: rest =>
      if String.eqb k key then (k, f v) :: rest
      else (k, v) :: Map_update rest key f
  end.

Definition Map_set {V} (m : JsMap V) (key : string) (v : V) : JsMap V :=
  if Map_has m key then Map_update m key (fun _ => v)
  else (m ++ [(key, v)])%list.

(** [array.sort(compare)]: a stable sort; an element stays before the
    later ones the comparator does not put it after. *)
Fixpoint sort_insert {A} (compare : A -> A -> Z) (x : A) (sorted : list A)
  : list A :=
  match sorted with
  | [] => [x]
  | y :: rest =>
      if (compare x y <=? 0)%Z then x :: sorted
      else y :: sort_insert compare x rest
  end.

Definition Array_sort {A} (compare : A -> A -> Z) (items : list A) : list A :=
  fold_right (sort_insert compare) [] items.

(** [s.trim()], for ASCII whitespace. *)
Fixpoint trimStart (s : string) : string :=
  match s with
  | String c rest => if StringUtil.is_space c then trimStart rest else s
  | EmptyString => EmptyString
  end.

Fixpoint trimEnd (s : string) : string :=
  match s with
  | EmptyString => EmptyString
  | String c rest =>
      match trimEnd rest with
      | EmptyString => if StringUtil.is_space c then EmptyString
                       else String c EmptyString
      | kept => String c kept
      end
  end.

Definition trim (s : string) : string := trimEnd (trimStart s).

(** [a || b] on strings. *)
Definition or_else (a b : string) : string :=
  if String.eqb a "" then b else a.

(** [#.repeat(n)] *)
Fixpoint repeat_string (s : string) (n : nat) : string :=
  match n with
  | O => EmptyString
  | S k => s ++ repeat_string s k
  end.

Set Implicit Arguments.

Section Model.

(** The types of [./comment], [./project-fields] and [./issue-fields]. *)
Variable Comment : Type.
Variable ProjectField : Type.
Variable IssueFieldValue : Type.

Record Project : Type := {
  project_organization : string;
  project_number : Z;
  project_fields : JsMap ProjectField
}.

(** The raw record [Issue]; dates are milliseconds since the epoch. *)
Record Issue : Type := {
  issue_title : string;
  issue_body : string;
  issue_url : string;
  issue_number : Z;
  issue_isOpen : bool;
  issue_createdAt : Z;
  issue_updatedAt : Z;
  issue_type : string;
  issue_repository : Repository;
  issue_assignees : list string;
  issue_labels : list string;
  issue_comments : option (list Comment);
  issue_parent : option Parent;
  issue_project : option Project;
  issue_issueFields : option (JsMap IssueFieldValue);
  issue_isSubissue : option bool
}.

(** The members of class [IssueList] over its entities. *)
Record IssueListOf (W : Type) : Type := {
  sourceOfTruth : SourceOfTruth;
  issues : list W;
  organization : option string;
  projectNumber : option Z;
  commentsFetched : bool;
  projectFieldsFetched : bool
}.

Arguments sourceOfTruth {W}.
Arguments issues {W}.
Arguments organization {W}.
Arguments projectNumber {W}.
Arguments commentsFetched {W}.
Arguments projectFieldsFetched {W}.

(** Class [IssueWrapper]. [commentList] is the cached [CommentList], kept
    as the comment array it was built from. *)
Inductive IssueWrapper : Type :=
  Build_IssueWrapper
    (issue : Issue)
    (commentList : option (list Comment))
    (subissues : option (IssueListOf IssueWrapper))
    (relatedIssues : option (IssueListOf IssueWrapper)).

Definition IssueList : Type := IssueListOf IssueWrapper.

Definition issue (w : IssueWrapper) : Issue :=
  match w with Build_IssueWrapper i _ _ _ => i end.
Definition commentList (w : IssueWrapper) : option (list Comment) :=
  match w with Build_IssueWrapper _ c _ _ => c end.
Definition wrapper_subissues (w : IssueWrapper) : option IssueList :=
  match w with Build_IssueWrapper _ _ s _ => s end.
Definition wrapper_relatedIssues (w : IssueWrapper) : option IssueList :=
  match w with Build_IssueWrapper _ _ _ r => r end.

Definition set_issue (i : Issue) (w : IssueWrapper) : IssueWrapper :=
  match w with Build_IssueWrapper _ c s r => Build_IssueWrapper i c s r end.
Definition set_commentList (c : option (list Comment)) (w : IssueWrapper)
  : IssueWrapper :=
  match w with Build_IssueWrapper i _ s r => Build_IssueWrapper i c s r end.
Definition set_subissues (s : option IssueList) (w : IssueWrapper)
  : IssueWrapper :=
  match w with Build_IssueWrapper i c _ r => Build_IssueWrapper i c s r end.
Definition set_relatedIssues (r : option IssueList) (w : IssueWrapper)
  : IssueWrapper :=
  match w with Build_IssueWrapper i c s _ => Build_IssueWrapper i c s r end.

Definition set_comments (c : option (list Comment)) (i : Issue) : Issue :=
  {| issue_title := issue_title i; issue_body := issue_body i;
     issue_url := issue_url i; issue_number := issue_number i;
     issue_isOpen := issue_isOpen i; issue_createdAt := issue_createdAt i;
     issue_updatedAt := issue_updatedAt i; issue_type := issue_type i;
     issue_repository := issue_repository i;
     issue_assignees := issue_assignees i; issue_labels := issue_labels i;
     issue_comments := c; issue_parent := issue_parent i;
     issue_project := issue_project i;
     issue_issueFields := issue_issueFields i;
     issue_isSubissue := issue_isSubissue i |}.

Definition set_project (p : option Project) (i : Issue) : Issue :=
  {| issue_title := issue_title i; issue_body := issue_body i;
     issue_url := issue_url i; issue_number := issue_number i;
     issue_isOpen := issue_isOpen i; issue_createdAt := issue_createdAt i;
     issue_updatedAt := issue_updatedAt i; issue_type := issue_type i;
     issue_repository := issue_repository i;
     issue_assignees := issue_assignees i; issue_labels := issue_labels i;
     issue_comments := issue_comments i; issue_parent := issue_parent i;
     issue_project := p;
     issue_issueFields := issue_issueFields i;
     issue_isSubissue := issue_isSubissue i |}.

Definition set_sourceOfTruth (s : SourceOfTruth) (l : IssueList) : IssueList :=
  {| sourceOfTruth := s; issues := issues l;
     organization := organization l; projectNumber := projectNumber l;
     commentsFetched := commentsFetched l;
     projectFieldsFetched := projectFieldsFetched l |}.

Definition set_issues (ws : list IssueWrapper) (l : IssueList) : IssueList :=
  {| sourceOfTruth := sourceOfTruth l; issues := ws;
     organization := organization l; projectNumber := projectNumber l;
     commentsFetched := commentsFetched l;
     projectFieldsFetched := projectFieldsFetched l |}.

Definition set_organization (o : option string) (l : IssueList) : IssueList :=
  {| sourceOfTruth := sourceOfTruth l; issues := issues l;
     organization := o; projectNumber := projectNumber l;
     commentsFetched := commentsFetched l;
     projectFieldsFetched := projectFieldsFetched l |}.

Definition set_projectNumber (n : option Z) (l : IssueList) : IssueList :=
  {| sourceOfTruth := sourceOfTruth l; issues := issues l;
     organization := organization l; projectNumber := n;
     commentsFetched := commentsFetched l;
     projectFieldsFetched := projectFieldsFetched l |}.

Definition set_commentsFetched (b : bool) (l : IssueList) : IssueList :=
  {| sourceOfTruth := sourceOfTruth l; issues := issues l;
     organization := organization l; projectNumber := projectNumber l;
     commentsFetched := b;
     projectFieldsFetched := projectFieldsFetched l |}.

Definition set_projectFieldsFetched (b : bool) (l : IssueList) : IssueList :=
  {| sourceOfTruth := sourceOfTruth l; issues := issues l;
     organization := organization l; projectNumber := projectNumber l;
     commentsFetched := commentsFetched l;
     projectFieldsFetched := b |}.

(** [IssueFetchParameters] ([src/util/config/fetch.ts]). *)
Record IssueFetchParameters : Type := {
  fetch_comments : Z;
  fetch_projectFields : bool;
  fetch_issueFields : bool;
  fetch_subissues : bool;
  fetch_followLinks : bool;
  fetch_filter : IssueWrapper -> bool
}.

(** What the code reaches outside the files modelled here: the tracker
    client ([./graphql]), the comment list and the comment renderer, the
    configuration singletons, and the platform. *)
Record Collaborators : Type := {
  (* ./graphql *)
  getIssue : GetIssueParameters -> Issue + string;
  listCommentsForIssue : GetIssueParameters -> Z -> list Comment + string;
  listProjectFieldsForIssue :
    GetIssueParameters -> Z -> JsMap ProjectField + string;
  listSubissuesForIssue :
    GetIssueParameters -> (list Issue * string * string) + string;
  listCommentsForListOfIssues :
    list GetIssueParameters -> Z ->
    list (GetIssueParameters * list Comment) + string;
  listProjectFieldsForProject :
    string -> Z -> list (GetIssueParameters * JsMap ProjectField) + string;
  (* ./comment-list and ./comment, on the list built for an entity *)
  hasUpdate : IssueWrapper -> list Comment -> bool;
  latestUpdate : IssueWrapper -> list Comment -> option Comment;
  latestUpdates :
    IssueWrapper -> list Comment -> Z -> option (string + list string) ->
    list Comment;
  comment_update : Comment -> string;
  emojiStatus : Comment -> list string -> option string;
  renderComment : Comment -> IssueRenderOptions -> nat -> option RenderedIssue;
  (* ./fields, ./project-fields, ./project-view *)
  mapProjectFieldsToString : JsMap ProjectField -> JsMap string;
  mapIssueFieldsToString : JsMap IssueFieldValue -> JsMap string;
  field_kind : ProjectField -> string;
  field_options : ProjectField -> option (list string);
  slugifyFieldName : string -> string;
  (* @config, @util/date, @util/emoji *)
  EMOJI_OVERRIDE : option string;
  isTrueString : string -> bool;
  isTruthy : JsValue -> bool;
  timeframe : string;
  ONE_DAY : Z;
  emojiCompare : string -> string -> option Z;
  (* the platform *)
  now : Z;
  newURL : string -> GithubUrl.URL + string;
  localeCompare : string -> string -> Z;
  toISOString : Z -> string;
  JSON_stringify : GetIssueParameters -> string;
  Number : JsValue -> option Z;
  ToString : JsValue -> string
}.

Variable K : Collaborators.

(* ------------------------------------------------------------------- *)
(** *** [IssueWrapper]: properties *)

(** [new IssueWrapper(issue)] *)
Definition IssueWrapper_new (i : Issue) : IssueWrapper :=
  Build_IssueWrapper i None None None.

Definition IssueWrapper_title (this : IssueWrapper) : string :=
  trim (issue_title (issue this)).

Definition IssueWrapper__body (this : IssueWrapper) : string :=
  trim (issue_body (issue this)).

Definition IssueWrapper_url (this : IssueWrapper) : string :=
  issue_url (issue this).

Definition IssueWrapper_header (this : IssueWrapper) : string :=
  "[" ++ IssueWrapper_title this ++ "](" ++ IssueWrapper_url this ++ ")".

Definition IssueWrapper_number (this : IssueWrapper) : Z :=
  issue_number (issue this).

Definition IssueWrapper_isSubissue (this : IssueWrapper) : bool :=
  match issue_isSubissue (issue this) with Some b => b | None => false end.

Definition IssueWrapper_createdAt (this : IssueWrapper) : Z :=
  issue_createdAt (issue this).

Definition IssueWrapper_updatedAt (this : IssueWrapper) : Z :=
  issue_updatedAt (issue this).

Definition IssueWrapper_type (this : IssueWrapper) : string :=
  if IssueWrapper_isSubissue this then "Subissue"
  else issue_type (issue this).

Definition IssueWrapper_repo (this : IssueWrapper) : string :=
  repository_name (issue_repository (issue this)).

Definition IssueWrapper_repository (this : IssueWrapper) : string :=
  repository_name (issue_repository (issue this)).

Definition IssueWrapper_organization (this : IssueWrapper) : string :=
  repository_owner (issue_repository (issue this)).

Definition IssueWrapper_owner (this : IssueWrapper) : string :=
  repository_owner (issue_repository (issue this)).

Definition IssueWrapper_repoNameWithOwner (this : IssueWrapper) : string :=
  repository_nameWithOwner (issue_repository (issue this)).

Definition IssueWrapper_parent (this : IssueWrapper) : option Parent :=
  issue_parent (issue this).

(** What [get comments()] returns: the cached list, or the one it would
    build from [issue.comments || []]. *)
Definition IssueWrapper_comments (this : IssueWrapper) : list Comment :=
  match commentList this with
  | Some cached => cached
  | None =>
      match issue_comments (issue this) with
      | Some comments => comments
      | None => []
      end
  end.

(** [get comments()] with its write to the cache. *)
Definition IssueWrapper_get_comments : Eff IssueWrapper (list Comment) :=
  fun this log =>
    let comments := IssueWrapper_comments this in
    (Returned comments, set_commentList (Some comments) this, log).

(** [set comments(comments)] *)
Definition IssueWrapper_set_comments (comments : list Comment)
           (this : IssueWrapper) : IssueWrapper :=
  set_commentList None (set_issue (set_comments (Some comments) (issue this)) this).

(** [set project(project)] *)
Definition IssueWrapper_set_project (project : Project) (this : IssueWrapper)
  : IssueWrapper :=
  set_issue (set_project (Some project) (issue this)) this.

Definition IssueWrapper_projectNumber (this : IssueWrapper) : option Z :=
  option_map project_number (issue_project (issue this)).

Definition IssueWrapper__projectFields (this : IssueWrapper)
  : option (JsMap ProjectField) :=
  option_map project_fields (issue_project (issue this)).

Definition IssueWrapper_projectFields (this : IssueWrapper) : JsMap string :=
  match IssueWrapper__projectFields this with
  | None => []
  | Some raw => mapProjectFieldsToString K raw
  end.

Definition IssueWrapper__issueFields (this : IssueWrapper)
  : option (JsMap IssueFieldValue) :=
  issue_issueFields (issue this).

Definition IssueWrapper_issueFields (this : IssueWrapper) : JsMap string :=
  match IssueWrapper__issueFields this with
  | None => []
  | Some raw => mapIssueFieldsToString K raw
  end.

Definition string_or_empty (o : option string) : string :=
  match o with Some s => s | None => "" end.

(** [field(fieldName)]. Reading [this.body] also hands a rendering of the
    body to the [Memory] singleton; that store is written only and is
    not part of this model. *)
Definition IssueWrapper_field (this : IssueWrapper) (fieldName : string)
  : string :=
  let f := StringUtil.fuzzy fieldName in
  let named (alias : string) := String.eqb f (StringUtil.fuzzy alias) in
  if named "title" then IssueWrapper_title this
  else if named "url" then IssueWrapper_url this
  else if named "number" then string_of_Z (IssueWrapper_number this)
  else if named "body" then IssueWrapper__body this
  else if named "type" then IssueWrapper_type this
  else if named "repo" || named "repository" then IssueWrapper_repo this
  else if named "org" || named "organization" || named "owner"
  then IssueWrapper_owner this
  else if named "full_name" || named "name_with_owner" || named "repo_name_with_owner"
  then IssueWrapper_repoNameWithOwner this
  else if named "parent" || named "parent_issue" || named "parent_title"
  then or_else (string_or_empty
                  (option_map parent_title (IssueWrapper_parent this))) ""
  else if named "parent_url"
  then or_else (string_or_empty
                  (option_map parent_url (IssueWrapper_parent this))) ""
  else
    let slug := slugifyFieldName K fieldName in
    let fieldValue :=
      or_else (string_or_empty (Map_get (IssueWrapper_issueFields this) slug))
              (string_or_empty (Map_get (IssueWrapper_projectFields this) slug)) in
    or_else fieldValue "".

(** The tail of [status]: [this.field(fieldName)], or [No Status]. *)
Definition IssueWrapper_fieldOrNoStatus (this : IssueWrapper)
           (fieldName : string) : string :=
  let value := IssueWrapper_field this fieldName in
  if String.eqb value "" then "No Status" else value.

Definition IssueWrapper_status (this : IssueWrapper) (fieldName : string)
  : string :=
  let fallback := IssueWrapper_fieldOrNoStatus this fieldName in
  match EMOJI_OVERRIDE K,
        latestUpdate K this (IssueWrapper_comments this) with
  | Some emojiOverride, Some update =>
      if String.eqb emojiOverride "" then fallback
      else
        let emojiSections :=
          if isTrueString K emojiOverride then []
          else map trim (StringUtil.split "," emojiOverride) in
        match emojiStatus K update emojiSections with
        | None => fallback
        | Some emoji =>
            if String.eqb emoji "" then fallback
            else
              match option_map (fun fields => Map_get fields fieldName)
                               (IssueWrapper__projectFields this) with
              | Some (Some field) =>
                  if String.eqb (field_kind K field) "SingleSelect" then
                    match find (fun option => StringUtil.includes option emoji)
                               (match field_options K field with
                                | Some options => options
                                | None => []
                                end) with
                    | Some option => option
                    | None => fallback
                    end
                  else emoji
              | _ => emoji
              end
        end
  | _, _ => fallback
  end.

(** [wasUpdatedSince(daysAgo)] *)
Definition IssueWrapper_wasUpdatedSince (this : IssueWrapper) (daysAgo : Z)
  : bool :=
  (now K - IssueWrapper_updatedAt this <? daysAgo * ONE_DAY K)%Z.

Definition IssueWrapper_wasUpdatedWithinTimeframe (this : IssueWrapper)
           (timeframe : string) : outcome bool :=
  if String.eqb timeframe "all-time" then Returned true
  else if String.eqb timeframe "today"
  then Returned (IssueWrapper_wasUpdatedSince this 1)
  else if String.eqb timeframe "last-week"
  then Returned (IssueWrapper_wasUpdatedSince this 7)
  else if String.eqb timeframe "last-month"
  then Returned (IssueWrapper_wasUpdatedSince this 31)
  else if String.eqb timeframe "last-year"
  then Returned (IssueWrapper_wasUpdatedSince this 365)
  else Thrown ("Invalid Timeframe for Issue filtering: " ++ dquote
                 ++ timeframe ++ dquote ++ ".").

(* ------------------------------------------------------------------- *)
(** *** [IssueList]: construction, properties, transformations *)

(** The private constructor: fresh wrappers, no organization, no project
    number, both fetch flags [false]. *)
Definition IssueList_new (raw : list Issue) (sot : SourceOfTruth) : IssueList :=
  {| sourceOfTruth := sot;
     issues := map IssueWrapper_new raw;
     organization := None;
     projectNumber := None;
     commentsFetched := false;
     projectFieldsFetched := false |}.

Definition IssueList_null : IssueList :=
  IssueList_new [] {| sot_title := "No Issues"; sot_url := "";
                      sot_groupKey := None |}.

Definition IssueList_all (this : IssueList) : list IssueWrapper :=
  issues this.

Definition IssueList_filter (this : IssueList)
           (predicate : IssueWrapper -> bool) : list IssueWrapper :=
  filter predicate (issues this).

Definition IssueList_length (this : IssueList) : nat :=
  List.length (issues this).

Definition IssueList_isEmpty (this : IssueList) : bool :=
  (List.length (issues this) =? 0)%nat.

Definition same_issue (params : GetIssueParameters) (w : IssueWrapper) : bool :=
  String.eqb (IssueWrapper_organization w) (params_organization params)
  && String.eqb (IssueWrapper_repository w) (params_repository params)
  && Z.eqb (IssueWrapper_number w) (params_issueNumber params).

Definition IssueList_find (this : IssueList) (params : GetIssueParameters)
  : option IssueWrapper :=
  find (same_issue params) (issues this).

Definition IssueList_copy (this : IssueList) : IssueList :=
  let copy := IssueList_new [] (sourceOfTruth this) in
  set_issues (issues this) copy.

Definition IssueList_header (this : IssueList) : string :=
  "[" ++ sot_title (sourceOfTruth this) ++ "]("
      ++ sot_url (sourceOfTruth this) ++ ")".

Definition IssueList_title (this : IssueList) : string :=
  sot_title (sourceOfTruth this).

Definition IssueList_url (this : IssueList) : string :=
  sot_url (sourceOfTruth this).

Definition groupKeyError : string := "Don't use groupKey without a groupBy.".

Definition IssueList_groupKey (this : IssueList) : outcome string :=
  match sot_groupKey (sourceOfTruth this) with
  | None => Thrown groupKeyError
  | Some key => if String.eqb key "" then Thrown groupKeyError
                else Returned key
  end.

(** [emojiCompare(a, b) ?? a.localeCompare(b)] *)
Definition compareKeys (a b : string) : Z :=
  match emojiCompare K a b with
  | Some c => c
  | None => localeCompare K a b
  end.

(** [emojiCompare(a, b) || a.localeCompare(b)] *)
Definition compareValues (a b : string) : Z :=
  match emojiCompare K a b with
  | Some c => if Z.eqb c 0 then localeCompare K a b else c
  | None => localeCompare K a b
  end.

Definition IssueList_sort (this : IssueList) (fieldName : string)
           (descending : bool) : IssueList :=
  set_issues
    (Array_sort
       (fun a b =>
          let comparison :=
            compareValues (IssueWrapper_status a fieldName)
                          (IssueWrapper_status b fieldName) in
          if descending then (- comparison)%Z else comparison)
       (issues this))
    this.

(** [issues.push(issue)] on a group. *)
Definition push_issue (w : IssueWrapper) (group : IssueList) : IssueList :=
  set_issues (issues group ++ [w])%list group.

(** One turn of the loop of [groupBy]. *)
Definition groupBy_step (this : IssueList) (fieldName : string)
           (groups : JsMap IssueList) (w : IssueWrapper) : JsMap IssueList :=
  let key := IssueWrapper_status w fieldName in
  let groups :=
    if negb (Map_has groups key) then
      Map_set groups key
        (IssueList_new []
           {| sot_title := sot_title (sourceOfTruth this);
              sot_url := sot_url (sourceOfTruth this);
              sot_groupKey :=
                Some (or_else key ("No " ++ StringUtil.title fieldName)) |})
    else groups in
  Map_update groups key (push_issue w).

Definition groupBy_groups (this : IssueList) (fieldName : string)
  : JsMap IssueList :=
  fold_left (groupBy_step this fieldName) (issues this) [].

Definition IssueList_groupBy (this : IssueList) (fieldName : string)
  : list IssueList :=
  map snd
      (Array_sort (fun a b => compareKeys (fst a) (fst b))
                  (groupBy_groups this fieldName)).

(** [get hasUpdates()] *)
Definition IssueList_hasUpdates (this : IssueList) : bool :=
  existsb (fun w => hasUpdate K w (IssueWrapper_comments w)) (issues this).

Definition IssueList_blame (this : IssueList)
           (strategiesBlob : option (string + list string)) : IssueList :=
  let blameList := IssueList_copy this in
  let blameList :=
    set_issues
      (IssueList_filter blameList
         (fun w =>
            (List.length
               (latestUpdates K w (IssueWrapper_comments w) 1 strategiesBlob)
             =? 0)%nat))
      blameList in
  set_sourceOfTruth
    {| sot_title := sot_title (sourceOfTruth blameList) ++ " - Stale Updates";
       sot_url := sot_url (sourceOfTruth blameList);
       sot_groupKey := sot_groupKey (sourceOfTruth blameList) |}
    blameList.

(* ------------------------------------------------------------------- *)
(** *** [renderIssue] ([src/3_transform/render-objects/issue.ts]) *)

Definition nl : string := String (ascii_of_nat 10) EmptyString.

Definition placeholder : string :=
  "This Issue has no updates, or body content to render." ++ nl ++ nl.

Definition set_render_subissues (b : option bool) (o : IssueRenderOptions)
  : IssueRenderOptions :=
  {| header := header o; body := body o; updates := updates o;
     author := author o; createdAt := createdAt o; updatedAt := updatedAt o;
     fields := fields o; subissues := b; relatedIssues := relatedIssues o;
     skipIfEmpty := skipIfEmpty o |}.

Definition set_render_relatedIssues (b : option bool) (o : IssueRenderOptions)
  : IssueRenderOptions :=
  {| header := header o; body := body o; updates := updates o;
     author := author o; createdAt := createdAt o; updatedAt := updatedAt o;
     fields := fields o; subissues := subissues o; relatedIssues := b;
     skipIfEmpty := skipIfEmpty o |}.

(** The two assignments at the head of [renderIssue]: an option left
    [undefined] is set, on the options object itself, to whether the
    entity has that collection. *)
Definition resolveDefaults (w : IssueWrapper) (options : IssueRenderOptions)
  : IssueRenderOptions :=
  let options :=
    match subissues options with
    | None => set_render_subissues
                (Some (GithubUrl.is_some (wrapper_subissues w))) options
    | Some _ => options
    end in
  match relatedIssues options with
  | None => set_render_relatedIssues
              (Some (GithubUrl.is_some (wrapper_relatedIssues w))) options
  | Some _ => options
  end.

Definition requested (o : option bool) : bool :=
  match o with Some b => b | None => false end.

(** The condition of the emptiness test, on resolved options. *)
Definition nothingToRender (w : IssueWrapper) (options : IssueRenderOptions)
  : bool :=
  (Z.eqb (updates options) 0 || negb (hasUpdate K w (IssueWrapper_comments w)))
  && (negb (body options) || String.eqb (IssueWrapper__body w) "")
  && (negb (requested (subissues options))
      || match wrapper_subissues w with
         | None => true
         | Some subs => negb (IssueList_hasUpdates subs)
         end).

(** The state of the function while it appends: the markdown, the
    sources, and the options object it hands on. *)
Definition RenderState : Type := string * list string * IssueRenderOptions.

Definition renderFieldLine (w : IssueWrapper) (md : string)
           (fieldName : string) : string :=
  let fieldValue := IssueWrapper_field w fieldName in
  if String.eqb fieldValue "" then md
  else md ++ "**" ++ fieldName ++ ":** " ++ fieldValue ++ nl.

(** One turn of the loop over the latest updates. *)
Definition renderUpdateStep (headerLevel : nat) (st : RenderState)
           (update : Comment) : RenderState :=
  let '(md, srcs, options) := st in
  match renderComment K update options (headerLevel + 1) with
  | Some rendered =>
      (md ++ markdown rendered ++ nl ++ nl,
       (srcs ++ sources rendered)%list, options)
  | None => st
  end.

(** One turn of a loop over nested entities (sub-issues, related
    issues), with the recursive call as [render]. *)
Definition renderNestedStep
           (render : IssueWrapper -> IssueRenderOptions -> nat ->
                     option RenderedIssue * IssueRenderOptions)
           (headerLevel : nat) (st : RenderState) (nested : IssueWrapper)
  : RenderState :=
  let '(md, srcs, options) := st in
  match render nested options (headerLevel + 1) with
  | (Some rendered, options') =>
      (md ++ markdown rendered ++ nl ++ nl,
       (srcs ++ sources rendered)%list, options')
  | (None, options') => (md, srcs, options')
  end.

(** A loop over a nested collection, closed by a horizontal rule. *)
Definition renderNested
           (render : IssueWrapper -> IssueRenderOptions -> nat ->
                     option RenderedIssue * IssueRenderOptions)
           (headerLevel : nat) (nested : list IssueWrapper) (st : RenderState)
  : RenderState :=
  let '(md, srcs, options) :=
    fold_left (renderNestedStep render headerLevel) nested st in
  (md ++ "---" ++ nl ++ nl, srcs, options).

(** The body of [renderIssue(issue, options, headerLevel)], with [render]
    for its recursive calls: the fragment, if any, and the options object
    as the call leaves it. *)
Definition renderIssue_with
           (render : IssueWrapper -> IssueRenderOptions -> nat ->
                     option RenderedIssue * IssueRenderOptions)
           (issue : IssueWrapper) (options : IssueRenderOptions)
           (headerLevel : nat)
  : option RenderedIssue * IssueRenderOptions :=
  let options := resolveDefaults issue options in
  let md := "" in
  let srcs := [IssueWrapper_url issue] in
  let md :=
    if header options
    then md ++ repeat_string "#" headerLevel ++ " "
            ++ IssueWrapper_header issue ++ nl ++ nl
    else md in
  if nothingToRender issue options then
    if skipIfEmpty options || negb (header options) then (None, options)
    else (Some {| markdown := md ++ placeholder; sources := srcs |}, options)
  else
    let md :=
      if createdAt options
      then md ++ "Issue Opened: " ++ toISOString K (IssueWrapper_createdAt issue)
      else md in
    let md :=
      if updatedAt options
      then md ++ "Issue Edited: " ++ toISOString K (IssueWrapper_updatedAt issue)
      else md in
    let md :=
      if (0 <? List.length (fields options))%nat
      then fold_left (renderFieldLine issue) (fields options) md ++ nl
      else md in
    let md :=
      if body options then md ++ IssueWrapper__body issue ++ nl ++ nl
      else md in
    let st : RenderState := (md, srcs, options) in
    let st :=
      if negb (Z.eqb (updates options) 0)
      then fold_left (renderUpdateStep headerLevel)
                     (latestUpdates K issue (IssueWrapper_comments issue)
                                    (updates options) None)
                     st
      else st in
    let st :=
      if requested (subissues (snd st)) then
        match wrapper_subissues issue with
        | Some subs => renderNested render headerLevel (issues subs) st
        | None => st
        end
      else st in
    let st :=
      if requested (relatedIssues (snd st)) then
        match wrapper_relatedIssues issue with
        | Some related =>
            renderNested render headerLevel (issues related) st
        | None => st
        end
      else st in
    let '(md, srcs, options) := st in
    (Some {| markdown := md; sources := srcs |}, options).

(** [renderIssue]: the recursion follows the entity into its sub-issues
    and related issues. *)
Fixpoint renderIssue (issue : IssueWrapper) (options : IssueRenderOptions)
         (headerLevel : nat) {struct issue}
  : option RenderedIssue * IssueRenderOptions :=
  renderIssue_with renderIssue issue options headerLevel.

(* ------------------------------------------------------------------- *)
(** *** Fetch parameters ([src/util/config/fetch.ts]) *)

Definition fetchValidKeys : list string :=
  [ "comments"; "projectFields"; "issueFields"; "subissues"; "followLinks";
    "filter" ].

(** [DirtyIssueFetchParameters]: the data properties in key order, and
    the [filter] function when the object has one (its key comes last). *)
Record DirtyIssueFetchParameters : Type := {
  dirty_props : JsRecord;
  dirty_filter : option (IssueWrapper -> bool)
}.

Definition dirty_keys (params : DirtyIssueFetchParameters) : list string :=
  (Object_keys (dirty_props params)
     ++ match dirty_filter params with Some _ => ["filter"] | None => [] end)%list.

Definition validateFetchParameters (params : DirtyIssueFetchParameters)
  : outcome IssueFetchParameters :=
  let invalidKeys :=
    filter (fun key => negb (Set_has fetchValidKeys key)) (dirty_keys params) in
  let get := prop (dirty_props params) in
  if (0 <? List.length invalidKeys)%nat
  then Thrown ("Invalid FetchParameter"
                 ++ (if (1 <? List.length invalidKeys)%nat then "s" else "")
                 ++ ": " ++ join ", " invalidKeys)
  else
    let comments : outcome Z :=
      if is_undefined (get "comments") then Returned 20%Z
      else
        let bad :=
          Thrown ("Invalid FetchParams value for " ++ dquote ++ "comments"
                    ++ dquote ++ ": " ++ ToString K (get "comments")
                    ++ ". Use a positive number. Default: 20.") in
        match ToNumber (Number K) (get "comments") with
        | None => bad
        | Some n => if (n <? 0)%Z then bad else Returned n
        end in
    match comments with
    | Thrown e => Thrown e
    | Starved => Starved
    | Returned comments =>
        Returned
          {| fetch_comments := comments;
             fetch_projectFields :=
               RenderConfig.definedOr (isTruthy K) false (get "projectFields");
             fetch_issueFields :=
               RenderConfig.definedOr (isTruthy K) false (get "issueFields");
             fetch_subissues :=
               RenderConfig.definedOr (isTruthy K) false (get "subissues");
             fetch_followLinks :=
               RenderConfig.definedOr (isTruthy K) false (get "followLinks");
             fetch_filter :=
               match dirty_filter params with
               | Some f => f
               | None => fun _ => true
               end |}
    end.

(** [{ ...params, subissues: true }], the argument of
    [validateFetchParameters] in [fetchSubissues]. *)
Definition inheritWithSubissues (params : IssueFetchParameters)
  : DirtyIssueFetchParameters :=
  {| dirty_props :=
       [ ("comments", JsNumber (Some (fetch_comments params)));
         ("projectFields", JsBool (fetch_projectFields params));
         ("issueFields", JsBool (fetch_issueFields params));
         ("subissues", JsBool true);
         ("followLinks", JsBool (fetch_followLinks params)) ];
     dirty_filter := Some (fetch_filter params) |}.

(** [{ ...params, subissues: false }], the parameters [followLinks] hands
    to [IssueList.forUrls]. *)
Definition relatedFetchParameters (params : IssueFetchParameters)
  : IssueFetchParameters :=
  {| fetch_comments := fetch_comments params;
     fetch_projectFields := fetch_projectFields params;
     fetch_issueFields := fetch_issueFields params;
     fetch_subissues := false; (* Prevent loops *)
     fetch_followLinks := fetch_followLinks params;
     fetch_filter := fetch_filter params |}.

(* ------------------------------------------------------------------- *)
(** *** Fetching *)

(** A number used as a condition: defined and not zero. *)
Definition truthyNumber (n : option Z) : option Z :=
  match n with
  | Some z => if Z.eqb z 0 then None else Some z
  | None => None
  end.

Definition truthyString (s : option string) : option string :=
  match s with
  | Some v => if String.eqb v "" then None else Some v
  | None => None
  end.

(** The text of an [Error] inside a template literal. *)
Definition errorText (message : string) : string := "Error: " ++ message.

Definition issueParams (this : IssueWrapper) : GetIssueParameters :=
  {| params_organization := IssueWrapper_organization this;
     params_repository := IssueWrapper_repository this;
     params_issueNumber := IssueWrapper_number this |}.

Definition paramsArgs (p : GetIssueParameters) : list string :=
  [ params_organization p; params_repository p;
    string_of_Z (params_issueNumber p) ].

(** [IssueWrapper.fetchComments(numComments)] (private) *)
Definition IssueWrapper_fetchComments (numComments : Z)
  : Eff IssueWrapper unit :=
  (this <- Eff.this ;;
   match issue_comments (issue this) with
   | Some _ => Eff.ret tt (* Already fetched, probably at the list level *)
   | None =>
       comments <- Eff.request "listCommentsForIssue"
                     (paramsArgs (issueParams this) ++ [string_of_Z numComments])%list
                     (listCommentsForIssue K (issueParams this) numComments) ;;
       Eff.assign (fun w => set_issue (set_comments (Some comments) (issue w)) w)
   end)%eff.

Definition projectMismatch (attached asked : Z) : string :=
  "Issue is already associated with Project #" ++ string_of_Z attached
    ++ ", cannot fetch fields for Project #" ++ string_of_Z asked ++ ".".

(** [IssueWrapper.fetchProjectFields(projectNumber)] (private) *)
Definition IssueWrapper_fetchProjectFields (projectNumber : Z)
  : Eff IssueWrapper unit :=
  (this <- Eff.this ;;
   match issue_project (issue this) with
   | Some project =>
       if Z.eqb (project_number project) projectNumber
       then Eff.ret tt (* Already fetched *)
       else Eff.throw (projectMismatch (project_number project) projectNumber)
   | None =>
       fields <- Eff.request "listProjectFieldsForIssue"
                   (paramsArgs (issueParams this) ++ [string_of_Z projectNumber])%list
                   (listProjectFieldsForIssue K (issueParams this) projectNumber) ;;
       Eff.assign
         (IssueWrapper_set_project
            {| project_organization := IssueWrapper_organization this;
               project_number := projectNumber;
               project_fields := fields |})
   end)%eff.

(** [issue.comments = comments] on the first entity [find] returns; [None]
    when there is none. *)
Fixpoint assignFound (params : GetIssueParameters)
         (change : IssueWrapper -> IssueWrapper) (ws : list IssueWrapper)
  : option (list IssueWrapper) :=
  match ws with
  | [] => None
  | w :: rest =>
      if same_issue params w then Some (change w :: rest)
      else option_map (cons w) (assignFound params change rest)
  end.

Definition nonexistentIssue (params : GetIssueParameters) : string :=
  "Fetching Comments for nonexistent Issue " ++ JSON_stringify K params.

(** The loop of [IssueList.fetchComments] over the entries of the map. *)
Fixpoint assignComments (entries : list (GetIssueParameters * list Comment))
  : Eff IssueList unit :=
  match entries with
  | [] => Eff.ret tt
  | (params, comments) :: rest =>
      (this <- Eff.this ;;
       match assignFound params (IssueWrapper_set_comments comments)
                         (issues this) with
       | Some ws => (Eff.assign (set_issues ws) ;;; assignComments rest)
       | None => Eff.throw (nonexistentIssue params)
       end)%eff
  end.

(** [issues.filter(issue => issue.wasUpdatedWithinTimeframe(timeframe))] *)
Fixpoint withinTimeframe (timeframe : string) (ws : list IssueWrapper)
  : outcome (list IssueWrapper) :=
  match ws with
  | [] => Returned []
  | w :: rest =>
      match IssueWrapper_wasUpdatedWithinTimeframe w timeframe with
      | Returned keep =>
          match withinTimeframe timeframe rest with
          | Returned kept => Returned (if keep then w :: kept else kept)
          | other => other
          end
      | Thrown e => Thrown e
      | Starved => Starved
      end
  end.

(** [IssueList.fetchComments(numComments)] (private) *)
Definition IssueList_fetchComments (numComments : Z) : Eff IssueList unit :=
  (this <- Eff.this ;;
   if commentsFetched this then Eff.ret tt
   else
     selected <- Eff.lift (withinTimeframe (timeframe K) (issues this)) ;;
     commentsMap <- Eff.request "listCommentsForListOfIssues"
                      (flat_map (fun w => paramsArgs (issueParams w)) selected
                         ++ [string_of_Z numComments])%list
                      (listCommentsForListOfIssues K (map issueParams selected)
                                                   numComments) ;;
     assignComments commentsMap ;;;
     Eff.assign (set_commentsFetched true))%eff.

Definition cannotFetchProjectFields : string :=
  "Cannot fetch Project Fields without a common organization and projectNumber.".

(** The second loop of [IssueList.fetchProjectFields]: an item whose
    entity is not in the list is skipped. *)
Definition assignProjectFields (org : string) (number : Z)
           (ws : list IssueWrapper)
           (item : GetIssueParameters * JsMap ProjectField)
  : list IssueWrapper :=
  match assignFound (fst item)
          (IssueWrapper_set_project
             {| project_organization := org; project_number := number;
                project_fields := snd item |}) ws with
  | Some ws' => ws'
  | None => ws
  end.

(** [IssueList.fetchProjectFields(projectNumber?)], with [forNumber] for
    its argument. *)
Definition IssueList_fetchProjectFields (forNumber : option Z)
  : Eff IssueList unit :=
  (this <- Eff.this ;;
   if projectFieldsFetched this then Eff.ret tt
   else
     when (negb (GithubUrl.is_some (truthyNumber (projectNumber this)))
           && GithubUrl.is_some (truthyNumber forNumber))
          (* Project is somewhat mutable until >1 is supported per IssueList *)
          (Eff.assign (set_projectNumber forNumber)) ;;;
     this <- Eff.this ;;
     match truthyString (organization this),
           truthyNumber (projectNumber this) with
     | Some org, Some number =>
         projectFieldItems <- Eff.request "listProjectFieldsForProject"
                                [org; string_of_Z number]
                                (listProjectFieldsForProject K org number) ;;
         (* Initialize Issues with empty ProjectFields first *)
         Eff.assign
           (fun l =>
              set_issues
                (map (IssueWrapper_set_project
                        {| project_organization := org;
                           project_number := number;
                           project_fields := [] |})
                     (issues l)) l) ;;;
         Eff.assign
           (fun l =>
              set_issues
                (fold_left (assignProjectFields org number)
                           projectFieldItems (issues l)) l) ;;;
         Eff.assign (set_projectFieldsFetched true)
     | _, _ => Eff.throw cannotFetchProjectFields
     end)%eff.

(** The methods below call each other in a cycle that passes through
    [IssueWrapper.fetch]; [self] stands for that method in all of them. *)
Section Knot.

Variable self : IssueFetchParameters -> Eff IssueWrapper unit.

(** [IssueList.fetch(params)] *)
Definition IssueList_fetch_with (params : IssueFetchParameters)
  : Eff IssueList unit :=
  (this <- Eff.this ;;
   match (if fetch_projectFields params
          then truthyNumber (projectNumber this) else None) with
   | Some number => IssueList_fetchProjectFields (Some number)
   | None => Eff.ret tt
   end ;;;
   when (0 <? fetch_comments params)%Z
        (IssueList_fetchComments (fetch_comments params)) ;;;
   Eff.assign (fun l => set_issues (IssueList_filter l (fetch_filter params)) l) ;;;
   Eff.zoom issues set_issues (Eff.forEach (self params)))%eff.

(** [IssueList.forSubissues(params, fetchParams)] *)
Definition IssueList_forSubissues_with (params : GetIssueParameters)
           (fetchParams : IssueFetchParameters) : Eff unit IssueList :=
  Eff.try_catch
    (response <- Eff.request "listSubissuesForIssue" (paramsArgs params)
                   (listSubissuesForIssue K params) ;;
     let '(subissues, title, url) := response in
     let list :=
       set_organization (Some (params_organization params))
         (IssueList_new subissues
            {| sot_title := title; sot_url := url; sot_groupKey := None |}) in
     fetched <- Eff.on list (IssueList_fetch_with fetchParams) ;;
     Eff.ret (snd fetched))%eff
    (fun error =>
       (* Sometimes the Subissues call fails *)
       (Eff.emit (Warning ("Could not fetch Subissues for "
                             ++ JSON_stringify K params ++ ". Error: "
                             ++ errorText error)) ;;;
        Eff.ret IssueList_null)%eff).

(** [IssueWrapper.forIssue(params, fetchParams)] *)
Definition IssueWrapper_forIssue_with (params : GetIssueParameters)
           (fetchParams : IssueFetchParameters) : Eff unit IssueWrapper :=
  (raw <- Eff.request "getIssue" (paramsArgs params) (getIssue K params) ;;
   fetched <- Eff.on (IssueWrapper_new raw) (self fetchParams) ;;
   Eff.ret (snd fetched))%eff.

(** [IssueWrapper.forUrl(url, fetchParams)] *)
Definition IssueWrapper_forUrl_with (url : string)
           (fetchParams : IssueFetchParameters) : Eff unit IssueWrapper :=
  (found <- Eff.lift (GithubUrl.matchIssueUrl (newURL K) url) ;;
   match found with
   | None =>
       Eff.throw ("Invalid Issue URL: " ++ dquote ++ url ++ dquote)
   | Some m =>
       match truthyNumber (GithubUrl.issueNumber m) with
       | None =>
           Eff.throw ("Issue URL is missing Issue number: "
                        ++ dquote ++ url ++ dquote)
       | Some issueNumber =>
           IssueWrapper_forIssue_with
             {| params_organization := GithubUrl.owner m;
                params_repository := GithubUrl.repo m;
                params_issueNumber := issueNumber |}
             fetchParams
       end
   end)%eff.

(** The loop of [IssueList.forUrls]: the entities resolved so far. *)
Fixpoint forUrls_collect (urls : list string) (params : IssueFetchParameters)
         (collected : list IssueWrapper) : Eff unit (list IssueWrapper) :=
  match urls with
  | [] => Eff.ret collected
  | url :: rest =>
      (collected' <-
         Eff.try_catch
           (w <- IssueWrapper_forUrl_with url params ;;
            Eff.ret (collected ++ [w])%list)
           (fun error =>
              Eff.emit (Warning ("Could not fetch Issue from URL " ++ url
                                   ++ ": " ++ errorText error)) ;;;
              Eff.ret collected) ;;
       forUrls_collect rest params collected')%eff
  end.

Definition urlsSourceOfTruth : SourceOfTruth :=
  {| sot_title := "Issues from URLs"; sot_url := "Multiple URLs";
     sot_groupKey := None |}.

(** [IssueList.forUrls(urls, params)] *)
Definition IssueList_forUrls_with (urls : list string)
           (params : IssueFetchParameters) : Eff unit IssueList :=
  (collected <- forUrls_collect urls params [] ;;
   let list := set_issues collected (IssueList_new [] urlsSourceOfTruth) in
   fetched <- Eff.on list (IssueList_fetch_with params) ;;
   Eff.ret (snd fetched))%eff.

(** [IssueWrapper.fetchSubissues(params)] (private) *)
Definition IssueWrapper_fetchSubissues_with (params : IssueFetchParameters)
  : Eff IssueWrapper unit :=
  (this <- Eff.this ;;
   inherited <- Eff.lift (validateFetchParameters
                            (inheritWithSubissues params)) ;;
   subissues <- Eff.static
                  (IssueList_forSubissues_with (issueParams this) inherited) ;;
   this <- Eff.this ;;
   stamped <-
     match truthyNumber (IssueWrapper_projectNumber this) with
     | Some number =>
         Eff.on subissues (IssueList_fetchProjectFields (Some number))
     | None => Eff.ret (tt, subissues)
     end ;;
   Eff.assign (set_subissues (Some (snd stamped))))%eff.

(** [IssueWrapper.followLinks(params)] (private) *)
Definition IssueWrapper_followLinks_with (params : IssueFetchParameters)
  : Eff IssueWrapper unit :=
  (this <- Eff.this ;;
   match wrapper_relatedIssues this with
   | Some _ => Eff.ret tt (* Already fetched *)
   | None =>
       comments <- IssueWrapper_get_comments ;;
       this <- Eff.this ;;
       match option_map (comment_update K) (latestUpdate K this comments) with
       | None => Eff.ret tt
       | Some update =>
           if String.eqb update "" then Eff.ret tt
           else
             issueUrls <- Eff.lift (GithubUrl.scrapeUrls (newURL K) update
                                                         ["issue"]) ;;
             if (List.length issueUrls =? 0)%nat
             then Eff.assign (set_relatedIssues (Some IssueList_null))
             else
               related <- Eff.static
                            (IssueList_forUrls_with issueUrls
                               (relatedFetchParameters params)) ;;
               Eff.assign (set_relatedIssues (Some related))
       end
   end)%eff.

(** The body of [IssueWrapper.fetch(params)]. *)
Definition IssueWrapper_fetch_body (params : IssueFetchParameters)
  : Eff IssueWrapper unit :=
  (this <- Eff.this ;;
   when (negb (GithubUrl.is_some (issue_comments (issue this)))
         && (0 <? fetch_comments params)%Z)
        (within <- Eff.lift (IssueWrapper_wasUpdatedWithinTimeframe
                               this (timeframe K)) ;;
         when within (IssueWrapper_fetchComments (fetch_comments params))) ;;;
   this <- Eff.this ;;
   match (if fetch_projectFields params
          then truthyNumber (IssueWrapper_projectNumber this) else None) with
   | Some number => IssueWrapper_fetchProjectFields number
   | None => Eff.ret tt
   end ;;;
   when (fetch_subissues params) (IssueWrapper_fetchSubissues_with params) ;;;
   when (fetch_followLinks params)
        (* Follow links within the updates to find linked issues *)
        (IssueWrapper_followLinks_with params))%eff.

End Knot.

(** [IssueWrapper.fetch(params)], for as long as the fuel lasts: every
    call of the method, nested or not, takes one unit. *)
Fixpoint IssueWrapper_fetch (fuel : nat) (params : IssueFetchParameters)
  : Eff IssueWrapper unit :=
  match fuel with
  | O => Eff.starve
  | S fuel' => IssueWrapper_fetch_body (IssueWrapper_fetch fuel') params
  end.

Definition IssueList_fetch (fuel : nat) :=
  IssueList_fetch_with (IssueWrapper_fetch fuel).
Definition IssueList_forSubissues (fuel : nat) :=
  IssueList_forSubissues_with (IssueWrapper_fetch fuel).
Definition IssueList_forUrls (fuel : nat) :=
  IssueList_forUrls_with (IssueWrapper_fetch fuel).
Definition IssueWrapper_forUrl (fuel : nat) :=
  IssueWrapper_forUrl_with (IssueWrapper_fetch fuel).
Definition IssueWrapper_forIssue (fuel : nat) :=
  IssueWrapper_forIssue_with (IssueWrapper_fetch fuel).
Definition IssueWrapper_fetchSubissues (fuel : nat) :=
  IssueWrapper_fetchSubissues_with (IssueWrapper_fetch fuel).
Definition IssueWrapper_followLinks (fuel : nat) :=
  IssueWrapper_followLinks_with (IssueWrapper_fetch fuel).

(* ------------------------------------------------------------------- *)
(** *** Notions used in the statements *)

(** Induction on an entity with its nested collections. *)
Section NestedInduction.

Variable P : IssueWrapper -> Prop.

Definition all_nested (nested : option IssueList) : Prop :=
  match nested with
  | Some l => Forall P (issues l)
  | None => True
  end.

Hypothesis step :
  forall i c s r,
    all_nested s -> all_nested r -> P (Build_IssueWrapper i c s r).

Fixpoint IssueWrapper_nested_ind (w : IssueWrapper) : P w :=
  match w with
  | Build_IssueWrapper i c s r =>
      let each :=
        fix each (ws : list IssueWrapper) : Forall P ws :=
          match ws with
          | [] => Forall_nil P
          | x :: xs => Forall_cons x (IssueWrapper_nested_ind x) (each xs)
          end in
      step i c s r
           (match s return all_nested s with
            | Some l => each (issues l)
            | None => I
            end)
           (match r return all_nested r with
            | Some l => each (issues l)
            | None => I
            end)
  end.

End NestedInduction.

(** What holds of an entry of the map of groups of [groupBy]: it was
    created under a status, carries it as group key, and holds entities of
    that status only. *)
Definition group_ok (fieldName : string) (entry : string * IssueList) : Prop :=
  fst entry <> ""
  /\ sot_groupKey (sourceOfTruth (snd entry)) = Some (fst entry)
  /\ Forall (fun w => IssueWrapper_status w fieldName = fst entry)
            (issues (snd entry)).

(** The entities of all the groups of a map. *)
Definition members (groups : JsMap IssueList) : list IssueWrapper :=
  flat_map (fun entry => issues (snd entry)) groups.

(** Render options whose two defaults are settled. *)
Definition resolved (options : IssueRenderOptions) : Prop :=
  subissues options <> None /\ relatedIssues options <> None.

(** The sources the rendered updates contribute. *)
Definition updateSources (options : IssueRenderOptions) (level : nat)
           (latest : list Comment) : list string :=
  flat_map (fun update =>
              match renderComment K update options (level + 1) with
              | Some rendered => sources rendered
              | None => []
              end) latest.

(** The sources the fragments of nested entities contribute. *)
Definition nestedSources (options : IssueRenderOptions) (level : nat)
           (nested : list IssueWrapper) : list string :=
  flat_map (fun w =>
              match fst (renderIssue w options (level + 1)) with
              | Some rendered => sources rendered
              | None => []
              end) nested.

(** An entity whose rendering hands settled options back as they were. *)
Definition keeps_options (w : IssueWrapper) : Prop :=
  forall options level,
    resolved options -> snd (renderIssue w options level) = options.

(** The sources of a fragment that is not the placeholder, after the URL
    of the entity: the three loops, in the order of the code. *)
Definition accumulatedSources (w : IssueWrapper) (options : IssueRenderOptions)
           (level : nat) : list string :=
  ((if Z.eqb (updates options) 0 then []
    else updateSources options level
           (latestUpdates K w (IssueWrapper_comments w) (updates options) None))
     ++ (if requested (subissues options) then
           match wrapper_subissues w with
           | Some subs => nestedSources options level (issues subs)
           | None => []
           end
         else [])
     ++ (if requested (relatedIssues options) then
           match wrapper_relatedIssues w with
           | Some related => nestedSources options level (issues related)
           | None => []
           end
         else []))%list.

(** Sub-issues are requested by the option, or by default when the entity
    has a sub-issue collection. *)
Definition subissuesRequested (w : IssueWrapper) (options : IssueRenderOptions)
  : Prop :=
  subissues options = Some true
  \/ (subissues options = None /\ wrapper_subissues w <> None).

(** The fragment of an entity that has nothing to render and whose header
    was requested. *)
Definition placeholderFragment (w : IssueWrapper) (level : nat) : RenderedIssue :=
  {| markdown := repeat_string "#" level ++ " " ++ IssueWrapper_header w
                   ++ nl ++ nl ++ placeholder;
     sources := [IssueWrapper_url w] |}.

(** What identifies the issue an entity stands for; no fetch changes it. *)
Definition identity (w : IssueWrapper) : string * Z * Repository :=
  (issue_url (issue w), issue_number (issue w), issue_repository (issue w)).

Definition sameEntity (w w' : IssueWrapper) : Prop :=
  identity w = identity w'.

(** The same entities in the same order. *)
Definition sameEntities (ws ws' : list IssueWrapper) : Prop :=
  Forall2 sameEntity ws ws'.

(** The same entities in two collections. *)
Definition sameIssues (l l' : IssueList) : Prop :=
  sameEntities (issues l) (issues l').

(** The warning of [forUrls] for a URL that did not resolve. *)
Definition urlWarning (url error : string) : Event :=
  Warning ("Could not fetch Issue from URL " ++ url ++ ": " ++ errorText error).

(** The resolution of a list of URLs one after the other: the entities of
    those that resolve, in order, and a warning in the log for each that
    throws. *)
Inductive Collected (resolve : string -> Eff unit IssueWrapper)
  : list string -> list Event -> list IssueWrapper -> list Event -> Prop :=
| Collected_none (log : list Event) :
    Collected resolve [] log [] log
| Collected_resolved (url : string) (rest : list string) (log log1 log2 : list Event)
                     (w : IssueWrapper) (ws : list IssueWrapper) :
    resolve url tt log = (Returned w, tt, log1) ->
    Collected resolve rest log1 ws log2 ->
    Collected resolve (url :: rest) log (w :: ws) log2
| Collected_warned (url : string) (rest : list string) (log log1 log2 : list Event)
                   (error : string) (ws : list IssueWrapper) :
    resolve url tt log = (Thrown error, tt, log1) ->
    Collected resolve rest (log1 ++ [urlWarning url error])%list ws log2 ->
    Collected resolve (url :: rest) log ws log2.

(** The collection [forUrls] builds from the entities it resolved. *)
Definition fromUrls (ws : list IssueWrapper) : IssueList :=
  set_issues ws (IssueList_new [] urlsSourceOfTruth).

End Model.

Unset Implicit Arguments.

Arguments IssueList_null {Comment ProjectField IssueFieldValue}.
Arguments sameEntity {Comment ProjectField IssueFieldValue} _ _.
Arguments sameEntities {Comment ProjectField IssueFieldValue} _ _.
Arguments sameIssues {Comment ProjectField IssueFieldValue} _ _.
Arguments sourceOfTruth {W} _.
Arguments issues {W} _.
Arguments organization {W} _.
Arguments projectNumber {W} _.
Arguments commentsFetched {W} _.
Arguments projectFieldsFetched {W} _.
Arguments urlsSourceOfTruth : clear implicits.

(** [IssueWrapper._render(options)] and [render(options)]: the options are
    validated afresh at each call, the entity is rendered at level 3. *)
Definition IssueWrapper__render {Comment ProjectField IssueFieldValue}
           (K : Collaborators Comment ProjectField IssueFieldValue)
           (this : IssueWrapper Comment ProjectField IssueFieldValue)
           (options : DirtyRenderOptions) : outcome (option RenderedIssue) :=
  match RenderConfig.validateRenderOptions
          (isTruthy K) (Number K) (ToString K) options with
  | Returned validated => Returned (fst (renderIssue K this validated 3))
  | Thrown e => Thrown e
  | Starved => Starved
  end.

(* ===================================================================== *)
(** ** A small tracker to run the model on *)
(* ===================================================================== *)

Module Example.

(** Comments are their text; every comment is an update, the last of the
    list the latest. Fields are their text. *)
Definition Comment : Type := string.
Definition Field : Type := string.

Definition Issue' : Type := Issue Comment Field Field.
Definition Wrapper : Type := IssueWrapper Comment Field Field.
Definition List' : Type := IssueList Comment Field Field.
Definition Params : Type := IssueFetchParameters Comment Field Field.

(** A URL parser for the two shapes met here: [https://host/path] and
    anything else, which is rejected. *)
Fixpoint untilSlash (s : string) : string * string :=
  match s with
  | EmptyString => (EmptyString, EmptyString)
  | String c rest =>
      if Ascii.eqb c "/" then (EmptyString, s)
      else let (host, path) := untilSlash rest in (String c host, path)
  end.

Definition parseURL (text : string) : GithubUrl.URL + string :=
  if String.prefix "https://" text then
    let (host, path) := untilSlash (GithubUrl.dropPrefix 8 text) in
    if String.eqb host "" then inr "Invalid URL"
    else inl {| GithubUrl.hostname := host;
                GithubUrl.pathname := if String.eqb path "" then "/" else path |}
  else inr "Invalid URL".

Definition compareStrings (a b : string) : Z :=
  match String.compare a b with
  | Lt => (-1)%Z
  | Eq => 0%Z
  | Gt => 1%Z
  end.

Definition stringifyParams (p : GetIssueParameters) : string :=
  "{organization:" ++ params_organization p ++ ",repository:"
    ++ params_repository p ++ ",issueNumber:"
    ++ string_of_Z (params_issueNumber p) ++ "}".

Definition stringOf (v : JsValue) : string :=
  match v with
  | JsString s => s
  | JsNumber (Some z) => string_of_Z z
  | JsNumber None => "NaN"
  | JsBool true => "true"
  | JsBool false => "false"
  | JsUndefined => "undefined"
  | JsNull => "null"
  | JsArray _ => ""
  | JsObject => "[object Object]"
  end.

Definition raw (org repo : string) (number : Z) (title : string) : Issue' :=
  {| issue_title := title;
     issue_body := "";
     issue_url := "https://github.com/" ++ org ++ "/" ++ repo ++ "/issues/"
                    ++ string_of_Z number;
     issue_number := number;
     issue_isOpen := true;
     issue_createdAt := 0;
     issue_updatedAt := 0;
     issue_type := "Issue";
     issue_repository :=
       {| repository_name := repo; repository_owner := org;
          repository_nameWithOwner := org ++ "/" ++ repo |};
     issue_assignees := [];
     issue_labels := [];
     issue_comments := None;
     issue_parent := None;
     issue_project := None;
     issue_issueFields := None;
     issue_isSubissue := None |}.

(** The tracker: a table of issues with their comments, and the answer
    to every sub-issue listing. *)
Record Tracker : Type := {
  table : list (Z * Issue' * list Comment);
  subissuesAnswer : (list Issue' * string * string) + string
}.

Fixpoint lookup (t : list (Z * Issue' * list Comment)) (number : Z)
  : option (Issue' * list Comment) :=
  match t with
  | [] => None
  | (n, i, c) :: rest => if Z.eqb n number then Some (i, c) else lookup rest number
  end.

Definition collaborators (t : Tracker) : Collaborators Comment Field Field :=
  {| getIssue := fun p =>
       match lookup (table t) (params_issueNumber p) with
       | Some (i, _) => inl i
       | None => inr "Not Found"
       end;
     listCommentsForIssue := fun p _ =>
       match lookup (table t) (params_issueNumber p) with
       | Some (_, c) => inl c
       | None => inr "Not Found"
       end;
     listProjectFieldsForIssue := fun _ _ => inl [];
     listSubissuesForIssue := fun _ => subissuesAnswer t;
     listCommentsForListOfIssues := fun _ _ => inl [];
     listProjectFieldsForProject := fun _ _ => inl [];
     hasUpdate := fun _ comments => negb (List.length comments =? 0)%nat;
     latestUpdate := fun _ comments => last (map Some comments) None;
     latestUpdates := fun _ comments n _ => firstn (Z.to_nat n) (rev comments);
     comment_update := fun c => c;
     emojiStatus := fun _ _ => None;
     renderComment := fun c _ _ => Some {| markdown := c; sources := [c] |};
     mapProjectFieldsToString := fun m => m;
     mapIssueFieldsToString := fun m => m;
     field_kind := fun _ => "Text";
     field_options := fun _ => None;
     slugifyFieldName := StringUtil.toLowerCase;
     EMOJI_OVERRIDE := None;
     isTrueString := String.eqb "true";
     isTruthy := truthy;
     timeframe := "all-time";
     ONE_DAY := 86400000;
     emojiCompare := fun _ _ => None;
     now := 0;
     newURL := parseURL;
     localeCompare := compareStrings;
     toISOString := string_of_Z;
     JSON_stringify := stringifyParams;
     Number := fun _ => None;
     ToString := stringOf |}.

Definition params (comments : Z) (subissues followLinks : bool) : Params :=
  {| fetch_comments := comments;
     fetch_projectFields := false;
     fetch_issueFields := false;
     fetch_subissues := subissues;
     fetch_followLinks := followLinks;
     fetch_filter := fun _ => true |}.

(** Two issues whose latest updates link to each other. *)
Definition issueA : Issue' := raw "o" "r" 1 "A".
Definition issueB : Issue' := raw "o" "r" 2 "B".

Definition linked : Tracker :=
  {| table := [ (1%Z, issueA, ["Blocked by github.com/o/r/issues/2"]);
                (2%Z, issueB, ["Blocks github.com/o/r/issues/1"]) ];
     subissuesAnswer := inl ([], "Subissues", "") |}.

(** Two issues without comments; sub-issue listings fail. *)
Definition plain : Tracker :=
  {| table := [ (1%Z, issueA, []); (2%Z, issueB, []) ];
     subissuesAnswer := inr "Bad Gateway" |}.

(** The options [validateRenderOptions] returns for [{}]. *)
Definition defaultOptions : IssueRenderOptions :=
  {| header := true; body := false; updates := 1; author := true;
     createdAt := false; updatedAt := false; fields := [];
     subissues := None; relatedIssues := None; skipIfEmpty := true |}.

Definition withHeaderOnly : IssueRenderOptions :=
  {| header := true; body := false; updates := 1; author := true;
     createdAt := false; updatedAt := false; fields := [];
     subissues := None; relatedIssues := None; skipIfEmpty := false |}.

(** An entity that carries the data of project 7. *)
Definition project7 : Project Field :=
  {| project_organization := "o"; project_number := 7; project_fields := [] |}.

Definition inProject : Wrapper :=
  IssueWrapper_set_project project7 (IssueWrapper_new issueA).

(** An issue with a value for the issue field [status]. *)
Definition withStatus (number : Z) (status : string) : Issue' :=
  let i := raw "o" "r" number status in
  {| issue_title := issue_title i; issue_body := issue_body i;
     issue_url := issue_url i; issue_number := issue_number i;
     issue_isOpen := issue_isOpen i; issue_createdAt := issue_createdAt i;
     issue_updatedAt := issue_updatedAt i; issue_type := issue_type i;
     issue_repository := issue_repository i;
     issue_assignees := issue_assignees i; issue_labels := issue_labels i;
     issue_comments := issue_comments i; issue_parent := issue_parent i;
     issue_project := issue_project i;
     issue_issueFields := Some [("status", status)];
     issue_isSubissue := issue_isSubissue i |}.

Definition repoSourceOfTruth : SourceOfTruth :=
  {| sot_title := "o/r"; sot_url := "https://github.com/o/r";
     sot_groupKey := None |}.

Definition board : List' :=
  IssueList_new [withStatus 1 "Done"; withStatus 2 "Doing"; withStatus 3 "Todo"]
                repoSourceOfTruth.

(** A collection after a fetch with one comment per issue. *)
Definition fetched : List' :=
  snd (fst (IssueList_fetch (collaborators plain) 1 (params 1 false false)
                            (IssueList_new [issueA; issueB] repoSourceOfTruth)
                            [])).

(** An entity with an update and one sub-issue that has an update. *)
Definition child : Wrapper :=
  IssueWrapper_set_comments ["child update"] (IssueWrapper_new issueB).

Definition parent : Wrapper :=
  set_subissues
    (Some (set_issues [child] (IssueList_new [] repoSourceOfTruth)))
    (IssueWrapper_set_comments ["parent update"] (IssueWrapper_new issueA)).

Definition mixedUrls : list string :=
  [ "https://example.com/o/r/issues/9";
    "github.com/o/r/issues/1";
    "https://github.com/o/r/issues/2" ].

End Example.

(* ===================================================================== *)
(** ** More of [@util/string]: [toSnakeCase] *)
(* ===================================================================== *)

Module SnakeCase.

Import StringUtil.










End SnakeCase.


(** The URL pattern of [scrapeUrls] matched [m] somewhere in a text. *)
Definition is_scraped (m : string) : Prop :=
  exists tail,
    m = "github.com/" ++ tail /\ tail <> ""
    /\ GithubUrl.all_chars GithubUrl.is_url_char tail = true.

Section ScrapeNotions.

Import GithubUrl.

Variable newURL : string -> URL + string.

(** A match that [scrapeUrls] keeps: an issue URL when issues are asked
    for, or else a discussion URL when discussions are asked for. *)
Definition kept (kinds : list string) (u : string) : Prop :=
  (Set_has kinds "issue" = true
   /\ exists m, matchIssueUrl newURL u = Returned (Some m))
  \/ (Set_has kinds "discussion" = true
      /\ matchDiscussionUrl newURL u = Returned true).

(** A match on which one of the matchers throws. *)
Definition refused (kinds : list string) (u e : string) : Prop :=
  (Set_has kinds "issue" = true /\ matchIssueUrl newURL u = Thrown e)
  \/ (Set_has kinds "discussion" = true
      /\ matchDiscussionUrl newURL u = Thrown e).

End ScrapeNotions.

(* ===================================================================== *)
(** ** More of [IssueList] and [IssueWrapper] *)
(* ===================================================================== *)

(** An entry of the [Memory] bank: [{ content, sources }]. *)
Record MemoryItem : Type := {
  item_content : string;
  item_sources : list string
}.

(** [new Map(entries)] *)
Definition Map_new {V} (entries : list (string * V)) : JsMap V :=
  fold_left (fun m entry => Map_set m (fst entry) (snd entry)) entries [].

Section Collections.

Context {Comment ProjectField IssueFieldValue : Type}.
Variable K : Collaborators Comment ProjectField IssueFieldValue.

Local Abbreviation Wrapper :=
  (IssueWrapper Comment ProjectField IssueFieldValue).
Local Abbreviation Collection :=
  (IssueList Comment ProjectField IssueFieldValue).

(* ------------------------------------------------------------------- *)
(** *** [IssueWrapper]: the other properties *)

Definition IssueWrapper_isOpen (this : Wrapper) : bool :=
  issue_isOpen (issue this).

Definition IssueWrapper_org (this : Wrapper) : string :=
  repository_owner (issue_repository (issue this)).

Definition IssueWrapper_assignees (this : Wrapper) : list string :=
  map trim (issue_assignees (issue this)).

Definition IssueWrapper_labels (this : Wrapper) : list string :=
  map trim (issue_labels (issue this)).

(** [wasPostedSince(daysAgo)] *)
Definition IssueWrapper_wasPostedSince (this : Wrapper) (daysAgo : Z) : bool :=
  (now K - IssueWrapper_createdAt this <? daysAgo * ONE_DAY K)%Z.

Definition IssueWrapper_wasPostedToday (this : Wrapper) : bool :=
  IssueWrapper_wasPostedSince this 1.
Definition IssueWrapper_wasPostedThisWeek (this : Wrapper) : bool :=
  IssueWrapper_wasPostedSince this 7.
Definition IssueWrapper_wasPostedThisMonth (this : Wrapper) : bool :=
  IssueWrapper_wasPostedSince this 31.
Definition IssueWrapper_wasPostedThisYear (this : Wrapper) : bool :=
  IssueWrapper_wasPostedSince this 365.

Definition IssueWrapper_wasUpdatedToday (this : Wrapper) : bool :=
  IssueWrapper_wasUpdatedSince K this 1.
Definition IssueWrapper_wasUpdatedThisWeek (this : Wrapper) : bool :=
  IssueWrapper_wasUpdatedSince K this 7.
Definition IssueWrapper_wasUpdatedThisMonth (this : Wrapper) : bool :=
  IssueWrapper_wasUpdatedSince K this 31.
Definition IssueWrapper_wasUpdatedThisYear (this : Wrapper) : bool :=
  IssueWrapper_wasUpdatedSince K this 365.

(* ------------------------------------------------------------------- *)
(** *** [IssueList]: [status] and [chart] *)

(** [IssueList.status(fieldName)]: the first of the statuses of the
    entities once sorted, [undefined] on an empty collection. The status
    of an entity is a string, so [?? ""] leaves it as it is. *)
Definition IssueList_status (this : Collection) (fieldName : string)
  : option string :=
  hd_error
    (Array_sort (compareKeys K)
                (map (fun w => IssueWrapper_status K w fieldName) (issues this))).

Definition noIssuesForChart : string :=
  "ERROR: No issues found. Cannot create chart.".

(** [groups.map((group) => [group.groupKey, group.length])] *)
Fixpoint chartEntries (groups : list Collection)
  : outcome (list (string * nat)) :=
  match groups with
  | [] => Returned []
  | group :: rest =>
      match IssueList_groupKey group with
      | Returned key =>
          match chartEntries rest with
          | Returned entries =>
              Returned ((key, IssueList_length group) :: entries)
          | other => other
          end
      | Thrown e => Thrown e
      | Starved => Starved
      end
  end.

(** [IssueList.chart(fieldName, title?)], with [barChart] of
    [@transform/charts]. *)
Definition IssueList_chart (barChart : JsMap nat -> string -> string -> string)
           (this : Collection) (fieldName : string) (title : option string)
  : outcome string :=
  let groups := IssueList_groupBy K this fieldName in
  if (List.length groups =? 0)%nat then Returned noIssuesForChart
  else
    let title :=
      or_else (string_or_empty title) ("Number of Issues by " ++ fieldName) in
    match chartEntries groups with
    | Returned entries => Returned (barChart (Map_new entries) fieldName title)
    | Thrown e => Thrown e
    | Starved => Starved
    end.

(* ------------------------------------------------------------------- *)
(** *** [IssueWrapper]: rendering into the memory

    The [Memory] singleton is the state of these methods; the entity is
    read only. *)

Section Remembering.

Variable Memory : Type.

(** [this.memory.remember(item)] *)
Variable Memory_remember : MemoryItem -> Memory -> Memory.

(** [IssueWrapper.remember(options)] *)
Definition IssueWrapper_remember (this : Wrapper) (options : DirtyRenderOptions)
  : Eff Memory unit :=
  (rendered <- Eff.lift (IssueWrapper__render K this options) ;;
   match rendered with
   | Some fragment =>
       Eff.assign (Memory_remember {| item_content := markdown fragment;
                                      item_sources := sources fragment |})
   | None => Eff.ret tt
   end)%eff.

(** [IssueWrapper.render(options)] *)
Definition IssueWrapper_render (this : Wrapper) (options : DirtyRenderOptions)
  : Eff Memory string :=
  (IssueWrapper_remember this options ;;;
   rendered <- Eff.lift (IssueWrapper__render K this options) ;;
   Eff.ret (match rendered with
            | Some fragment => markdown fragment
            | None => ""
            end))%eff.

(** [{ body: true, updates: 0, subissues: false }] *)
Definition bodyOptions : DirtyRenderOptions :=
  [ ("body", JsBool true); ("updates", JsNumber (Some 0%Z));
    ("subissues", JsBool false) ].

(** [get body()] *)
Definition IssueWrapper_body (this : Wrapper) : Eff Memory string :=
  (IssueWrapper_remember this bodyOptions ;;;
   Eff.ret (IssueWrapper__body this))%eff.

End Remembering.

End Collections.

(* ------------------------------------------------------------------- *)
(** *** More notions used in the statements *)

Section MoreNotions.

Context {Comment ProjectField IssueFieldValue : Type}.
Variable K : Collaborators Comment ProjectField IssueFieldValue.

Local Abbreviation Wrapper :=
  (IssueWrapper Comment ProjectField IssueFieldValue).
Local Abbreviation Collection :=
  (IssueList Comment ProjectField IssueFieldValue).

(** A group as [groupBy] makes it for a collection: it holds an entity,
    has the title and the URL of the collection, and is otherwise as the
    constructor leaves a collection. *)
Definition group_of (this group : Collection) : Prop :=
  issues group <> []
  /\ IssueList_title group = IssueList_title this
  /\ IssueList_url group = IssueList_url this
  /\ organization group = None
  /\ projectNumber group = None
  /\ commentsFetched group = false
  /\ projectFieldsFetched group = false.

(** What [groupBy] keeps of a group while it fills it. *)
Definition plain_group_of (this group : Collection) : Prop :=
  IssueList_title group = IssueList_title this
  /\ IssueList_url group = IssueList_url this
  /\ organization group = None
  /\ projectNumber group = None
  /\ commentsFetched group = false
  /\ projectFieldsFetched group = false.

Definition filled (group : Collection) : Prop := issues group <> [].

(** The entries of the map of groups in the order [groupBy] returns the
    groups. *)
Definition sortedGroups (this : Collection) (fieldName : string)
  : JsMap Collection :=
  Array_sort (fun a b => compareKeys K (fst a) (fst b))
             (groupBy_groups K this fieldName).

(** The entities of a list that have a given status. *)
Definition withStatus (fieldName status : string) (ws : list Wrapper)
  : list Wrapper :=
  filter (fun w => String.eqb (IssueWrapper_status K w fieldName) status) ws.

(** An entity that carries the data of a project of an organization. *)
Definition stamped (org : string) (number : Z) (w : Wrapper) : Prop :=
  exists fields,
    issue_project (issue w)
    = Some {| project_organization := org; project_number := number;
              project_fields := fields |}.

(** What a fetch keeps of a collection: its source of truth, its
    organization and its project number; it adds no entity and takes no
    fetch flag back. *)
Definition keepsMetadata (l l' : Collection) : Prop :=
  sourceOfTruth l' = sourceOfTruth l
  /\ organization l' = organization l
  /\ projectNumber l' = projectNumber l
  /\ (List.length (issues l') <= List.length (issues l))%nat
  /\ (commentsFetched l = true -> commentsFetched l' = true)
  /\ (projectFieldsFetched l = true -> projectFieldsFetched l' = true).

(** The names [field] answers from the issue itself, as the [case]
    labels of its [switch] give them. *)
Definition builtinFieldNames : list string :=
  [ "title"; "url"; "number"; "body"; "type"; "repo"; "repository";
    "org"; "organization"; "owner";
    "full_name"; "name_with_owner"; "repo_name_with_owner";
    "parent"; "parent_issue"; "parent_title"; "parent_url" ].

Definition is_builtin (fieldName : string) : bool :=
  existsb (fun alias =>
             String.eqb (StringUtil.fuzzy fieldName) (StringUtil.fuzzy alias))
          builtinFieldNames.

(** Two entities with the same data of the issue itself, whatever their
    comments, project fields and issue fields. *)
Definition sameBuiltins (w w' : Wrapper) : Prop :=
  issue_title (issue w) = issue_title (issue w')
  /\ issue_body (issue w) = issue_body (issue w')
  /\ issue_url (issue w) = issue_url (issue w')
  /\ issue_number (issue w) = issue_number (issue w')
  /\ issue_type (issue w) = issue_type (issue w')
  /\ issue_isSubissue (issue w) = issue_isSubissue (issue w')
  /\ issue_repository (issue w) = issue_repository (issue w')
  /\ issue_parent (issue w) = issue_parent (issue w').

(** The timeframes [wasUpdatedWithinTimeframe] knows. *)
Definition timeframes : list string :=
  [ "all-time"; "today"; "last-week"; "last-month"; "last-year" ].

End MoreNotions.

(** The project number [IssueList.fetchProjectFields(forNumber)] works
    with: the one of the collection when it has one, else the one given. *)
Definition effectiveProjectNumber (own forNumber : option Z) : option Z :=
  match truthyNumber own with
  | Some number => Some number
  | None => truthyNumber forNumber
  end.

(** The options [validateRenderOptions] returns for the options of
    [get body()]. *)
Definition bodyRenderOptions : IssueRenderOptions :=
  {| header := true; body := true; updates := 0; author := true;
     createdAt := false; updatedAt := false; fields := [];
     subissues := Some false; relatedIssues := None; skipIfEmpty := true |}.

(** The events a method adds to the log all satisfy [P], whatever its
    outcome: on one receiver, and on all. *)
Definition adds_at {S A} (P : Event -> Prop) (m : Eff S A) (s : S) : Prop :=
  forall log, exists added,
    snd (m s log) = (log ++ added)%list /\ Forall P added.

Definition adds {S A} (P : Event -> Prop) (m : Eff S A) : Prop :=
  forall s, adds_at P m s.

(** An event that is not a request for the project fields of one issue. *)
Definition not_issue_project_fields (e : Event) : Prop :=
  match e with
  | Request endpoint _ => endpoint <> "listProjectFieldsForIssue"
  | Warning _ => True
  end.

Section SettledNotions.

Context {Comment ProjectField IssueFieldValue : Type}.
Variable K : Collaborators Comment ProjectField IssueFieldValue.

(** An entity on which the comment step of [fetch] has nothing to do:
    the comments are there, or none are asked for, or the issue is
    outside the timeframe. *)
Definition comments_settled
           (params : IssueFetchParameters Comment ProjectField IssueFieldValue)
           (w : IssueWrapper Comment ProjectField IssueFieldValue) : Prop :=
  GithubUrl.is_some (issue_comments (issue w)) = true
  \/ (0 <? fetch_comments params)%Z = false
  \/ IssueWrapper_wasUpdatedWithinTimeframe K w (timeframe K) = Returned false.

(** An entity on which [followLinks] has nothing to do: links are not
    followed, or the related issues are there, or the comment list is
    built and has no latest update with a text. *)
Definition links_settled
           (params : IssueFetchParameters Comment ProjectField IssueFieldValue)
           (w : IssueWrapper Comment ProjectField IssueFieldValue) : Prop :=
  fetch_followLinks params = false
  \/ wrapper_relatedIssues w <> None
  \/ exists comments,
       commentList w = Some comments
       /\ match option_map (comment_update K) (latestUpdate K w comments) with
          | Some update => update = ""
          | None => True
          end.

End SettledNotions.

(** [{ ...params }]: the object with the six properties of validated
    fetch parameters. *)
Definition spreadParameters {Comment ProjectField IssueFieldValue : Type}
           (params : IssueFetchParameters Comment ProjectField IssueFieldValue)
  : DirtyIssueFetchParameters Comment ProjectField IssueFieldValue :=
  {| dirty_props :=
       [ ("comments", JsNumber (Some (fetch_comments params)));
         ("projectFields", JsBool (fetch_projectFields params));
         ("issueFields", JsBool (fetch_issueFields params));
         ("subissues", JsBool (fetch_subissues params));
         ("followLinks", JsBool (fetch_followLinks params)) ];
     dirty_filter := Some (fetch_filter params) |}.

(** The render options that a falsy value leaves at their default. *)
Definition falsyKeepsDefault : list string :=
  [ "author"; "createdAt"; "updatedAt" ].

(** The text [s] starts with [prefix]. *)
Definition starts_with (prefix s : string) : Prop :=
  exists rest, s = prefix ++ rest.

(* ===================================================================== *)
(** ** Collections from a repository, a project, a project view *)
(* ===================================================================== *)

(** [GetProjectViewParameters]: the parameters of a project listing, of
    type [ProjectParameters], with a view number or a custom query. *)
Record GetProjectViewParameters (ProjectParameters : Type) : Type := {
  view_project : ProjectParameters;
  projectViewNumber : option Z;
  customQuery : option string
}.

Arguments view_project {ProjectParameters}.
Arguments projectViewNumber {ProjectParameters}.
Arguments customQuery {ProjectParameters}.

Section Listings.

Context {Comment ProjectField IssueFieldValue : Type}.

Local Abbreviation Wrapper :=
  (IssueWrapper Comment ProjectField IssueFieldValue).
Local Abbreviation Collection :=
  (IssueList Comment ProjectField IssueFieldValue).
Local Abbreviation Parameters :=
  (IssueFetchParameters Comment ProjectField IssueFieldValue).
Local Abbreviation RawIssue :=
  (Issue Comment ProjectField IssueFieldValue).

(** What these constructors reach outside the files modelled here: the
    listings of [./graphql] with what the code reads of their parameters,
    the class [ProjectView] of [./project-view] with the members the code
    reads, and [encodeURIComponent]. *)
Record Listings : Type := {
  RepoParameters : Type;
  repo_organization : RepoParameters -> string;
  listIssuesForRepo :
    RepoParameters -> (list RawIssue * string * string) + string;
  ProjectParameters : Type;
  listing_organization : ProjectParameters -> string;
  listing_projectNumber : ProjectParameters -> Z;
  listIssuesForProject :
    ProjectParameters -> (list RawIssue * string * string) + string;
  ProjectView : Type;
  usesCustomFields : ProjectView -> bool;
  view_projectNumber : ProjectView -> option Z;
  view_number : ProjectView -> option Z;
  view_name : ProjectView -> option string;
  view_filterQuery : ProjectView -> string;
  unsupportedFields : ProjectView -> list string;
  filterIssue : ProjectView -> Wrapper -> bool;
  newProjectView : Z -> string -> ProjectView;
  getProjectView : GetProjectViewParameters ProjectParameters
                   -> ProjectView + string;
  encodeURIComponent : string -> string
}.

Variable K : Collaborators Comment ProjectField IssueFieldValue.
Variable L : Listings.

Definition projectArgs (params : ProjectParameters L) : list string :=
  [ listing_organization L params;
    string_of_Z (listing_projectNumber L params) ].

Section ListingKnot.

Variable self : Parameters -> Eff Wrapper unit.

(** [IssueList.forRepo(params, fetchParams)] *)
Definition IssueList_forRepo_with (params : RepoParameters L)
           (fetchParams : Parameters) : Eff unit Collection :=
  (response <- Eff.request "listIssuesForRepo" [repo_organization L params]
                 (listIssuesForRepo L params) ;;
   let '(issues, title, url) := response in
   let list :=
     set_organization (Some (repo_organization L params))
       (IssueList_new issues
          {| sot_title := title; sot_url := url; sot_groupKey := None |}) in
   fetched <- Eff.on list (IssueList_fetch_with K self fetchParams) ;;
   Eff.ret (snd fetched))%eff.

(** The collection [forProject] and [forProjectView] build from the
    answer of the listing, with the project metavariables set. *)
Definition projectList (params : ProjectParameters L)
           (response : list RawIssue * string * string) : Collection :=
  let '(issues, title, url) := response in
  set_projectFieldsFetched true
    (set_projectNumber (Some (listing_projectNumber L params))
       (set_organization (Some (listing_organization L params))
          (IssueList_new issues
             {| sot_title := title; sot_url := url;
                sot_groupKey := None |}))).

(** [IssueList.forProject(params, fetchParams)] *)
Definition IssueList_forProject_with (params : ProjectParameters L)
           (fetchParams : Parameters) : Eff unit Collection :=
  (response <- Eff.request "listIssuesForProject" (projectArgs params)
                 (listIssuesForProject L params) ;;
   fetched <- Eff.on (projectList params response)
                     (IssueList_fetch_with K self fetchParams) ;;
   Eff.ret (snd fetched))%eff.

Definition unsupportedFilters (url : string) (names : list string) : string :=
  "View " ++ dquote ++ url ++ dquote ++ " uses unsupported filters: "
    ++ join ", " names ++ "." ++ nl
    ++ "        These fields will be ignored. Please contact the maintainer or open a "
    ++ dquote ++ "github/rollup-and-away" ++ dquote
    ++ " Issue to request for them to be implemented.".

(** The source of truth once scoped to a view. *)
Definition scopeToView (view : ProjectView L) (sot : SourceOfTruth)
  : SourceOfTruth :=
  {| sot_title :=
       match truthyString (view_name L view) with
       | Some name => sot_title sot ++ " (" ++ name ++ ")"
       | None => sot_title sot
       end;
     sot_url :=
       match truthyNumber (view_number L view) with
       | Some number => sot_url sot ++ "/views/" ++ string_of_Z number
       | None =>
           sot_url sot ++ "?filterQuery="
             ++ encodeURIComponent L (view_filterQuery L view)
       end;
     sot_groupKey := sot_groupKey sot |}.

(** [IssueList.applyViewFilter(view)] (private) *)
Definition IssueList_applyViewFilter (view : ProjectView L)
  : Eff Collection unit :=
  (when (usesCustomFields L view)
        (* Make sure Fields are fetched so we can filter on them *)
        (IssueList_fetchProjectFields K (view_projectNumber L view)) ;;;
   (* Scope the Source of Truth to the View *)
   Eff.assign (fun l => set_sourceOfTruth (scopeToView view (sourceOfTruth l)) l) ;;;
   this <- Eff.this ;;
   when (0 <? List.length (unsupportedFields L view))%nat
        (Eff.emit (Warning (unsupportedFilters (sot_url (sourceOfTruth this))
                                              (unsupportedFields L view)))) ;;;
   (* Filter the issues by the View's query *)
   Eff.assign (fun l => set_issues (IssueList_filter l (filterIssue L view)) l))%eff.

(** The collection [applyViewFilter(view)] leaves when it requests
    nothing: scoped to the view and filtered by it. *)
Definition scopedTo (view : ProjectView L) (l : Collection) : Collection :=
  set_issues (filter (filterIssue L view) (issues l))
    (set_sourceOfTruth (scopeToView view (sourceOfTruth l)) l).

Definition viewMissing : string :=
  "Either projectViewNumber or customQuery must be provided.".

(** [IssueList.forProjectView(params, fetchParams)] *)
Definition IssueList_forProjectView_with
           (params : GetProjectViewParameters (ProjectParameters L))
           (fetchParams : Parameters) : Eff unit Collection :=
  (response <- Eff.request "listIssuesForProject"
                 (projectArgs (view_project params))
                 (listIssuesForProject L (view_project params)) ;;
   let list := projectList (view_project params) response in
   view <-
     match projectViewNumber params with
     | None =>
         match customQuery params with
         | None => Eff.throw viewMissing
         | Some query =>
             Eff.ret (newProjectView
                        L (listing_projectNumber L (view_project params)) query)
         end
     | Some number =>
         Eff.request "getProjectView"
           (projectArgs (view_project params) ++ [string_of_Z number])%list
           (getProjectView L params)
     end ;;
   filtered <- Eff.on list (IssueList_applyViewFilter view) ;;
   fetched <- Eff.on (snd filtered) (IssueList_fetch_with K self fetchParams) ;;
   Eff.ret (snd fetched))%eff.

End ListingKnot.

(** The view [forProjectView(params, ...)] filters with is [view]: the
    one [getProjectView] answers when a view number is given, else the
    one made of the custom query. *)
Definition resolvesTo (params : GetProjectViewParameters (ProjectParameters L))
           (view : ProjectView L) : Prop :=
  match projectViewNumber params, customQuery params with
  | Some _, _ => getProjectView L params = inl view
  | None, Some query =>
      view = newProjectView L (listing_projectNumber L (view_project params))
                            query
  | None, None => False
  end.

(** The events of [forProjectView] before the fetch of the collection,
    when nothing fails and the fields of the project are not requested:
    the listing, the view when it has a number, and the warning about
    unsupported filters when there are some, with [url] for the URL of
    the listing. *)
Definition viewEvents (params : GetProjectViewParameters (ProjectParameters L))
           (view : ProjectView L) (url : string) : list Event :=
  ([Request "listIssuesForProject" (projectArgs (view_project params))]
   ++ match projectViewNumber params with
      | Some number =>
          [Request "getProjectView"
                   (projectArgs (view_project params) ++ [string_of_Z number])]
      | None => []
      end
   ++ if (0 <? List.length (unsupportedFields L view))%nat
      then [Warning (unsupportedFilters
                       (sot_url (scopeToView view
                                   {| sot_title := ""; sot_url := url;
                                      sot_groupKey := None |}))
                       (unsupportedFields L view))]
      else [])%list.

End Listings.

(* ===================================================================== *)
(** ** A small project to run the listings on *)
(* ===================================================================== *)

Module ExampleProject.

Import Example.

(** The issue [o/r#3], with a body. *)
Definition issueC : Issue' :=
  let i := raw "o" "r" 3 "C" in
  {| issue_title := issue_title i; issue_body := " Ship it. ";
     issue_url := issue_url i; issue_number := issue_number i;
     issue_isOpen := issue_isOpen i; issue_createdAt := issue_createdAt i;
     issue_updatedAt := issue_updatedAt i; issue_type := issue_type i;
     issue_repository := issue_repository i;
     issue_assignees := issue_assignees i; issue_labels := issue_labels i;
     issue_comments := issue_comments i; issue_parent := issue_parent i;
     issue_project := issue_project i;
     issue_issueFields := issue_issueFields i;
     issue_isSubissue := issue_isSubissue i |}.

(** A view: its number, its name, its query, and whether the query uses
    custom fields. It keeps the issues whose title is in the query. *)
Record View : Type := {
  number : option Z;
  name : option string;
  filterQuery : string;
  custom : bool
}.

(** Project 7 of the organization [o], with the issues A and B; its
    view 2 is called [Sprint] and shows the issue A. *)
Definition listings : @Listings Comment Field Field :=
  {| RepoParameters := string;
     repo_organization := fun org => org;
     listIssuesForRepo := fun org =>
       if String.eqb org "o"
       then inl ([issueA; issueB], "o/r", "https://github.com/o/r")
       else inr "Not Found";
     ProjectParameters := string * Z;
     listing_organization := fst;
     listing_projectNumber := snd;
     listIssuesForProject := fun project =>
       if Z.eqb (snd project) 7
       then inl ([issueA; issueB], "Roadmap",
                 "https://github.com/orgs/o/projects/7")
       else inr "Not Found";
     ProjectView := View;
     usesCustomFields := custom;
     view_projectNumber := fun _ => Some 7%Z;
     view_number := number;
     view_name := name;
     view_filterQuery := filterQuery;
     unsupportedFields := fun _ => [];
     filterIssue := fun view w =>
       StringUtil.includes (filterQuery view) (IssueWrapper_title w);
     newProjectView := fun _ query =>
       {| number := None; name := None; filterQuery := query;
          custom := true |};
     getProjectView := fun params =>
       match projectViewNumber params with
       | Some 2%Z => inl {| number := Some 2%Z; name := Some "Sprint";
                           filterQuery := "title:A"; custom := true |}
       | _ => inr "Not Found"
       end;
     encodeURIComponent := fun s => s |}.

Definition sprint : GetProjectViewParameters (string * Z) :=
  {| view_project := ("o", 7%Z); projectViewNumber := Some 2%Z;
     customQuery := None |}.

Definition unscoped : GetProjectViewParameters (string * Z) :=
  {| view_project := ("o", 7%Z); projectViewNumber := None;
     customQuery := None |}.

End ExampleProject.

(* ===================================================================== *)
(** ** Properties *)
(* ===================================================================== *)

(** *** Strings and maps *)

Lemma eqb_empty_false (s : string) : s <> "" -> String.eqb s "" = false.
Proof. intro H. now apply String.eqb_neq. Qed.

Lemma string_app_assoc (a b c : string) : (a ++ b) ++ c = a ++ b ++ c.
Proof. induction a as [|x a IH]; simpl; [reflexivity | now rewrite IH]. Qed.

Lemma or_else_nonempty (a b : string) : a <> "" -> or_else a b = a.
Proof. intro H. unfold or_else. now rewrite eqb_empty_false. Qed.

Lemma prefix_of_empty (s : string) : String.prefix s "" = true -> s = "".
Proof. destruct s; simpl; [reflexivity | discriminate]. Qed.

Lemma includes_nonempty (haystack needle : string) :
  StringUtil.includes haystack needle = true -> needle <> "" -> haystack <> "".
Proof.
  intros Hin Hne ->. simpl in Hin.
  rewrite orb_false_r in Hin. apply Hne. now apply prefix_of_empty.
Qed.

Lemma Set_has_In (keys : list string) (key : string) :
  Set_has keys key = true <-> In key keys.
Proof.
  unfold Set_has. rewrite existsb_exists. split.
  - intros [x [Hx Heq]]. apply String.eqb_eq in Heq. now subst.
  - intro H. exists key. split; [assumption | apply String.eqb_refl].
Qed.

Lemma sort_insert_perm {A} (compare : A -> A -> Z) (x : A) (l : list A) :
  Permutation (sort_insert compare x l) (x :: l).
Proof.
  induction l as [|y l IH]; simpl.
  - apply Permutation_refl.
  - destruct (compare x y <=? 0)%Z.
    + apply Permutation_refl.
    + eapply Permutation_trans; [apply perm_skip, IH | apply perm_swap].
Qed.

Lemma Array_sort_perm {A} (compare : A -> A -> Z) (l : list A) :
  Permutation (Array_sort compare l) l.
Proof.
  unfold Array_sort. induction l as [|x l IH]; simpl.
  - apply perm_nil.
  - eapply Permutation_trans; [apply sort_insert_perm | now apply perm_skip].
Qed.

Lemma Map_has_app_same {V} (m : JsMap V) (key : string) (v : V) :
  Map_has (m ++ [(key, v)])%list key = true.
Proof.
  unfold Map_has. induction m as [|[k v'] m IH]; simpl.
  - now rewrite String.eqb_refl.
  - destruct (String.eqb k key); [reflexivity | exact IH].
Qed.

Lemma Map_set_has {V} (m : JsMap V) (key : string) (v : V) :
  Map_has m key = false -> Map_has (Map_set m key v) key = true.
Proof. intro H. unfold Map_set. rewrite H. apply Map_has_app_same. Qed.

(** *** Effects: what a method preserves *)

Section Preservation.

Context {S : Type}.
Variable R : S -> S -> Prop.
Hypothesis R_refl : forall s, R s s.
Hypothesis R_trans : forall a b c, R a b -> R b c -> R a c.

Lemma preserves_ret {A} (a : A) : preserves R (Eff.ret a).
Proof. intros s log. apply R_refl. Qed.

Lemma preserves_throw {A} (e : string) : preserves R (@Eff.throw S A e).
Proof. intros s log. apply R_refl. Qed.

Lemma preserves_this : preserves R (@Eff.this S).
Proof. intros s log. apply R_refl. Qed.

Lemma preserves_emit (e : Event) : preserves R (@Eff.emit S e).
Proof. intros s log. apply R_refl. Qed.

Lemma preserves_lift {A} (r : outcome A) : preserves R (@Eff.lift S A r).
Proof. intros s log. apply R_refl. Qed.

Lemma preserves_request {A} (endpoint : string) (args : list string)
      (answer : A + string) :
  preserves R (@Eff.request S A endpoint args answer).
Proof. intros s log. unfold Eff.request. destruct answer; apply R_refl. Qed.

Lemma preserves_assign (f : S -> S) :
  (forall s, R s (f s)) -> preserves R (Eff.assign f).
Proof. intros H s log. apply H. Qed.

Lemma preserves_bind {A B} (m : Eff S A) (k : A -> Eff S B) :
  preserves R m -> (forall a, preserves R (k a)) -> preserves R (Eff.bind m k).
Proof.
  intros Hm Hk s log. unfold Eff.bind.
  specialize (Hm s log).
  destruct (m s log) as [[[a|e|] s'] log']; simpl in *; try assumption.
  eapply R_trans; [exact Hm | apply Hk].
Qed.

Lemma preserves_try_catch {A} (m : Eff S A) (handler : string -> Eff S A) :
  preserves R m -> (forall e, preserves R (handler e)) ->
  preserves R (Eff.try_catch m handler).
Proof.
  intros Hm Hh s log. unfold Eff.try_catch.
  specialize (Hm s log).
  destruct (m s log) as [[[a|e|] s'] log']; simpl in *; try assumption.
  eapply R_trans; [exact Hm | apply Hh].
Qed.

Lemma preserves_on {T A} (obj : T) (m : Eff T A) : preserves R (@Eff.on S T A obj m).
Proof.
  intros s log. unfold Eff.on.
  destruct (m obj log) as [[[a|e|] obj'] log']; apply R_refl.
Qed.

Lemma preserves_static {A} (m : Eff unit A) : preserves R (@Eff.static S A m).
Proof.
  intros s log. unfold Eff.static.
  destruct (m tt log) as [[r u] log']. apply R_refl.
Qed.

Lemma preserves_when (c : bool) (m : Eff S unit) :
  preserves R m -> preserves R (when c m).
Proof. intro H. destruct c; [exact H | apply preserves_ret]. Qed.

Lemma Forall2_same (xs : list S) : Forall2 R xs xs.
Proof. induction xs; constructor; auto. Qed.

Lemma preserves_forEach (m : Eff S unit) :
  preserves R m -> preserves (Forall2 R) (Eff.forEach m).
Proof.
  intros Hm xs. induction xs as [|x xs IH]; intro log; simpl.
  - constructor.
  - specialize (Hm x log).
    destruct (m x log) as [[[[]|e|] x'] log']; simpl in *.
    + specialize (IH log').
      destruct (Eff.forEach m xs log') as [[r xs'] log'']. simpl in *.
      now constructor.
    + constructor; [assumption | apply Forall2_same].
    + constructor; [assumption | apply Forall2_same].
Qed.

End Preservation.

(** *** Effects: what more fuel keeps *)

Section Refinement.

Context {S : Type}.

Lemma refines_refl {A} (m : Eff S A) : refines m m.
Proof. intros s log _. reflexivity. Qed.

Lemma refines_bind {A B} (m m' : Eff S A) (k k' : A -> Eff S B) :
  refines m m' -> (forall a, refines (k a) (k' a)) ->
  refines (Eff.bind m k) (Eff.bind m' k').
Proof.
  intros Hm Hk s log. unfold starved, Eff.bind. specialize (Hm s log).
  unfold starved in Hm.
  destruct (m s log) as [[[a|e|] s'] log']; simpl; intro Hrun.
  - rewrite Hm by discriminate. now apply Hk.
  - now rewrite Hm by discriminate.
  - contradiction.
Qed.

Lemma refines_try_catch {A} (m m' : Eff S A) (h h' : string -> Eff S A) :
  refines m m' -> (forall e, refines (h e) (h' e)) ->
  refines (Eff.try_catch m h) (Eff.try_catch m' h').
Proof.
  intros Hm Hh s log. unfold starved, Eff.try_catch. specialize (Hm s log).
  unfold starved in Hm.
  destruct (m s log) as [[[a|e|] s'] log']; simpl; intro Hrun.
  - now rewrite Hm by discriminate.
  - rewrite Hm by discriminate. now apply Hh.
  - contradiction.
Qed.

Lemma refines_on {T A} (obj : T) (m m' : Eff T A) :
  refines m m' -> refines (@Eff.on S T A obj m) (Eff.on obj m').
Proof.
  intros Hm s log. unfold starved, Eff.on. specialize (Hm obj log).
  unfold starved in Hm.
  destruct (m obj log) as [[[a|e|] o'] log']; simpl; intro Hrun;
    try contradiction; now rewrite Hm by discriminate.
Qed.

Lemma refines_static {A} (m m' : Eff unit A) :
  refines m m' -> refines (@Eff.static S A m) (Eff.static m').
Proof.
  intros Hm s log. unfold starved, Eff.static. specialize (Hm tt log).
  unfold starved in Hm.
  destruct (m tt log) as [[r u] log']; simpl; intro Hrun.
  now rewrite Hm.
Qed.

Lemma refines_when (c : bool) (m m' : Eff S unit) :
  refines m m' -> refines (when c m) (when c m').
Proof. intro H. destruct c; [exact H | apply refines_refl]. Qed.

Lemma refines_zoom {T A} (get : S -> T) (set : T -> S -> S) (m m' : Eff T A) :
  refines m m' -> refines (Eff.zoom get set m) (Eff.zoom get set m').
Proof.
  intros Hm s log. unfold starved, Eff.zoom. specialize (Hm (get s) log).
  unfold starved in Hm.
  destruct (m (get s) log) as [[r t'] log']; simpl; intro Hrun.
  now rewrite Hm.
Qed.

Lemma refines_forEach (m m' : Eff S unit) :
  refines m m' -> refines (Eff.forEach m) (Eff.forEach m').
Proof.
  intros Hm xs. induction xs as [|x xs IH]; intros log; unfold starved; simpl.
  - reflexivity.
  - specialize (Hm x log). unfold starved in Hm.
    destruct (m x log) as [[[[]|e|] x'] log']; simpl.
    + rewrite Hm by discriminate. specialize (IH log'). unfold starved in IH.
      destruct (Eff.forEach m xs log') as [[r xs'] log'']. simpl in *.
      intro Hrun. now rewrite IH.
    + intros _. now rewrite Hm by discriminate.
    + contradiction.
Qed.

End Refinement.

(** One step through a method along its structure. *)
Ltac refine_step :=
  first
    [ apply refines_refl
    | assumption
    | apply refines_bind; [|intro]
    | apply refines_try_catch; [|intro]
    | apply refines_on
    | apply refines_static
    | apply refines_when
    | apply refines_zoom
    | apply refines_forEach
    | match goal with
      | |- refines (match ?x with _ => _ end) _ => destruct x
      | |- refines (if ?c then _ else _) _ => destruct c
      | H : forall p, refines (?self p) (?self' p)
        |- refines (?self _) (?self' _) => apply H
      end ].

(** *** Collections: group-by, copies *)

Section CollectionProperties.

Context {Comment ProjectField IssueFieldValue : Type}.
Variable K : Collaborators Comment ProjectField IssueFieldValue.

Local Abbreviation Wrapper :=
  (IssueWrapper Comment ProjectField IssueFieldValue).
Local Abbreviation Collection :=
  (IssueList Comment ProjectField IssueFieldValue).

Lemma fieldOrNoStatus_nonempty (w : Wrapper) (fieldName : string) :
  IssueWrapper_fieldOrNoStatus K w fieldName <> "".
Proof.
  unfold IssueWrapper_fieldOrNoStatus.
  destruct (String.eqb (IssueWrapper_field K w fieldName) "") eqn:E.
  - discriminate.
  - now apply String.eqb_neq.
Qed.

(** [status] never yields the empty string: it ends in [No Status], in a
    non-empty emoji, or in an option that contains one. *)
Lemma status_nonempty (w : Wrapper) (fieldName : string) :
  IssueWrapper_status K w fieldName <> "".
Proof.
  pose proof (fieldOrNoStatus_nonempty w fieldName) as Hfb.
  unfold IssueWrapper_status.
  destruct (EMOJI_OVERRIDE K) as [override|]; [|exact Hfb].
  destruct (latestUpdate K w (IssueWrapper_comments w)) as [update|]; [|exact Hfb].
  destruct (String.eqb override ""); [exact Hfb|].
  destruct (emojiStatus K update _) as [emoji|]; [|exact Hfb].
  destruct (String.eqb emoji "") eqn:Eemoji; [exact Hfb|].
  apply String.eqb_neq in Eemoji.
  destruct (option_map _ (IssueWrapper__projectFields w)) as [[field|]|];
    try exact Eemoji.
  destruct (String.eqb (field_kind K field) "SingleSelect"); [|exact Eemoji].
  destruct (find _ _) as [option|] eqn:Efind; [|exact Hfb].
  apply find_some in Efind. destruct Efind as [_ Hinc].
  now apply includes_nonempty with emoji.
Qed.

Section GroupBy.

Variable this : Collection.
Variable fieldName : string.

Lemma members_push (groups : JsMap Collection) (key : string) (w : Wrapper) :
  Map_has groups key = true ->
  Permutation (members (Map_update groups key (push_issue w)))
              (w :: members groups).
Proof.
  unfold Map_has, members.
  induction groups as [|[k g] groups IH]; simpl; [discriminate|].
  destruct (String.eqb k key) eqn:E; intro H; simpl.
  - rewrite <- app_assoc. simpl.
    apply Permutation_sym, Permutation_middle.
  - eapply Permutation_trans.
    + apply Permutation_app_head, IH, H.
    + apply Permutation_sym, Permutation_middle.
Qed.

Lemma group_ok_push (groups : JsMap Collection) (w : Wrapper) :
  Forall (group_ok K fieldName) groups ->
  Forall (group_ok K fieldName)
         (Map_update groups (IssueWrapper_status K w fieldName) (push_issue w)).
Proof.
  induction 1 as [|[k g] groups Hg Hrest IH]; simpl; [constructor|].
  destruct (String.eqb k _) eqn:E.
  - constructor; [|assumption].
    apply String.eqb_eq in E.
    destruct Hg as (Hne & Hkey & Hall). simpl in *.
    repeat split; try assumption.
    apply Forall_app. split; [assumption|].
    constructor; [now symmetry | constructor].
  - constructor; assumption.
Qed.

Lemma groupBy_step_invariant (groups : JsMap Collection) (w : Wrapper) :
  Forall (group_ok K fieldName) groups ->
  Forall (group_ok K fieldName) (groupBy_step K this fieldName groups w)
  /\ Permutation (members (groupBy_step K this fieldName groups w))
                 (w :: members groups).
Proof.
  intro Hok. unfold groupBy_step. cbv zeta.
  pose proof (status_nonempty w fieldName) as Hne.
  set (key := IssueWrapper_status K w fieldName) in *.
  destruct (Map_has groups key) eqn:Ehas; simpl.
  - split; [now apply group_ok_push | now apply members_push].
  - unfold Map_set. rewrite Ehas.
    split.
    + apply group_ok_push. apply Forall_app. split; [assumption|].
      constructor; [|constructor].
      repeat split; simpl; [assumption | | constructor].
      now rewrite or_else_nonempty.
    + eapply Permutation_trans.
      * apply members_push, Map_has_app_same.
      * apply perm_skip. unfold members. rewrite flat_map_app. simpl.
        now rewrite !app_nil_r.
Qed.

Lemma groupBy_fold_invariant (ws : list Wrapper) (groups : JsMap Collection) :
  Forall (group_ok K fieldName) groups ->
  Forall (group_ok K fieldName) (fold_left (groupBy_step K this fieldName) ws groups)
  /\ Permutation
       (members (fold_left (groupBy_step K this fieldName) ws groups))
       (members groups ++ ws).
Proof.
  revert groups. induction ws as [|w ws IH]; intros groups Hok; simpl.
  - split; [assumption | now rewrite app_nil_r].
  - destruct (groupBy_step_invariant groups w Hok) as [Hok' Hperm].
    destruct (IH _ Hok') as [Hok'' Hperm'].
    split; [assumption|].
    eapply Permutation_trans; [exact Hperm'|].
    eapply Permutation_trans; [apply Permutation_app_tail, Hperm|].
    simpl. apply Permutation_middle.
Qed.

Lemma groupBy_groups_ok :
  Forall (group_ok K fieldName) (groupBy_groups K this fieldName)
  /\ Permutation (members (groupBy_groups K this fieldName)) (issues this).
Proof.
  unfold groupBy_groups.
  destruct (groupBy_fold_invariant (issues this) [] (Forall_nil _)) as [H1 H2].
  split; assumption.
Qed.

(** The groups [groupBy] returns are the entries of its map, sorted. *)
Lemma groupBy_entries (g : Collection) :
  In g (IssueList_groupBy K this fieldName) ->
  exists key, In (key, g) (groupBy_groups K this fieldName).
Proof.
  unfold IssueList_groupBy. intro H.
  apply in_map_iff in H. destruct H as [[key g'] [Heq Hin]].
  simpl in Heq. subst g'. exists key.
  eapply Permutation_in; [apply Array_sort_perm | exact Hin].
Qed.

Lemma group_ok_groupKey (entry : string * Collection) :
  group_ok K fieldName entry -> IssueList_groupKey (snd entry) = Returned (fst entry).
Proof.
  intros (Hne & Hkey & _). unfold IssueList_groupKey. rewrite Hkey.
  now rewrite eqb_empty_false.
Qed.

End GroupBy.

(** C4. For every collection and field name, concatenating the entities
    of the groups that [groupBy] returns gives the entities of the
    collection again, as a multiset, and [groupKey] of a group is the
    [status] of each of its entities for that field. *)
Theorem groupBy_partition (this : Collection) (fieldName : string) :
  Permutation (flat_map issues (IssueList_groupBy K this fieldName))
              (issues this)
  /\ forall (g : Collection) (w : Wrapper),
       In g (IssueList_groupBy K this fieldName) ->
       In w (issues g) ->
       IssueList_groupKey g = Returned (IssueWrapper_status K w fieldName).
Proof.
  destruct (groupBy_groups_ok this fieldName) as [Hok Hperm].
  split.
  - unfold IssueList_groupBy. rewrite flat_map_concat_map, map_map.
    rewrite <- flat_map_concat_map.
    eapply Permutation_trans; [|exact Hperm].
    apply Permutation_flat_map, Array_sort_perm.
  - intros g w Hg Hw.
    destruct (groupBy_entries this fieldName g Hg) as [key Hin].
    rewrite Forall_forall in Hok. specialize (Hok _ Hin).
    pose proof (group_ok_groupKey fieldName _ Hok) as Hkey. simpl in Hkey.
    destruct Hok as (_ & _ & Hall). rewrite Forall_forall in Hall.
    simpl in Hall. now rewrite (Hall w Hw).
Qed.

(** C10. Reading [groupKey] on a collection whose source of truth has no
    group key throws; on every collection that [groupBy] returns it
    returns the key the group was made under. *)
Theorem groupKey_needs_groupBy (this : Collection) :
  (sot_groupKey (sourceOfTruth this) = None ->
   IssueList_groupKey this = Thrown groupKeyError)
  /\ forall (fieldName : string) (g : Collection),
       In g (IssueList_groupBy K this fieldName) ->
       exists key,
         In (key, g) (groupBy_groups K this fieldName)
         /\ sot_groupKey (sourceOfTruth g) = Some key
         /\ IssueList_groupKey g = Returned key.
Proof.
  split.
  - intro H. unfold IssueList_groupKey. now rewrite H.
  - intros fieldName g Hg.
    destruct (groupBy_entries this fieldName g Hg) as [key Hin].
    destruct (groupBy_groups_ok this fieldName) as [Hok _].
    rewrite Forall_forall in Hok. specialize (Hok _ Hin).
    exists key. repeat split; try assumption.
    + now destruct Hok as (_ & Hkey & _).
    + exact (group_ok_groupKey fieldName _ Hok).
Qed.

(** C5, as the code has it. The collections that [copy] and [blame]
    derive have both fetch flags [false], whatever the flags of the
    original: the constructor resets them and neither method sets them. *)
Theorem copy_blame_reset_flags (this : Collection)
        (strategiesBlob : option (string + list string)) :
  commentsFetched (IssueList_copy this) = false
  /\ projectFieldsFetched (IssueList_copy this) = false
  /\ commentsFetched (IssueList_blame K this strategiesBlob) = false
  /\ projectFieldsFetched (IssueList_blame K this strategiesBlob) = false
  /\ issues (IssueList_copy this) = issues this
  /\ sourceOfTruth (IssueList_copy this) = sourceOfTruth this.
Proof. repeat split. Qed.

End CollectionProperties.

(** *** Rendering *)

Section RenderProperties.

Context {Comment ProjectField IssueFieldValue : Type}.
Variable K : Collaborators Comment ProjectField IssueFieldValue.

Local Abbreviation Wrapper :=
  (IssueWrapper Comment ProjectField IssueFieldValue).
Local Abbreviation Collection :=
  (IssueList Comment ProjectField IssueFieldValue).

Lemma resolveDefaults_resolved (w : Wrapper) (options : IssueRenderOptions) :
  resolved (resolveDefaults w options).
Proof.
  unfold resolved, resolveDefaults.
  destruct options as [h b u a c e f [s|] [r|] k]; simpl; split; discriminate.
Qed.

Lemma resolveDefaults_fixed (w : Wrapper) (options : IssueRenderOptions) :
  resolved options -> resolveDefaults w options = options.
Proof.
  unfold resolved, resolveDefaults.
  destruct options as [h b u a c e f [s|] [r|] k]; simpl;
    intros [Hs Hr]; congruence.
Qed.

Lemma resolveDefaults_twice (w : Wrapper) (options : IssueRenderOptions) :
  resolveDefaults w (resolveDefaults w options) = resolveDefaults w options.
Proof. apply resolveDefaults_fixed, resolveDefaults_resolved. Qed.

Lemma renderIssue_unfold (w : Wrapper) (options : IssueRenderOptions)
      (level : nat) :
  renderIssue K w options level
  = renderIssue_with K (renderIssue K) w options level.
Proof. destruct w; reflexivity. Qed.

Lemma updates_loop (level : nat) (latest : list Comment) (md : string)
      (srcs : list string) (options : IssueRenderOptions) :
  exists md',
    fold_left (renderUpdateStep K level) latest (md, srcs, options)
    = (md', (srcs ++ updateSources K options level latest)%list, options).
Proof.
  revert md srcs. induction latest as [|u latest IH]; intros md srcs.
  - exists md. simpl. now rewrite app_nil_r.
  - cbn [fold_left updateSources flat_map]. unfold renderUpdateStep at 2.
    destruct (renderComment K u options (level + 1)) as [rendered|].
    + destruct (IH (md ++ markdown rendered ++ nl ++ nl)
                   (srcs ++ sources rendered)%list) as [md' Hmd'].
      exists md'. rewrite Hmd'. unfold updateSources.
      now rewrite <- app_assoc.
    + exact (IH md srcs).
Qed.

Lemma nested_loop (level : nat) (nested : list Wrapper) (md : string)
      (srcs : list string) (options : IssueRenderOptions) :
  Forall (keeps_options K) nested ->
  resolved options ->
  exists md',
    renderNested (renderIssue K) level nested (md, srcs, options)
    = (md', (srcs ++ nestedSources K options level nested)%list, options).
Proof.
  intros Hall Hres. unfold renderNested.
  assert (exists md',
             fold_left (renderNestedStep (renderIssue K) level) nested
                       (md, srcs, options)
             = (md', (srcs ++ nestedSources K options level nested)%list, options))
    as [md' Hloop].
  { revert md srcs.
    induction Hall as [|w nested Hw Hrest IH]; intros md srcs.
    - exists md. simpl. now rewrite app_nil_r.
    - cbn [fold_left nestedSources flat_map]. unfold renderNestedStep at 2.
      specialize (Hw options (level + 1) Hres).
      destruct (renderIssue K w options (level + 1)) as [[rendered|] options'];
        cbn [fst snd] in *; subst options'.
      + destruct (IH (md ++ markdown rendered ++ nl ++ nl)
                     (srcs ++ sources rendered)%list) as [md' Hmd'].
        exists md'. rewrite Hmd'. unfold nestedSources.
        now rewrite <- app_assoc.
      + exact (IH md srcs). }
  rewrite Hloop. eexists. reflexivity.
Qed.

(** What [renderIssue] returns on settled options, as far as the options
    and the sources go. *)
Lemma renderIssue_resolved (w : Wrapper) :
  forall options level,
    resolved options ->
    snd (renderIssue K w options level) = options
    /\ forall fragment,
         fst (renderIssue K w options level) = Some fragment ->
         sources fragment
         = IssueWrapper_url w
             :: (if nothingToRender K w options then []
                 else accumulatedSources K w options level).
Proof.
  induction w as [i c s r IHs IHr] using IssueWrapper_nested_ind.
  intros options level Hres.
  assert (Hs : forall subs, s = Some subs -> Forall (keeps_options K) (issues subs)).
  { intros subs ->. simpl in IHs.
    eapply Forall_impl; [|exact IHs].
    intros w Hw o l Ho. now apply Hw. }
  assert (Hr : forall rel, r = Some rel -> Forall (keeps_options K) (issues rel)).
  { intros rel ->. simpl in IHr.
    eapply Forall_impl; [|exact IHr].
    intros w Hw o l Ho. now apply Hw. }
  clear IHs IHr.
  rewrite renderIssue_unfold. unfold renderIssue_with.
  rewrite (resolveDefaults_fixed _ _ Hres).
  set (w := Build_IssueWrapper i c s r) in *.
  destruct (nothingToRender K w options) eqn:Eempty.
  - destruct (skipIfEmpty options || negb (header options)); simpl;
      (split; [reflexivity|]); intros fragment Hf; inversion Hf; reflexivity.
  - unfold accumulatedSources.
    match goal with
    | |- context [ (?m, [IssueWrapper_url w], options) ] => set (md0 := m)
    end.
    (* the loop over the updates *)
    assert (exists md1,
               (if negb (Z.eqb (updates options) 0)
                then fold_left (renderUpdateStep K level)
                               (latestUpdates K w (IssueWrapper_comments w)
                                              (updates options) None)
                               (md0, [IssueWrapper_url w], options)
                else (md0, [IssueWrapper_url w], options))
               = (md1,
                  ([IssueWrapper_url w]
                     ++ (if Z.eqb (updates options) 0 then []
                         else updateSources K options level
                                (latestUpdates K w (IssueWrapper_comments w)
                                               (updates options) None)))%list,
                  options)) as [md1 ->].
    { destruct (Z.eqb (updates options) 0); simpl.
      - exists md0. reflexivity.
      - apply updates_loop. }
    cbn [snd]. set (srcs1 := ([IssueWrapper_url w] ++ _)%list).
    (* the loop over the sub-issues *)
    assert (exists md2,
               (if requested (subissues options)
                then match wrapper_subissues w with
                     | Some subs =>
                         renderNested (renderIssue K) level (issues subs)
                                      (md1, srcs1, options)
                     | None => (md1, srcs1, options)
                     end
                else (md1, srcs1, options))
               = (md2,
                  (srcs1
                     ++ (if requested (subissues options) then
                           match wrapper_subissues w with
                           | Some subs => nestedSources K options level (issues subs)
                           | None => []
                           end
                         else []))%list,
                  options)) as [md2 ->].
    { destruct (requested (subissues options)).
      - simpl wrapper_subissues. destruct s as [subs|].
        + apply nested_loop; [now apply Hs | assumption].
        + exists md1. now rewrite app_nil_r.
      - exists md1. now rewrite app_nil_r. }
    cbn [snd]. set (srcs2 := (srcs1 ++ _)%list).
    (* the loop over the related issues *)
    assert (exists md3,
               (if requested (relatedIssues options)
                then match wrapper_relatedIssues w with
                     | Some related =>
                         renderNested (renderIssue K) level (issues related)
                                      (md2, srcs2, options)
                     | None => (md2, srcs2, options)
                     end
                else (md2, srcs2, options))
               = (md3,
                  (srcs2
                     ++ (if requested (relatedIssues options) then
                           match wrapper_relatedIssues w with
                           | Some related =>
                               nestedSources K options level (issues related)
                           | None => []
                           end
                         else []))%list,
                  options)) as [md3 ->].
    { destruct (requested (relatedIssues options)).
      - simpl wrapper_relatedIssues. destruct r as [related|].
        + apply nested_loop; [now apply Hr | assumption].
        + exists md2. now rewrite app_nil_r.
      - exists md2. now rewrite app_nil_r. }
    simpl. split; [reflexivity|].
    intros fragment Hf. inversion Hf. subst fragment. simpl.
    unfold srcs2, srcs1. simpl. now rewrite <- app_assoc.
Qed.

Lemma renderIssue_resolves (w : Wrapper) (options : IssueRenderOptions)
      (level : nat) :
  renderIssue K w options level
  = renderIssue K w (resolveDefaults w options) level.
Proof.
  rewrite !renderIssue_unfold. unfold renderIssue_with.
  now rewrite resolveDefaults_twice.
Qed.

Lemma renderIssue_options (w : Wrapper) (options : IssueRenderOptions)
      (level : nat) :
  snd (renderIssue K w options level) = resolveDefaults w options.
Proof.
  rewrite renderIssue_resolves.
  apply renderIssue_resolved, resolveDefaults_resolved.
Qed.

(** C2. Rendering an entity again with the options object the first call
    left behind gives the same fragment (markdown and sources) and the
    same options; and the sources of a fragment are the URL of the entity
    followed, unless the fragment is the placeholder, by the sources of
    the rendered updates, of the fragments of the sub-issues and of the
    fragments of the related issues it includes, in that order. *)
Theorem renderIssue_deterministic_sources
        (issue : Wrapper) (options : IssueRenderOptions) (level : nat) :
  renderIssue K issue (snd (renderIssue K issue options level)) level
  = renderIssue K issue options level
  /\ forall fragment,
       fst (renderIssue K issue options level) = Some fragment ->
       sources fragment
       = IssueWrapper_url issue
           :: (if nothingToRender K issue (snd (renderIssue K issue options level))
               then []
               else accumulatedSources K issue
                      (snd (renderIssue K issue options level)) level).
Proof.
  split.
  - rewrite renderIssue_options.
    symmetry. apply renderIssue_resolves.
  - intros fragment Hf. rewrite renderIssue_options.
    rewrite renderIssue_resolves in Hf.
    now apply renderIssue_resolved; [apply resolveDefaults_resolved|].
Qed.

Lemma requested_resolved (w : Wrapper) (options : IssueRenderOptions) :
  requested (subissues (resolveDefaults w options)) = true ->
  subissuesRequested w options.
Proof.
  unfold subissuesRequested, resolveDefaults.
  destruct options as [h b u a c e f [[|]|] [r|] k]; simpl;
    try discriminate; try (now left);
    destruct (wrapper_subissues w); simpl; try discriminate;
    intros _; right; split; congruence.
Qed.

Lemma resolveDefaults_keeps (w : Wrapper) (options : IssueRenderOptions) :
  header (resolveDefaults w options) = header options
  /\ body (resolveDefaults w options) = body options
  /\ updates (resolveDefaults w options) = updates options
  /\ skipIfEmpty (resolveDefaults w options) = skipIfEmpty options.
Proof.
  unfold resolveDefaults.
  destruct options as [h b u a c e f [s|] [r|] k]; simpl; repeat split.
Qed.

Lemma renderIssue_nothing (w : Wrapper) (options : IssueRenderOptions)
      (level : nat) :
  nothingToRender K w (resolveDefaults w options) = true ->
  fst (renderIssue K w options level)
  = if skipIfEmpty options || negb (header options) then None
    else Some (placeholderFragment w level).
Proof.
  intro Hempty. rewrite renderIssue_unfold. unfold renderIssue_with.
  rewrite Hempty.
  destruct (resolveDefaults_keeps w options) as (Hh & _ & _ & Hk).
  rewrite Hh, Hk.
  destruct (skipIfEmpty options); [reflexivity|].
  destruct (header options); [|reflexivity].
  cbn [orb negb fst]. unfold placeholderFragment. f_equal. f_equal.
  rewrite !string_app_assoc. reflexivity.
Qed.

(** C7. When none of the three holds (updates requested and the entity
    has an update; body requested and the body not empty; sub-issues
    requested and a sub-issue has an update), the result is no fragment
    if [skipIfEmpty] is set or no header was requested, and otherwise the
    fragment made of the header and the placeholder sentence, with the
    URL of the entity as its only source. In particular an entity with
    [skipIfEmpty], an empty body, no update and no sub-issue collection
    renders to no fragment. *)
Theorem renderIssue_emptiness
        (issue : Wrapper) (options : IssueRenderOptions) (level : nat) :
  (~ (updates options <> 0%Z
      /\ hasUpdate K issue (IssueWrapper_comments issue) = true) ->
   ~ (body options = true /\ IssueWrapper__body issue <> "") ->
   ~ (subissuesRequested issue options
      /\ exists subs s,
           wrapper_subissues issue = Some subs /\ In s (issues subs)
           /\ hasUpdate K s (IssueWrapper_comments s) = true) ->
   (skipIfEmpty options = true \/ header options = false ->
    fst (renderIssue K issue options level) = None)
   /\ (skipIfEmpty options = false -> header options = true ->
       fst (renderIssue K issue options level)
       = Some (placeholderFragment issue level)))
  /\ (skipIfEmpty options = true ->
      IssueWrapper__body issue = "" ->
      hasUpdate K issue (IssueWrapper_comments issue) = false ->
      wrapper_subissues issue = None ->
      fst (renderIssue K issue options level) = None).
Proof.
  assert (Hgeneral :
            ~ (updates options <> 0%Z
               /\ hasUpdate K issue (IssueWrapper_comments issue) = true) ->
            ~ (body options = true /\ IssueWrapper__body issue <> "") ->
            ~ (subissuesRequested issue options
               /\ exists subs s,
                    wrapper_subissues issue = Some subs /\ In s (issues subs)
                    /\ hasUpdate K s (IssueWrapper_comments s) = true) ->
            nothingToRender K issue (resolveDefaults issue options) = true).
  { intros Hu Hb Hs. unfold nothingToRender.
    destruct (resolveDefaults_keeps issue options) as (_ & Eb & Eu & _).
    rewrite Eb, Eu.
    apply andb_true_intro. split; [apply andb_true_intro; split|].
    - destruct (Z.eqb_spec (updates options) 0); [reflexivity|]. simpl.
      destruct (hasUpdate K issue (IssueWrapper_comments issue)) eqn:E;
        [|reflexivity].
      exfalso. apply Hu. now split.
    - destruct (body options) eqn:E; [|reflexivity]. simpl.
      destruct (String.eqb_spec (IssueWrapper__body issue) ""); [reflexivity|].
      exfalso. apply Hb. now split.
    - destruct (requested (subissues (resolveDefaults issue options))) eqn:E;
        [|reflexivity]. simpl.
      destruct (wrapper_subissues issue) as [subs|] eqn:Esubs; [|reflexivity].
      destruct (IssueList_hasUpdates K subs) eqn:Eup; [|reflexivity].
      exfalso. apply Hs. split; [now apply requested_resolved|].
      unfold IssueList_hasUpdates in Eup. apply existsb_exists in Eup.
      destruct Eup as [s [Hin Hhas]]. exists subs, s. now repeat split. }
  split.
  - intros Hu Hb Hs. specialize (Hgeneral Hu Hb Hs).
    rewrite (renderIssue_nothing _ _ level Hgeneral). split.
    + intros [Hk | Hh]; [rewrite Hk | rewrite Hh]; simpl;
        [reflexivity | now rewrite orb_true_r].
    + intros Hk Hh. now rewrite Hk, Hh.
  - intros Hk Hbody Hnone Hsubs.
    rewrite (renderIssue_nothing _ _ level).
    + now rewrite Hk.
    + apply Hgeneral.
      * intros [_ H]. congruence.
      * intros [_ H]. congruence.
      * intros [_ (subs & s & H & _)]. congruence.
Qed.

End RenderProperties.

(** *** Fetching *)

Section FetchProperties.

Context {Comment ProjectField IssueFieldValue : Type}.
Variable K : Collaborators Comment ProjectField IssueFieldValue.

Local Abbreviation Wrapper :=
  (IssueWrapper Comment ProjectField IssueFieldValue).
Local Abbreviation Collection :=
  (IssueList Comment ProjectField IssueFieldValue).
Local Abbreviation Parameters :=
  (IssueFetchParameters Comment ProjectField IssueFieldValue).

(** C3. On an entity that carries project data for a project number,
    fetching the fields of another number throws and leaves the entity
    and the log as they were; fetching those of the same number returns
    at once, the entity unchanged and no request sent. *)
Theorem fetchProjectFields_single_project
        (this : Wrapper) (project : Project ProjectField) (other : Z)
        (log : list Event) :
  issue_project (issue this) = Some project ->
  (other <> project_number project ->
   IssueWrapper_fetchProjectFields K other this log
   = (Thrown (projectMismatch (project_number project) other), this, log))
  /\ IssueWrapper_fetchProjectFields K (project_number project) this log
     = (Returned tt, this, log).
Proof.
  intro Hproject.
  unfold IssueWrapper_fetchProjectFields, Eff.bind, Eff.this.
  rewrite Hproject. split.
  - intro Hother.
    destruct (Z.eqb_spec (project_number project) other); [congruence|].
    reflexivity.
  - now rewrite Z.eqb_refl.
Qed.

(** The parameters of the derived fetch differ from the caller's in
    [subissues] only. *)
Lemma relatedFetchParameters_followLinks (params : Parameters) :
  fetch_followLinks (relatedFetchParameters params) = fetch_followLinks params
  /\ fetch_subissues (relatedFetchParameters params) = false.
Proof. split; reflexivity. Qed.

(** The first half of the asymmetry between the two fetches: without a
    latest update with text, [followLinks] sets no related issues. *)
Lemma followLinks_without_update
      (self : Parameters -> Eff Wrapper unit) (params : Parameters)
      (this : Wrapper) (log : list Event) :
  let cached := set_commentList (Some (IssueWrapper_comments this)) this in
  wrapper_relatedIssues this = None ->
  match latestUpdate K cached (IssueWrapper_comments this) with
  | Some update => comment_update K update = ""
  | None => True
  end ->
  IssueWrapper_followLinks_with K self params this log
  = (Returned tt, cached, log)
  /\ wrapper_relatedIssues cached = None.
Proof.
  intros cached Hnone Hupdate.
  unfold IssueWrapper_followLinks_with, Eff.bind, Eff.this,
    IssueWrapper_get_comments.
  rewrite Hnone. fold cached.
  split.
  - destruct (latestUpdate K cached (IssueWrapper_comments this)) as [u|];
      simpl; [|reflexivity].
    now rewrite Hupdate.
  - unfold cached. now destruct this.
Qed.

(** [followLinks] does nothing on an entity that has related issues. *)
Lemma followLinks_already_fetched
      (self : Parameters -> Eff Wrapper unit) (params : Parameters)
      (this : Wrapper) (related : Collection) (log : list Event) :
  wrapper_relatedIssues this = Some related ->
  IssueWrapper_followLinks_with K self params this log
  = (Returned tt, this, log).
Proof.
  intro H. unfold IssueWrapper_followLinks_with, Eff.bind, Eff.this.
  now rewrite H.
Qed.

(** **** Sub-issues *)

(** [forSubissues] catches whatever its listing or its fetch throws. *)
Lemma forSubissues_never_throws
      (self : Parameters -> Eff Wrapper unit) (q : GetIssueParameters)
      (fetchParams : Parameters) (log : list Event) :
  match IssueList_forSubissues_with K self q fetchParams tt log with
  | (Thrown _, _, _) => False
  | _ => True
  end.
Proof.
  unfold IssueList_forSubissues_with, Eff.try_catch.
  match goal with
  | |- context [match ?run tt log with _ => _ end] =>
      destruct (run tt log) as [[[l|e|] u] log']
  end; exact I.
Qed.

(** The parameters a sub-issue fetch inherits are valid when the number of
    comments is not negative. *)
Lemma inheritWithSubissues_valid (params : Parameters) :
  (0 <= fetch_comments params)%Z ->
  exists inherited,
    validateFetchParameters K (inheritWithSubissues params)
    = Returned inherited.
Proof.
  intro Hcomments.
  unfold validateFetchParameters, inheritWithSubissues. cbn.
  destruct (Z.ltb_spec (fetch_comments params) 0); [lia|].
  eexists. reflexivity.
Qed.

(** The second half of the asymmetry, where it holds: on an entity that
    belongs to no project, a sub-issue fetch with valid parameters never
    throws and, when it returns, has attached a collection. *)
Lemma fetchSubissues_without_project
      (self : Parameters -> Eff Wrapper unit) (params : Parameters)
      (this : Wrapper) (log : list Event) :
  truthyNumber (IssueWrapper_projectNumber this) = None ->
  (0 <= fetch_comments params)%Z ->
  match IssueWrapper_fetchSubissues_with K self params this log with
  | (Returned _, this', _) => exists subs, wrapper_subissues this' = Some subs
  | (Thrown _, _, _) => False
  | (Starved, _, _) => True
  end.
Proof.
  intros Hproject Hcomments.
  destruct (inheritWithSubissues_valid params Hcomments) as [inherited Hvalid].
  unfold IssueWrapper_fetchSubissues_with.
  unfold Eff.bind at 1. unfold Eff.this at 1.
  unfold Eff.bind at 1. unfold Eff.lift at 1. rewrite Hvalid.
  unfold Eff.bind at 1. unfold Eff.static.
  pose proof (forSubissues_never_throws self (issueParams this) inherited log)
    as Hnever.
  destruct (IssueList_forSubissues_with K self (issueParams this) inherited tt log)
    as [[[subs|e|] u] log']; [|contradiction|exact I].
  unfold Eff.bind at 1. unfold Eff.this at 1. rewrite Hproject.
  unfold Eff.bind, Eff.ret, Eff.assign. cbn [snd].
  exists subs. now destruct this.
Qed.

(** **** No fetch changes which issue an entity stands for *)

Lemma sameEntity_refl (w : Wrapper) : sameEntity w w.
Proof. reflexivity. Qed.

Lemma sameEntity_trans (a b c : Wrapper) :
  sameEntity a b -> sameEntity b c -> sameEntity a c.
Proof. unfold sameEntity. congruence. Qed.

Lemma sameEntities_refl (ws : list Wrapper) : sameEntities ws ws.
Proof. apply Forall2_same, sameEntity_refl. Qed.

Lemma sameEntities_trans (a b c : list Wrapper) :
  sameEntities a b -> sameEntities b c -> sameEntities a c.
Proof.
  unfold sameEntities. intro Hab. revert c.
  induction Hab as [|x y xs ys Hxy Hrest IH]; intros c Hbc.
  - assumption.
  - inversion Hbc as [|y' z ys' zs Hyz Hrest']; subst.
    constructor; [now apply sameEntity_trans with y | now apply IH].
Qed.

Lemma sameIssues_refl (l : Collection) : sameIssues l l.
Proof. apply sameEntities_refl. Qed.

Lemma sameIssues_trans (a b c : Collection) :
  sameIssues a b -> sameIssues b c -> sameIssues a c.
Proof. apply sameEntities_trans. Qed.

Lemma sameEntity_set_comments (w : Wrapper) (c : option (list Comment)) :
  sameEntity w (set_issue (set_comments c (issue w)) w).
Proof. now destruct w. Qed.

Lemma sameEntity_setter_comments (w : Wrapper) (c : list Comment) :
  sameEntity w (IssueWrapper_set_comments c w).
Proof. now destruct w. Qed.

Lemma sameEntity_set_project (w : Wrapper) (project : Project ProjectField) :
  sameEntity w (IssueWrapper_set_project project w).
Proof. now destruct w. Qed.

Lemma sameEntity_set_commentList (w : Wrapper) (c : option (list Comment)) :
  sameEntity w (set_commentList c w).
Proof. now destruct w. Qed.

Lemma sameEntity_set_subissues (w : Wrapper) (l : option Collection) :
  sameEntity w (set_subissues l w).
Proof. now destruct w. Qed.

Lemma sameEntity_set_relatedIssues (w : Wrapper) (l : option Collection) :
  sameEntity w (set_relatedIssues l w).
Proof. now destruct w. Qed.

Ltac same_entity :=
  first [ exact sameEntity_refl | exact sameEntity_trans
        | exact sameIssues_refl | exact sameIssues_trans ].

Lemma fetchComments_preserves (numComments : Z) :
  preserves sameEntity (IssueWrapper_fetchComments K numComments).
Proof.
  unfold IssueWrapper_fetchComments.
  apply preserves_bind; try same_entity; [apply preserves_this; same_entity|].
  intro this. destruct (issue_comments (issue this)).
  - apply preserves_ret; same_entity.
  - apply preserves_bind; try same_entity; [apply preserves_request; same_entity|].
    intro comments. apply preserves_assign. intro w.
    apply sameEntity_set_comments.
Qed.

Lemma fetchProjectFields_preserves (number : Z) :
  preserves sameEntity (IssueWrapper_fetchProjectFields K number).
Proof.
  unfold IssueWrapper_fetchProjectFields.
  apply preserves_bind; try same_entity; [apply preserves_this; same_entity|].
  intro this. destruct (issue_project (issue this)) as [project|].
  - destruct (Z.eqb (project_number project) number);
      [apply preserves_ret; same_entity | apply preserves_throw; same_entity].
  - apply preserves_bind; try same_entity; [apply preserves_request; same_entity|].
    intro fields. apply preserves_assign. intro w.
    apply sameEntity_set_project.
Qed.

Lemma fetchSubissues_preserves
      (self : Parameters -> Eff Wrapper unit) (params : Parameters) :
  preserves sameEntity (IssueWrapper_fetchSubissues_with K self params).
Proof.
  unfold IssueWrapper_fetchSubissues_with.
  apply preserves_bind; try same_entity; [apply preserves_this; same_entity|].
  intro this.
  apply preserves_bind; try same_entity; [apply preserves_lift; same_entity|].
  intro inherited.
  apply preserves_bind; try same_entity; [apply preserves_static; same_entity|].
  intro subs.
  apply preserves_bind; try same_entity; [apply preserves_this; same_entity|].
  intro this'.
  apply preserves_bind; try same_entity.
  - destruct (truthyNumber (IssueWrapper_projectNumber this'));
      [apply preserves_on; same_entity | apply preserves_ret; same_entity].
  - intro stamped. apply preserves_assign. intro w.
    apply sameEntity_set_subissues.
Qed.

Lemma get_comments_preserves :
  preserves sameEntity
            (@IssueWrapper_get_comments Comment ProjectField IssueFieldValue).
Proof. intros w log. apply sameEntity_set_commentList. Qed.

Lemma followLinks_preserves
      (self : Parameters -> Eff Wrapper unit) (params : Parameters) :
  preserves sameEntity (IssueWrapper_followLinks_with K self params).
Proof.
  unfold IssueWrapper_followLinks_with.
  apply preserves_bind; try same_entity; [apply preserves_this; same_entity|].
  intro this. destruct (wrapper_relatedIssues this).
  { apply preserves_ret; same_entity. }
  apply preserves_bind; try same_entity; [apply get_comments_preserves|].
  intro comments.
  apply preserves_bind; try same_entity; [apply preserves_this; same_entity|].
  intro this'.
  destruct (option_map (comment_update K) (latestUpdate K this' comments))
    as [update|]; [|apply preserves_ret; same_entity].
  destruct (String.eqb update ""); [apply preserves_ret; same_entity|].
  apply preserves_bind; try same_entity; [apply preserves_lift; same_entity|].
  intro issueUrls. destruct (List.length issueUrls =? 0)%nat.
  - apply preserves_assign. intro w. apply sameEntity_set_relatedIssues.
  - apply preserves_bind; try same_entity; [apply preserves_static; same_entity|].
    intro related. apply preserves_assign. intro w.
    apply sameEntity_set_relatedIssues.
Qed.

(** [fetch] leaves the entity the one it was, whatever it calls and
    however it ends. *)
Lemma fetch_body_preserves
      (self : Parameters -> Eff Wrapper unit) (params : Parameters) :
  preserves sameEntity (IssueWrapper_fetch_body K self params).
Proof.
  unfold IssueWrapper_fetch_body.
  apply preserves_bind; try same_entity; [apply preserves_this; same_entity|].
  intro this.
  apply preserves_bind; try same_entity.
  { apply preserves_when; [same_entity|].
    apply preserves_bind; try same_entity; [apply preserves_lift; same_entity|].
    intro within. apply preserves_when; [same_entity|].
    apply fetchComments_preserves. }
  intros _.
  apply preserves_bind; try same_entity; [apply preserves_this; same_entity|].
  intro this'.
  apply preserves_bind; try same_entity.
  { destruct (if fetch_projectFields params
              then truthyNumber (IssueWrapper_projectNumber this') else None);
      [apply fetchProjectFields_preserves | apply preserves_ret; same_entity]. }
  intros _.
  apply preserves_bind; try same_entity.
  { apply preserves_when; [same_entity | apply fetchSubissues_preserves]. }
  intros _.
  apply preserves_when; [same_entity | apply followLinks_preserves].
Qed.

Lemma fetch_preserves (fuel : nat) (params : Parameters) :
  preserves sameEntity (IssueWrapper_fetch K fuel params).
Proof.
  destruct fuel as [|fuel]; cbn [IssueWrapper_fetch].
  - intros w log. apply sameEntity_refl.
  - apply fetch_body_preserves.
Qed.

Lemma assignFound_same
      (params : GetIssueParameters) (change : Wrapper -> Wrapper)
      (ws ws' : list Wrapper) :
  (forall w, sameEntity w (change w)) ->
  assignFound params change ws = Some ws' ->
  sameEntities ws ws'.
Proof.
  intro Hchange. revert ws'.
  induction ws as [|w ws IH]; intros ws' H; simpl in H; [discriminate|].
  destruct (same_issue params w).
  - inversion H. constructor; [apply Hchange | apply sameEntities_refl].
  - destruct (assignFound params change ws) as [rest|]; [|discriminate].
    inversion H. constructor; [apply sameEntity_refl | now apply IH].
Qed.

Lemma assignComments_preserves
      (entries : list (GetIssueParameters * list Comment)) :
  preserves sameIssues (assignComments K entries).
Proof.
  induction entries as [|[params comments] entries IH]; intros l log;
    cbn [assignComments].
  - apply sameIssues_refl.
  - unfold Eff.bind at 1. unfold Eff.this at 1.
    destruct (assignFound params (IssueWrapper_set_comments comments)
                          (issues l)) as [ws|] eqn:E.
    + unfold Eff.bind at 1. unfold Eff.assign at 1.
      apply sameIssues_trans with (set_issues ws l); [|apply IH].
      unfold sameIssues. cbn [issues set_issues].
      eapply assignFound_same; [|exact E].
      intro w. apply sameEntity_setter_comments.
    + apply sameIssues_refl.
Qed.

Lemma list_fetchComments_preserves (numComments : Z) :
  preserves sameIssues (IssueList_fetchComments K numComments).
Proof.
  unfold IssueList_fetchComments.
  apply preserves_bind; try same_entity; [apply preserves_this; same_entity|].
  intro this. destruct (commentsFetched this); [apply preserves_ret; same_entity|].
  apply preserves_bind; try same_entity; [apply preserves_lift; same_entity|].
  intro selected.
  apply preserves_bind; try same_entity; [apply preserves_request; same_entity|].
  intro commentsMap.
  apply preserves_bind; try same_entity; [apply assignComments_preserves|].
  intros _. apply preserves_assign. intro l. exact (sameEntities_refl (issues l)).
Qed.

Lemma assignProjectFields_same
      (org : string) (number : Z)
      (items : list (GetIssueParameters * JsMap ProjectField))
      (ws : list Wrapper) :
  sameEntities ws (fold_left (assignProjectFields org number) items ws).
Proof.
  revert ws. induction items as [|item items IH]; intro ws; simpl.
  - apply sameEntities_refl.
  - eapply sameEntities_trans; [|apply IH].
    unfold assignProjectFields.
    destruct (assignFound (fst item) _ ws) as [ws'|] eqn:E.
    + eapply assignFound_same; [|exact E].
      intro w. apply sameEntity_set_project.
    + apply sameEntities_refl.
Qed.

Lemma map_set_project_same (project : Project ProjectField) (ws : list Wrapper) :
  sameEntities ws (map (IssueWrapper_set_project project) ws).
Proof.
  induction ws as [|w ws IH]; simpl; constructor;
    [apply sameEntity_set_project | exact IH].
Qed.

Lemma list_fetchProjectFields_preserves (forNumber : option Z) :
  preserves sameIssues (IssueList_fetchProjectFields K forNumber).
Proof.
  unfold IssueList_fetchProjectFields.
  apply preserves_bind; try same_entity; [apply preserves_this; same_entity|].
  intro this. destruct (projectFieldsFetched this); [apply preserves_ret; same_entity|].
  apply preserves_bind; try same_entity.
  { apply preserves_when; [same_entity|].
    apply preserves_assign. intro l. exact (sameEntities_refl (issues l)). }
  intros _.
  apply preserves_bind; try same_entity; [apply preserves_this; same_entity|].
  intro this'.
  destruct (truthyString (organization this')) as [org|];
    [|apply preserves_throw; same_entity].
  destruct (truthyNumber (projectNumber this')) as [number|];
    [|apply preserves_throw; same_entity].
  apply preserves_bind; try same_entity; [apply preserves_request; same_entity|].
  intro items.
  apply preserves_bind; try same_entity.
  { apply preserves_assign. intro l. apply map_set_project_same. }
  intros _.
  apply preserves_bind; try same_entity.
  { apply preserves_assign. intro l. apply assignProjectFields_same. }
  intros _. apply preserves_assign. intro l. exact (sameEntities_refl (issues l)).
Qed.

(** The collection-level fetch, when it returns: the entities are
    enriched in place, those that pass the filter are kept in order, and
    each of these is fetched. *)
Lemma list_fetch_returns
      (self : Parameters -> Eff Wrapper unit) (params : Parameters)
      (l l' : Collection) (log log' : list Event) :
  (forall p, preserves sameEntity (self p)) ->
  IssueList_fetch_with K self params l log = (Returned tt, l', log') ->
  exists enriched,
    sameEntities (issues l) enriched
    /\ sameEntities (filter (fetch_filter params) enriched) (issues l').
Proof.
  intros Hself. unfold IssueList_fetch_with.
  unfold Eff.bind at 1. unfold Eff.this at 1.
  unfold Eff.bind at 1.
  set (first := match (if fetch_projectFields params
                       then truthyNumber (projectNumber l) else None) with
                | Some number => IssueList_fetchProjectFields K (Some number)
                | None => Eff.ret tt
                end).
  assert (Hfirst : preserves sameIssues first).
  { unfold first.
    destruct (if fetch_projectFields params
              then truthyNumber (projectNumber l) else None);
      [apply list_fetchProjectFields_preserves
      | apply preserves_ret; same_entity]. }
  specialize (Hfirst l log).
  destruct (first l log) as [[[[]|e|] l1] log1]; try discriminate.
  cbn [fst snd] in Hfirst.
  unfold Eff.bind at 1.
  pose proof (preserves_when sameIssues sameIssues_refl
                (0 <? fetch_comments params)%Z
                (IssueList_fetchComments K (fetch_comments params))
                (list_fetchComments_preserves (fetch_comments params)) l1 log1)
    as Hsecond.
  destruct (when (0 <? fetch_comments params)%Z
                 (IssueList_fetchComments K (fetch_comments params)) l1 log1)
    as [[[[]|e|] l2] log2]; try discriminate.
  cbn [fst snd] in Hsecond.
  unfold Eff.bind at 1. unfold Eff.assign at 1. unfold Eff.zoom.
  cbn [issues set_issues].
  pose proof (preserves_forEach sameEntity sameEntity_refl (self params)
                                (Hself params)
                                (IssueList_filter l2 (fetch_filter params)) log2)
    as Heach.
  destruct (Eff.forEach (self params)
                        (IssueList_filter l2 (fetch_filter params)) log2)
    as [[r ws] log3].
  cbn [fst snd] in Heach.
  intro H. inversion H. subst. cbn [issues set_issues].
  exists (issues l2). split.
  - now apply sameEntities_trans with (issues l1).
  - exact Heach.
Qed.

(** **** Link-following re-enters [fetch] *)

Ltac starve_with H :=
  match goal with
  | |- context [?self ?a ?b ?c] =>
      match type of H with
      | forall log, starved (self _ _ log) =>
          let H' := fresh "H" in
          pose proof (H c) as H'; unfold starved in H';
          destruct (self a b c) as [[[?|?|] ?] ?]; simpl in H';
          try discriminate H'; reflexivity
      end
  end.

Lemma forIssue_starves
      (self : Parameters -> Eff Wrapper unit) (q : GetIssueParameters)
      (fetchParams : Parameters)
      (raw : Issue Comment ProjectField IssueFieldValue) (log : list Event) :
  getIssue K q = inl raw ->
  (forall log', starved (self fetchParams (IssueWrapper_new raw) log')) ->
  starved (IssueWrapper_forIssue_with K self q fetchParams tt log).
Proof.
  intros Hget Hself.
  unfold starved, IssueWrapper_forIssue_with, Eff.bind, Eff.request, Eff.on.
  rewrite Hget. starve_with Hself.
Qed.

Lemma forUrl_starves
      (self : Parameters -> Eff Wrapper unit) (url : string)
      (fetchParams : Parameters) (m : GithubUrl.IssueMatch) (number : Z)
      (raw : Issue Comment ProjectField IssueFieldValue) (log : list Event) :
  GithubUrl.matchIssueUrl (newURL K) url = Returned (Some m) ->
  truthyNumber (GithubUrl.issueNumber m) = Some number ->
  getIssue K {| params_organization := GithubUrl.owner m;
                params_repository := GithubUrl.repo m;
                params_issueNumber := number |} = inl raw ->
  (forall log', starved (self fetchParams (IssueWrapper_new raw) log')) ->
  starved (IssueWrapper_forUrl_with K self url fetchParams tt log).
Proof.
  intros Hmatch Hnumber Hget Hself.
  unfold IssueWrapper_forUrl_with, Eff.bind at 1. unfold Eff.lift.
  rewrite Hmatch, Hnumber.
  now apply forIssue_starves with raw.
Qed.

Lemma forUrls_starves
      (self : Parameters -> Eff Wrapper unit) (url : string)
      (rest : list string) (params : Parameters) (log : list Event) :
  starved (IssueWrapper_forUrl_with K self url params tt log) ->
  starved (IssueList_forUrls_with K self (url :: rest) params tt log).
Proof.
  unfold starved, IssueList_forUrls_with. unfold Eff.bind at 1.
  cbn [forUrls_collect]. unfold Eff.bind at 1. unfold Eff.try_catch.
  unfold Eff.bind at 1.
  destruct (IssueWrapper_forUrl_with K self url params tt log)
    as [[[w|e|] u] log1]; simpl; try discriminate.
  reflexivity.
Qed.

(** A [fetch] for comments and links only, on an entity without comments:
    the comments are requested and stored, then the links are followed. *)
Lemma fetch_body_comments_then_links
      (self : Parameters -> Eff Wrapper unit) (params : Parameters)
      (this : Wrapper) (log : list Event) (comments : list Comment) :
  issue_comments (issue this) = None ->
  (0 <? fetch_comments params)%Z = true ->
  IssueWrapper_wasUpdatedWithinTimeframe K this (timeframe K) = Returned true ->
  listCommentsForIssue K (issueParams this) (fetch_comments params)
  = inl comments ->
  fetch_projectFields params = false ->
  fetch_subissues params = false ->
  fetch_followLinks params = true ->
  IssueWrapper_fetch_body K self params this log
  = IssueWrapper_followLinks_with
      K self params
      (set_issue (set_comments (Some comments) (issue this)) this)
      (log ++ [Request "listCommentsForIssue"
                       (paramsArgs (issueParams this)
                          ++ [string_of_Z (fetch_comments params)])])%list.
Proof.
  intros Hnone Hcount Hwithin Hlist Hproject Hsub Hlinks.
  unfold IssueWrapper_fetch_body.
  unfold Eff.bind at 1. unfold Eff.this at 1.
  rewrite Hnone, Hcount, Hproject, Hsub, Hlinks. cbn [GithubUrl.is_some negb andb when].
  unfold Eff.bind at 1. unfold Eff.bind at 1. unfold Eff.lift at 1.
  rewrite Hwithin. cbn [when].
  unfold IssueWrapper_fetchComments.
  unfold Eff.bind at 1. unfold Eff.this at 1. rewrite Hnone.
  unfold Eff.bind at 1. unfold Eff.request at 1. rewrite Hlist.
  unfold Eff.assign at 1.
  unfold Eff.bind at 1. unfold Eff.this at 1.
  unfold Eff.bind at 1. unfold Eff.ret at 1.
  unfold Eff.bind at 1. unfold Eff.ret at 1.
  reflexivity.
Qed.

(** On an entity without related issues whose latest update has a link to
    an issue the tracker knows, [followLinks] calls [fetch] on that issue
    with the parameters of the derived fetch. *)
Lemma followLinks_starves
      (self : Parameters -> Eff Wrapper unit) (params : Parameters)
      (this : Wrapper) (log : list Event)
      (update : Comment) (url : string) (rest : list string)
      (m : GithubUrl.IssueMatch) (number : Z)
      (raw : Issue Comment ProjectField IssueFieldValue) :
  wrapper_relatedIssues this = None ->
  latestUpdate K (set_commentList (Some (IssueWrapper_comments this)) this)
               (IssueWrapper_comments this) = Some update ->
  comment_update K update <> "" ->
  GithubUrl.scrapeUrls (newURL K) (comment_update K update) ["issue"]
  = Returned (url :: rest) ->
  GithubUrl.matchIssueUrl (newURL K) url = Returned (Some m) ->
  truthyNumber (GithubUrl.issueNumber m) = Some number ->
  getIssue K {| params_organization := GithubUrl.owner m;
                params_repository := GithubUrl.repo m;
                params_issueNumber := number |} = inl raw ->
  (forall log', starved (self (relatedFetchParameters params)
                              (IssueWrapper_new raw) log')) ->
  starved (IssueWrapper_followLinks_with K self params this log).
Proof.
  intros Hnone Hupdate Htext Hscrape Hmatch Hnumber Hget Hself.
  unfold starved, IssueWrapper_followLinks_with, Eff.bind at 1.
  unfold Eff.this at 1. rewrite Hnone.
  unfold Eff.bind at 1. unfold IssueWrapper_get_comments.
  unfold Eff.bind at 1. unfold Eff.this at 1.
  rewrite Hupdate. cbn [option_map].
  rewrite (eqb_empty_false _ Htext).
  unfold Eff.bind at 1. unfold Eff.lift at 1. rewrite Hscrape.
  cbn [List.length Nat.eqb].
  unfold Eff.bind at 1. unfold Eff.static.
  pose proof (forUrls_starves self url rest (relatedFetchParameters params) log
                (forUrl_starves self url (relatedFetchParameters params)
                                m number raw log Hmatch Hnumber Hget Hself))
    as Hurls.
  unfold starved in Hurls.
  destruct (IssueList_forUrls_with K self (url :: rest)
                                   (relatedFetchParameters params) tt log)
    as [[[l|e|] u] log1]; simpl in Hurls; try discriminate Hurls.
  reflexivity.
Qed.

(** **** More fuel changes nothing that has ended *)

Section FuelMonotone.

Variables self self' : Parameters -> Eff Wrapper unit.
Hypothesis self_refines : forall p, refines (self p) (self' p).

Lemma list_fetch_refines (params : Parameters) :
  refines (IssueList_fetch_with K self params)
          (IssueList_fetch_with K self' params).
Proof. unfold IssueList_fetch_with. repeat refine_step. Qed.

Lemma forSubissues_refines (q : GetIssueParameters) (params : Parameters) :
  refines (IssueList_forSubissues_with K self q params)
          (IssueList_forSubissues_with K self' q params).
Proof. unfold IssueList_forSubissues_with. repeat refine_step. Qed.

Lemma forUrl_refines (url : string) (params : Parameters) :
  refines (IssueWrapper_forUrl_with K self url params)
          (IssueWrapper_forUrl_with K self' url params).
Proof.
  unfold IssueWrapper_forUrl_with, IssueWrapper_forIssue_with.
  repeat refine_step.
Qed.

Lemma forUrls_collect_refines (urls : list string) (params : Parameters)
      (collected : list Wrapper) :
  refines (forUrls_collect K self urls params collected)
          (forUrls_collect K self' urls params collected).
Proof.
  revert collected.
  induction urls as [|url urls IH]; intro collected; cbn [forUrls_collect].
  - apply refines_refl.
  - apply refines_bind; [|intro; apply IH].
    apply refines_try_catch; [|intro; apply refines_refl].
    apply refines_bind; [apply forUrl_refines | intro; apply refines_refl].
Qed.

Lemma forUrls_refines (urls : list string) (params : Parameters) :
  refines (IssueList_forUrls_with K self urls params)
          (IssueList_forUrls_with K self' urls params).
Proof.
  unfold IssueList_forUrls_with.
  apply refines_bind; [apply forUrls_collect_refines|]. intro collected.
  apply refines_bind; [|intro; apply refines_refl].
  apply refines_on, list_fetch_refines.
Qed.

Lemma fetchSubissues_refines (params : Parameters) :
  refines (IssueWrapper_fetchSubissues_with K self params)
          (IssueWrapper_fetchSubissues_with K self' params).
Proof.
  unfold IssueWrapper_fetchSubissues_with.
  apply refines_bind; [apply refines_refl|]. intro this.
  apply refines_bind; [apply refines_refl|]. intro inherited.
  apply refines_bind;
    [apply refines_static, forSubissues_refines | intro; apply refines_refl].
Qed.

Lemma followLinks_refines (params : Parameters) :
  refines (IssueWrapper_followLinks_with K self params)
          (IssueWrapper_followLinks_with K self' params).
Proof.
  unfold IssueWrapper_followLinks_with.
  apply refines_bind; [apply refines_refl|]. intro this.
  destruct (wrapper_relatedIssues this); [apply refines_refl|].
  apply refines_bind; [apply refines_refl|]. intro comments.
  apply refines_bind; [apply refines_refl|]. intro this'.
  destruct (option_map (comment_update K) (latestUpdate K this' comments))
    as [update|]; [|apply refines_refl].
  destruct (String.eqb update ""); [apply refines_refl|].
  apply refines_bind; [apply refines_refl|]. intro issueUrls.
  destruct (List.length issueUrls =? 0)%nat; [apply refines_refl|].
  apply refines_bind;
    [apply refines_static, forUrls_refines | intro; apply refines_refl].
Qed.

Lemma fetch_body_refines (params : Parameters) :
  refines (IssueWrapper_fetch_body K self params)
          (IssueWrapper_fetch_body K self' params).
Proof.
  unfold IssueWrapper_fetch_body.
  apply refines_bind; [apply refines_refl|]. intro this.
  apply refines_bind; [apply refines_refl|]. intros _.
  apply refines_bind; [apply refines_refl|]. intro this'.
  apply refines_bind; [apply refines_refl|]. intros _.
  apply refines_bind; [apply refines_when, fetchSubissues_refines|]. intros _.
  apply refines_when, followLinks_refines.
Qed.

End FuelMonotone.

Lemma fetch_fuel_step (fuel : nat) (params : Parameters) :
  refines (IssueWrapper_fetch K fuel params)
          (IssueWrapper_fetch K (S fuel) params).
Proof.
  revert params. induction fuel as [|fuel IH]; intro params.
  - intros s log Hrun. now contradiction Hrun.
  - change (refines
              (IssueWrapper_fetch_body K (IssueWrapper_fetch K fuel) params)
              (IssueWrapper_fetch_body K (IssueWrapper_fetch K (S fuel)) params)).
    now apply fetch_body_refines.
Qed.

(** A call of [fetch] that ends with some fuel ends the same with more. *)
Lemma fetch_fuel_monotone (fuel more : nat) (params : Parameters) :
  refines (IssueWrapper_fetch K fuel params)
          (IssueWrapper_fetch K (more + fuel) params).
Proof.
  induction more as [|more IH]; [apply refines_refl|].
  intros s log Hrun. cbn [Nat.add].
  rewrite <- (IH s log Hrun).
  apply fetch_fuel_step. now rewrite (IH s log Hrun).
Qed.

Lemma forUrls_fuel_monotone (fuel more : nat) (urls : list string)
      (params : Parameters) :
  refines (IssueList_forUrls K fuel urls params)
          (IssueList_forUrls K (more + fuel) urls params).
Proof.
  apply forUrls_refines. intro p. apply fetch_fuel_monotone.
Qed.

(** **** [forUrls] *)

Lemma forUrls_collect_spec
      (self : Parameters -> Eff Wrapper unit) (params : Parameters)
      (urls : list string) :
  forall (collected : list Wrapper) (log : list Event),
    match forUrls_collect K self urls params collected tt log with
    | (Returned all, _, log') =>
        exists ws, all = (collected ++ ws)%list
                   /\ Collected (fun url => IssueWrapper_forUrl_with K self url params)
                                urls log ws log'
    | (Thrown _, _, _) => False
    | (Starved, _, _) => True
    end.
Proof.
  induction urls as [|url rest IH]; intros collected log.
  - simpl. exists []. split; [now rewrite app_nil_r | constructor].
  - cbn [forUrls_collect]. unfold Eff.bind at 1. unfold Eff.try_catch.
    unfold Eff.bind at 1.
    destruct (IssueWrapper_forUrl_with K self url params tt log)
      as [[[w|error|] []] log1] eqn:Eresolve.
    + cbn [Eff.ret].
      specialize (IH (collected ++ [w])%list log1).
      destruct (forUrls_collect K self rest params (collected ++ [w]) tt log1)
        as [[[all|e|] u] log2]; try exact IH.
      destruct IH as [ws [Hall Hws]]. exists (w :: ws). split.
      * now rewrite Hall, <- app_assoc.
      * econstructor; eassumption.
    + unfold Eff.bind at 1, Eff.emit, Eff.ret.
      specialize (IH collected (log1 ++ [urlWarning url error])%list).
      unfold urlWarning in IH at 1.
      destruct (forUrls_collect K self rest params collected tt _)
        as [[[all|e|] u] log2]; try exact IH.
      destruct IH as [ws [Hall Hws]]. exists ws. split; [assumption|].
      eapply Collected_warned; eassumption.
    + exact I.
Qed.

(** The collection-level fetch of a collection built from no entity. *)
Lemma fetch_fromUrls_none
      (self : Parameters -> Eff Wrapper unit) (params : Parameters)
      (log : list Event) :
  match IssueList_fetch_with K self params (fromUrls []) log with
  | (Returned _, l, _) =>
      issues l = [] /\ sourceOfTruth l = urlsSourceOfTruth
  | _ => True
  end.
Proof.
  unfold IssueList_fetch_with, fromUrls, IssueList_fetchComments, Eff.bind,
    Eff.this, Eff.lift, Eff.request, when.
  destruct (fetch_projectFields params), (0 <? fetch_comments params)%Z; cbn;
    try (split; reflexivity);
    destruct (listCommentsForListOfIssues K [] (fetch_comments params))
      as [[|[entry comments] entries]|error];
    cbn; auto.
Qed.

(** C8, as the code has it. [forUrls] never throws the error of a
    resolution: the URLs are resolved one after the other, each failure
    becomes a warning, and the entities of those that resolve are
    collected in order; the result is the collection built from them,
    after its own [fetch] (whose errors are the only ones [forUrls]
    throws): it holds, in order, the collected entities that pass the
    filter of the fetch parameters. When none resolves, that collection
    is empty and titled [Issues from URLs]. *)
Theorem forUrls_tolerates_failures
        (fuel : nat) (urls : list string) (params : Parameters)
        (log : list Event) :
  match IssueList_forUrls K fuel urls params tt log with
  | (Returned l, _, log') =>
      exists ws log1,
        Collected (fun url => IssueWrapper_forUrl K fuel url params)
                  urls log ws log1
        /\ IssueList_fetch K fuel params (fromUrls ws) log1
           = (Returned tt, l, log')
        /\ (exists enriched,
               sameEntities ws enriched
               /\ sameEntities (filter (fetch_filter params) enriched)
                               (issues l))
        /\ (ws = [] ->
            issues l = [] /\ IssueList_title l = "Issues from URLs")
  | (Thrown error, _, log') =>
      exists ws log1 l,
        Collected (fun url => IssueWrapper_forUrl K fuel url params)
                  urls log ws log1
        /\ IssueList_fetch K fuel params (fromUrls ws) log1
           = (Thrown error, l, log')
  | (Starved, _, _) => True
  end.
Proof.
  unfold IssueList_forUrls, IssueList_forUrls_with, IssueList_fetch,
    IssueWrapper_forUrl.
  unfold Eff.bind at 1.
  pose proof (forUrls_collect_spec (IssueWrapper_fetch K fuel) params urls [] log)
    as Hcollect.
  destruct (forUrls_collect K (IssueWrapper_fetch K fuel) urls params [] tt log)
    as [[[all|e|] []] log1]; [|contradiction|exact I].
  destruct Hcollect as [ws [Hall Hws]]. simpl in Hall. subst all.
  unfold Eff.bind, Eff.on, Eff.ret. fold (fromUrls ws).
  destruct (IssueList_fetch_with K (IssueWrapper_fetch K fuel) params
                                 (fromUrls ws) log1)
    as [[[[]|error|] l] log'] eqn:Efetch.
  - cbn [snd]. exists ws, log1.
    split; [assumption | split; [exact Efetch | split]].
    { exact (list_fetch_returns (IssueWrapper_fetch K fuel) params
                                (fromUrls ws) l log1 log'
                                (fetch_preserves fuel) Efetch). }
    intros ->.
    pose proof (fetch_fromUrls_none (IssueWrapper_fetch K fuel) params log1) as H.
    rewrite Efetch in H. destruct H as [Hissues Hsot].
    split; [assumption|].
    unfold IssueList_title. now rewrite Hsot.
  - exists ws, log1, l. split; [assumption | exact Efetch].
  - exact I.
Qed.

End FetchProperties.

(** *** Render options *)

Section RenderConfigProperties.

Variable isTruthy : JsValue -> bool.
Variable Number : JsValue -> option Z.
Variable ToString : JsValue -> string.

(** The key check of [validateRenderOptions]: an error for invalid keys
    is thrown exactly when some key is not in [validKeys]. *)
Lemma validateRenderOptions_invalid_keys (options : DirtyRenderOptions) :
  (exists key, In key (Object_keys options)
               /\ ~ In key RenderConfig.validKeys)
  <-> RenderConfig.validateRenderOptions isTruthy Number ToString options
      = Thrown (RenderConfig.invalidKeysMessage
                  (RenderConfig.invalidKeys options))
      /\ RenderConfig.invalidKeys options <> [].
Proof.
  unfold RenderConfig.validateRenderOptions.
  assert (Hin : forall key,
             In key (RenderConfig.invalidKeys options)
             <-> In key (Object_keys options)
                 /\ ~ In key RenderConfig.validKeys).
  { intro key. unfold RenderConfig.invalidKeys. rewrite filter_In.
    rewrite negb_true_iff, <- not_true_iff_false, Set_has_In. tauto. }
  destruct (RenderConfig.invalidKeys options) as [|bad rest] eqn:E.
  - split.
    + intros [key Hkey]. apply Hin in Hkey. contradiction.
    + intros [_ H]. now contradiction H.
  - split.
    + intros _. split; [reflexivity | discriminate].
    + intros _. exists bad. apply Hin. now left.
Qed.

(** C9, at the input where the code departs from it. [relatedIssues] is a
    key of [DirtyRenderOptions] that [validateRenderOptions] reads, yet an
    options object that has it is rejected as having an invalid key,
    whatever its value. *)
Theorem validateRenderOptions_rejects_relatedIssues (value : JsValue) :
  In "relatedIssues" RenderConfig.declaredKeys
  /\ RenderConfig.validateRenderOptions isTruthy Number ToString
       [("relatedIssues", value)]
     = Thrown "Invalid RenderOption: relatedIssues"
  /\ forall key,
       In key RenderConfig.declaredKeys ->
       key <> "relatedIssues" ->
       RenderConfig.invalidKeys [(key, value)] = [].
Proof.
  split; [|split].
  - simpl. tauto.
  - reflexivity.
  - intros key Hkey Hne. simpl in Hkey.
    repeat (destruct Hkey as [<- | Hkey]; [try reflexivity; congruence|]).
    contradiction.
Qed.

End RenderConfigProperties.

(** *** Runs on the example tracker *)

Section LinkedIssues.

Import Example.

(** One call of [fetch] on an issue of the linked tracker reaches [fetch]
    on the issue its latest update links to. *)
Lemma linked_step_A (self : Params -> Eff Wrapper unit) :
  (forall log, starved (self (params 1 false true) (IssueWrapper_new issueB) log)) ->
  forall log,
    starved (IssueWrapper_fetch_body (collaborators linked) self
                                     (params 1 false true)
                                     (IssueWrapper_new issueA) log).
Proof.
  intros H log.
  rewrite (fetch_body_comments_then_links
             (collaborators linked) self (params 1 false true)
             (IssueWrapper_new issueA) log
             (match lookup (table linked) (issue_number issueA) with
              | Some (_, comments) => comments
              | None => []
              end))
    by reflexivity.
  eapply followLinks_starves with (url := "github.com/o/r/issues/2")
                                  (raw := issueB);
    try reflexivity; [discriminate | exact H].
Qed.

Lemma linked_step_B (self : Params -> Eff Wrapper unit) :
  (forall log, starved (self (params 1 false true) (IssueWrapper_new issueA) log)) ->
  forall log,
    starved (IssueWrapper_fetch_body (collaborators linked) self
                                     (params 1 false true)
                                     (IssueWrapper_new issueB) log).
Proof.
  intros H log.
  rewrite (fetch_body_comments_then_links
             (collaborators linked) self (params 1 false true)
             (IssueWrapper_new issueB) log
             (match lookup (table linked) (issue_number issueB) with
              | Some (_, comments) => comments
              | None => []
              end))
    by reflexivity.
  eapply followLinks_starves with (url := "github.com/o/r/issues/1")
                                  (raw := issueA);
    try reflexivity; [discriminate | exact H].
Qed.

Lemma linked_starves (fuel : nat) :
  (forall log,
      starved (IssueWrapper_fetch (collaborators linked) fuel (params 1 false true)
                                  (IssueWrapper_new issueA) log))
  /\ (forall log,
         starved (IssueWrapper_fetch (collaborators linked) fuel
                                     (params 1 false true)
                                     (IssueWrapper_new issueB) log)).
Proof.
  induction fuel as [|fuel [IHA IHB]].
  - split; intro log; reflexivity.
  - split; cbn [IssueWrapper_fetch].
    + now apply linked_step_A.
    + now apply linked_step_B.
Qed.

(** C1, at the input where the code departs from it. The parameters that
    [followLinks] hands to the derived fetch keep [followLinks] as the
    caller has it and switch [subissues] off instead; with two issues whose
    latest updates link to each other, [fetch] with link-following never
    returns, whatever the fuel, while without link-following it returns at
    once. *)
Theorem followLinks_keeps_following :
  (forall p : Params,
      fetch_followLinks (relatedFetchParameters p) = fetch_followLinks p
      /\ fetch_subissues (relatedFetchParameters p) = false)
  /\ fetch_followLinks (relatedFetchParameters (params 1 false true)) = true
  /\ (forall fuel log,
        starved (IssueWrapper_fetch (collaborators linked) fuel
                                    (params 1 false true)
                                    (IssueWrapper_new issueA) log))
  /\ fst (fst (IssueWrapper_fetch (collaborators linked) 1
                                  (params 1 false false)
                                  (IssueWrapper_new issueA) []))
     = Returned tt.
Proof.
  split; [intro p; split; reflexivity|].
  split; [reflexivity|].
  split; [|reflexivity].
  intros fuel log. now apply linked_starves.
Qed.

End LinkedIssues.

Section ExampleRuns.

Import Example.

(** C6, at the input where the code departs from it. On an entity that
    belongs to a project, when the listing of the sub-issues fails,
    [forSubissues] answers with the null collection, the stamping of the
    project fields on that collection throws, and [fetchSubissues]
    attaches nothing; on an entity without a project the null collection
    is attached. *)
Theorem fetchSubissues_failed_listing_in_project (fuel : nat) :
  (exists log,
      IssueWrapper_fetchSubissues (collaborators plain) fuel
                                  (params 0 true false) inProject []
      = (Thrown cannotFetchProjectFields, inProject, log)
      /\ warnings log
         = ["Could not fetch Subissues for "
              ++ stringifyParams (issueParams inProject)
              ++ ". Error: Error: Bad Gateway"])
  /\ wrapper_subissues inProject = None
  /\ (exists after log,
         IssueWrapper_fetchSubissues (collaborators plain) fuel
                                     (params 0 true false)
                                     (IssueWrapper_new issueA) []
         = (Returned tt, after, log)
         /\ wrapper_subissues after = Some IssueList_null).
Proof.
  split; [|split].
  - eexists. split; [lazy; reflexivity | reflexivity].
  - reflexivity.
  - eexists. eexists. split; [lazy; reflexivity | reflexivity].
Qed.

(** C5, counterexample. A collection whose comments were fetched has the
    flag set; its copy and its blame view do not. *)
Lemma copy_forgets_commentsFetched :
  commentsFetched fetched = true
  /\ commentsFetched (IssueList_copy fetched) = false
  /\ commentsFetched (IssueList_blame (collaborators plain) fetched None) = false.
Proof. repeat split. Qed.

(** C8, counterexample. When the only URL fails to resolve, [forUrls]
    returns an empty collection titled [Issues from URLs], which is not
    the null collection. *)
Lemma forUrls_total_failure_is_not_null :
  exists l log,
    IssueList_forUrls (collaborators plain) 1 ["github.com/o/r/pull/3"]
                      (params 0 false false) tt []
    = (Returned l, tt, log)
    /\ issues l = []
    /\ List.length (warnings log) = 1%nat
    /\ IssueList_title l = "Issues from URLs"
    /\ IssueList_title l <> IssueList_title (IssueList_null (Comment:=Comment)
                                               (ProjectField:=Field)
                                               (IssueFieldValue:=Field))
    /\ IssueList_title (IssueList_null (Comment:=Comment)
                          (ProjectField:=Field) (IssueFieldValue:=Field))
       = "No Issues".
Proof.
  eexists. eexists. split; [lazy; reflexivity|].
  repeat split. discriminate.
Qed.

(** One URL of another host and two issue URLs: the two entities, in
    order, and one warning. *)
Lemma forUrls_mixed_witness :
  exists l log,
    IssueList_forUrls (collaborators plain) 1 mixedUrls
                      (params 0 false false) tt []
    = (Returned l, tt, log)
    /\ map (fun w => IssueWrapper_url w) (issues l)
       = [issue_url issueA; issue_url issueB]
    /\ warnings log
       = ["Could not fetch Issue from URL https://example.com/o/r/issues/9: "
            ++ "Error: Unsupported hostname: example.com. "
            ++ "Please provide a valid GitHub URL."]
    /\ exists ws log1,
         Collected (fun url => IssueWrapper_forUrl (collaborators plain) 1 url
                                                   (params 0 false false))
                   mixedUrls [] ws log1
         /\ IssueList_fetch (collaborators plain) 1 (params 0 false false)
                            (fromUrls ws) log1
            = (Returned tt, l, log).
Proof.
  pose proof (forUrls_tolerates_failures (collaborators plain) 1 mixedUrls
                                         (params 0 false false) []) as H.
  destruct (IssueList_forUrls (collaborators plain) 1 mixedUrls
                              (params 0 false false) tt [])
    as [[[l|e|] u] log] eqn:E;
    try (vm_compute in E; discriminate E).
  destruct u. exists l, log. split; [reflexivity|].
  destruct H as (ws & log1 & Hws & Hfetch & _).
  vm_compute in E. inversion E. subst l log.
  repeat split. exists ws, log1. split; assumption.
Defined.

(** An entity of project 7: fields of project 8 are refused, those of
    project 7 are there already. *)
Lemma fetchProjectFields_witness :
  issue_project (issue inProject) = Some project7
  /\ IssueWrapper_fetchProjectFields (collaborators plain) 8 inProject []
     = (Thrown (projectMismatch 7 8), inProject, [])
  /\ IssueWrapper_fetchProjectFields (collaborators plain) 7 inProject []
     = (Returned tt, inProject, []).
Proof.
  split; [reflexivity|].
  destruct (fetchProjectFields_single_project
              (collaborators plain) inProject project7 8 [] eq_refl)
    as [Hother Hsame].
  split; [apply Hother; discriminate | exact Hsame].
Defined.

(** The board of three issues, grouped by status: the groups come in the
    order [Doing], [Done], [Todo], and the first holds the issue whose
    status is [Doing]. *)
Lemma groupBy_partition_witness :
  Permutation (flat_map issues (IssueList_groupBy (collaborators plain) board "status"))
              (issues board)
  /\ map (fun g => IssueList_groupKey g)
         (IssueList_groupBy (collaborators plain) board "status")
     = [Returned "Doing"; Returned "Done"; Returned "Todo"]
  /\ exists g w,
       In g (IssueList_groupBy (collaborators plain) board "status")
       /\ In w (issues g)
       /\ IssueWrapper_number w = 2%Z
       /\ IssueList_groupKey g
          = Returned (IssueWrapper_status (collaborators plain) w "status").
Proof.
  destruct (groupBy_partition (collaborators plain) board "status")
    as [Hperm Hkeys].
  split; [exact Hperm | split; [reflexivity|]].
  destruct (IssueList_groupBy (collaborators plain) board "status")
    as [|g groups] eqn:Egroups; [vm_compute in Egroups; discriminate Egroups|].
  destruct (issues g) as [|w ws] eqn:Eissues.
  - vm_compute in Egroups. inversion Egroups. subst g. discriminate Eissues.
  - exists g, w.
    assert (Hg : In g (g :: groups)) by now left.
    assert (Hw : In w (issues g)) by (rewrite Eissues; now left).
    repeat split; try assumption.
    + vm_compute in Egroups. inversion Egroups. subst g.
      vm_compute in Eissues. inversion Eissues. reflexivity.
    + now apply Hkeys.
Defined.

(** The board has no group key; its groups by status have one each. *)
Lemma groupKey_witness :
  sot_groupKey (sourceOfTruth board) = None
  /\ IssueList_groupKey board = Thrown groupKeyError
  /\ exists g key,
       In g (IssueList_groupBy (collaborators plain) board "status")
       /\ IssueList_groupKey g = Returned key.
Proof.
  destruct (groupKey_needs_groupBy (collaborators plain) board)
    as [Hnone Hgroups].
  split; [reflexivity | split; [exact (Hnone eq_refl)|]].
  destruct (IssueList_groupBy (collaborators plain) board "status")
    as [|g groups] eqn:E; [vm_compute in E; discriminate E|].
  destruct (Hgroups "status" g) as (key & _ & _ & Hkey).
  - rewrite E. now left.
  - exists g, key. split; [now left | exact Hkey].
Defined.

(** An issue without body, comments or sub-issues: no fragment under the
    default options, the placeholder when empty fragments are kept. *)
Lemma renderIssue_emptiness_witness :
  fst (renderIssue (collaborators plain) (IssueWrapper_new issueA)
                   defaultOptions 3) = None
  /\ fst (renderIssue (collaborators plain) (IssueWrapper_new issueA)
                      withHeaderOnly 3)
     = Some (placeholderFragment (IssueWrapper_new issueA) 3).
Proof.
  split.
  - apply (proj2 (renderIssue_emptiness (collaborators plain)
                    (IssueWrapper_new issueA) defaultOptions 3));
      reflexivity.
  - apply (proj1 (renderIssue_emptiness (collaborators plain)
                    (IssueWrapper_new issueA) withHeaderOnly 3)).
    + intros [_ H]. discriminate H.
    + intros [H _]. discriminate H.
    + intros [_ (subs & s & H & _)]. discriminate H.
    + reflexivity.
    + reflexivity.
Defined.

(** An entity with an update and a sub-issue with an update: its own URL,
    then the source of its update, then the sources of the sub-issue. *)
Lemma renderIssue_sources_witness :
  exists fragment,
    fst (renderIssue (collaborators plain) parent defaultOptions 3)
    = Some fragment
    /\ sources fragment
       = [issue_url issueA; "parent update"; issue_url issueB; "child update"]
    /\ renderIssue (collaborators plain) parent
                   (snd (renderIssue (collaborators plain) parent defaultOptions 3))
                   3
       = renderIssue (collaborators plain) parent defaultOptions 3.
Proof.
  destruct (renderIssue_deterministic_sources
              (collaborators plain) parent defaultOptions 3)
    as [Hsame Hsources].
  destruct (fst (renderIssue (collaborators plain) parent defaultOptions 3))
    as [fragment|] eqn:E; [|vm_compute in E; discriminate E].
  exists fragment. split; [reflexivity|]. split; [|exact Hsame].
  rewrite (Hsources fragment eq_refl). reflexivity.
Defined.

End ExampleRuns.

(* ===================================================================== *)
(** ** String helpers ([@util/string]) *)
(* ===================================================================== *)


Section StringProperties.

Import StringUtil SnakeCase.


Lemma all_chars_app (p : ascii -> bool) (a b : string) :
  GithubUrl.all_chars p (a ++ b)
  = GithubUrl.all_chars p a && GithubUrl.all_chars p b.
Proof.
  induction a as [|x a IH]; simpl; [reflexivity|].
  now rewrite IH, andb_assoc.
Qed.











(** *** [title] *)










(** *** [fuzzy] *)









(** *** [toSnakeCase] *)



















End StringProperties.

(* ===================================================================== *)
(** ** GitHub URLs *)
(* ===================================================================== *)

Section UrlProperties.

Import StringUtil GithubUrl.

(** *** Decimal numbers *)






(** *** Paths *)






Section Matching.

Variable newURL : string -> URL + string.


(** *** Scraping *)

Lemma prefix_split (a s : string) :
  String.prefix a s = true -> exists b, s = a ++ b.
Proof.
  revert s. induction a as [|x a IH]; intros s H; [now exists s|].
  destruct s as [|y s]; [discriminate|]. simpl in H.
  destruct (ascii_dec x y) as [<-|]; [|discriminate].
  destruct (IH s H) as [b ->]. now exists b.
Qed.

Lemma prefix_app_same (a b : string) : String.prefix a (a ++ b) = true.
Proof.
  induction a as [|x a IH]; [now destruct b|].
  simpl. now destruct (ascii_dec x x).
Qed.

Lemma takeWhile_all (p : ascii -> bool) (s : string) :
  all_chars p (takeWhile p s) = true.
Proof.
  induction s as [|c s IH]; [reflexivity|]. simpl.
  destruct (p c) eqn:E; [simpl; now rewrite E | reflexivity].
Qed.

Lemma takeWhile_prefix (p : ascii -> bool) (s : string) :
  String.prefix (takeWhile p s) s = true.
Proof.
  induction s as [|c s IH]; [reflexivity|]. simpl.
  destruct (p c); [|reflexivity]. simpl. now destruct (ascii_dec c c).
Qed.

Lemma matchHere_shape (s m : string) :
  matchHere s = Some m -> is_scraped m /\ String.prefix m s = true.
Proof.
  unfold matchHere. destruct (String.prefix "github.com/" s) eqn:Hp; [|discriminate].
  destruct (prefix_split _ _ Hp) as [rest ->].
  change (dropPrefix 11 ("github.com/" ++ rest)) with rest.
  destruct (takeWhile is_url_char rest) as [|c tail] eqn:Et; [discriminate|].
  intro H. inversion H. subst m. split.
  - exists (String c tail). repeat split; [discriminate|].
    rewrite <- Et. apply takeWhile_all.
  - pose proof (takeWhile_prefix is_url_char rest) as Hpre.
    rewrite Et in Hpre. destruct (prefix_split _ _ Hpre) as [b Hb].
    rewrite Hb. rewrite <- string_app_assoc. apply prefix_app_same.
Qed.

Lemma includes_later (c : ascii) (s m : string) :
  includes s m = true -> includes (String c s) m = true.
Proof. intro H. cbn [includes]. rewrite H. apply orb_true_r. Qed.

Lemma includes_prefix (s m : string) :
  String.prefix m s = true -> includes s m = true.
Proof. intro H. destruct s; cbn [includes]; now rewrite H. Qed.

Lemma matchAll_matches (s : string) :
  forall skip,
    Forall (fun m => is_scraped m /\ includes s m = true) (matchAll skip s).
Proof.
  induction s as [|c s IH]; intro skip; [constructor|].
  assert (Hlater : forall k,
             Forall (fun m => is_scraped m /\ includes (String c s) m = true)
                    (matchAll k s)).
  { intro k. eapply Forall_impl; [|apply IH].
    intros m [Hm Hin]. split; [exact Hm | now apply includes_later]. }
  cbn [matchAll]. destruct skip as [|k]; [|apply Hlater].
  destruct (matchHere (String c s)) as [m|] eqn:E; [|apply Hlater].
  constructor; [|apply Hlater].
  destruct (matchHere_shape _ _ E) as [Hm Hp].
  split; [exact Hm | now apply includes_prefix].
Qed.

(** X5: what the URL pattern finds. Every match of the pattern in a text
    is a piece of the text that starts with [github.com/], goes on with at
    least one more character, and holds no whitespace, quote, angle
    bracket or closing parenthesis: the scheme in front of the host is
    never part of a match. *)
Theorem matchAll_shape (blob : string) :
  Forall (fun m => is_scraped m /\ includes blob m = true) (matchAll 0 blob).
Proof. apply matchAll_matches. Qed.

Lemma Set_add_In (set : list string) (x u : string) :
  In u (Set_add set x) <-> In u set \/ u = x.
Proof.
  unfold Set_add. destruct (Set_has set x) eqn:E.
  - apply Set_has_In in E. split; [now left | intros [H| ->]; assumption].
  - rewrite in_app_iff. simpl. intuition.
Qed.

Lemma Set_add_NoDup (set : list string) (x : string) :
  NoDup set -> NoDup (Set_add set x).
Proof.
  intro H. unfold Set_add. destruct (Set_has set x) eqn:E; [exact H|].
  apply NoDup_app; [exact H | repeat constructor; intros [] | ].
  intros u Hu [<-|[]]. apply Set_has_In in Hu. congruence.
Qed.

Lemma validateUrl_not_starved (url : string) : validateUrl newURL url <> Starved.
Proof.
  unfold validateUrl.
  destruct (newURL url) as [parts|e];
    [|destruct (newURL ("https://" ++ url)) as [parts|e']];
    try discriminate;
    destruct (negb (String.eqb (hostname parts) "github.com")); discriminate.
Qed.

Lemma matchIssueUrl_not_starved (url : string) :
  matchIssueUrl newURL url <> Starved.
Proof.
  unfold matchIssueUrl. pose proof (validateUrl_not_starved url) as H.
  destruct (validateUrl newURL url) as [parts|e|]; try discriminate; [|contradiction].
  destruct (issuePathMatch (pathname parts)) as [[[o r] d]|]; [|discriminate].
  destruct (negb (nonempty o) || negb (nonempty r)); discriminate.
Qed.

Lemma matchDiscussionUrl_not_starved (url : string) :
  matchDiscussionUrl newURL url <> Starved.
Proof.
  unfold matchDiscussionUrl. pose proof (validateUrl_not_starved url) as H.
  destruct (validateUrl newURL url) as [parts|e|]; try discriminate; contradiction.
Qed.

Lemma scrapeLoop_spec (kinds matches : list string) :
  forall urls,
    NoDup urls ->
    match scrapeLoop newURL kinds matches urls with
    | Returned found =>
        NoDup found
        /\ forall u, In u found <-> In u urls \/ (In u matches /\ kept newURL kinds u)
    | Thrown e => exists u, In u matches /\ refused newURL kinds u e
    | Starved => False
    end.
Proof.
  induction matches as [|m rest IH]; intros urls Hnd.
  - cbn [scrapeLoop]. split; [exact Hnd|]. intro u. simpl. tauto.
  - cbn [scrapeLoop].
    assert (Hnext : forall hit : bool,
               (hit = true -> kept newURL kinds m) ->
               (hit = false -> ~ kept newURL kinds m) ->
               match scrapeLoop newURL kinds rest
                                (if hit then Set_add urls m else urls) with
               | Returned found =>
                   NoDup found
                   /\ forall u, In u found <->
                                In u urls \/ (In u (m :: rest) /\ kept newURL kinds u)
               | Thrown e => exists u, In u (m :: rest) /\ refused newURL kinds u e
               | Starved => False
               end).
    { intros hit Hyes Hno.
      specialize (IH (if hit then Set_add urls m else urls)).
      destruct (scrapeLoop newURL kinds rest (if hit then Set_add urls m else urls))
        as [found|e|].
      - destruct IH as [Hf Hin]; [destruct hit; [now apply Set_add_NoDup | exact Hnd]|].
        split; [exact Hf|]. intro u. rewrite Hin. destruct hit.
        + rewrite Set_add_In. simpl. specialize (Hyes eq_refl).
          split; [intros [[H| ->]|[H H']]; auto | intros [H|[[<-|H] H']]; auto].
        + specialize (Hno eq_refl). simpl.
          split; [intros [H|[H H']]; auto | intros [H|[[<-|H] H']]; auto].
          contradiction.
      - destruct IH as (u & Hu & He); [destruct hit; [now apply Set_add_NoDup | exact Hnd]|].
        exists u. split; [now right | exact He].
      - apply IH. destruct hit; [now apply Set_add_NoDup | exact Hnd]. }
    pose proof (matchIssueUrl_not_starved m) as Hi.
    pose proof (matchDiscussionUrl_not_starved m) as Hd.
    destruct (Set_has kinds "issue") eqn:Ki.
    + destruct (matchIssueUrl newURL m) as [[found|]|e|] eqn:Ei;
        [| | |contradiction].
      * apply (Hnext true); [|discriminate].
        intros _. left. split; [exact Ki | now exists found].
      * destruct (Set_has kinds "discussion") eqn:Kd.
        -- destruct (matchDiscussionUrl newURL m) as [hit|e|] eqn:Ed;
             [| |contradiction].
           ++ apply (Hnext hit).
              ** intros ->. right. now split.
              ** intros -> [[_ [x Hx]]|[_ Hx]]; congruence.
           ++ exists m. split; [now left|]. right. now split.
        -- apply (Hnext false); [discriminate|].
           intros _ [[_ [x Hx]]|[Hx _]]; congruence.
      * exists m. split; [now left|]. left. now split.
    + destruct (Set_has kinds "discussion") eqn:Kd.
      * destruct (matchDiscussionUrl newURL m) as [hit|e|] eqn:Ed;
          [| |contradiction].
        -- apply (Hnext hit).
           ++ intros ->. right. now split.
           ++ intros -> [[Hx _]|[_ Hx]]; congruence.
        -- exists m. split; [now left|]. right. now split.
      * apply (Hnext false); [discriminate|].
        intros _ [[Hx _]|[Hx _]]; congruence.
Qed.

(** X6: [scrapeUrls] returns each URL once. When it returns, no URL is
    twice in the result, and the result holds exactly the matches of the
    URL pattern that are kept: the issue URLs when issues are asked for
    and the discussion URLs when discussions are. It throws only the error
    of a matcher on one of the matches. *)
Theorem scrapeUrls_deduplicates (blob : string) (kinds : list string) :
  match scrapeUrls newURL blob kinds with
  | Returned urls =>
      NoDup urls
      /\ forall u, In u urls <-> In u (matchAll 0 blob) /\ kept newURL kinds u
  | Thrown e => exists u, In u (matchAll 0 blob) /\ refused newURL kinds u e
  | Starved => False
  end.
Proof.
  unfold scrapeUrls.
  pose proof (scrapeLoop_spec kinds (matchAll 0 blob) [] (NoDup_nil _)) as H.
  destruct (scrapeLoop newURL kinds (matchAll 0 blob) []) as [urls|e|];
    [|exact H|exact H].
  destruct H as [Hnd Hin]. split; [exact Hnd|].
  intro u. rewrite Hin. simpl. tauto.
Qed.

End Matching.

End UrlProperties.

(* ===================================================================== *)
(** ** Collections: grouping, status, charts, sorting *)
(* ===================================================================== *)

Lemma Map_has_In {V} (m : JsMap V) (key : string) :
  Map_has m key = true <-> In key (map fst m).
Proof.
  unfold Map_has. induction m as [|[k v] m IH]; simpl.
  - split; [discriminate | intros []].
  - destruct (String.eqb k key) eqn:E.
    + apply String.eqb_eq in E. split; [now left | reflexivity].
    + apply String.eqb_neq in E. rewrite IH. split; [now right | now intros [|]].
Qed.

Lemma Map_update_keys {V} (m : JsMap V) (key : string) (f : V -> V) :
  map fst (Map_update m key f) = map fst m.
Proof.
  induction m as [|[k v] m IH]; simpl; [reflexivity|].
  destruct (String.eqb k key); simpl; [reflexivity | now rewrite IH].
Qed.

Lemma Map_update_Forall {V} (P : V -> Prop) (m : JsMap V) (key : string)
      (f : V -> V) :
  (forall v, P v -> P (f v)) ->
  Forall (fun entry => P (snd entry)) m ->
  Forall (fun entry => P (snd entry)) (Map_update m key f).
Proof.
  intros Hf. induction 1 as [|[k v] m Hv Hm IH]; simpl; [constructor|].
  destruct (String.eqb k key); constructor; try assumption.
  simpl in *. now apply Hf.
Qed.

Lemma Map_update_absent {V} (m : JsMap V) (key : string) (v : V) (f : V -> V) :
  Map_has m key = false ->
  Map_update (m ++ [(key, v)])%list key f = (m ++ [(key, f v)])%list.
Proof.
  unfold Map_has. induction m as [|[k x] m IH]; simpl.
  - now rewrite String.eqb_refl.
  - destruct (String.eqb k key); [discriminate|]. intro H. now rewrite IH.
Qed.

Lemma Map_new_distinct {V} (entries : list (string * V)) :
  NoDup (map fst entries) -> Map_new entries = entries.
Proof.
  unfold Map_new.
  assert (H : forall acc : JsMap V,
             NoDup (map fst (acc ++ entries)%list) ->
             fold_left (fun m entry => Map_set m (fst entry) (snd entry))
                       entries acc
             = (acc ++ entries)%list).
  { induction entries as [|[k v] entries IH]; intros acc Hnd; simpl.
    - now rewrite app_nil_r.
    - assert (Habsent : Map_has acc k = false).
      { destruct (Map_has acc k) eqn:E; [|reflexivity].
        apply Map_has_In in E. rewrite map_app in Hnd. simpl in Hnd.
        apply NoDup_remove_2 in Hnd. exfalso. apply Hnd.
        apply in_or_app. now left. }
      unfold Map_set at 2. rewrite Habsent. cbn [fst snd].
      rewrite IH; rewrite <- app_assoc; [reflexivity | exact Hnd]. }
  intro Hnd. apply (H [] Hnd).
Qed.

Lemma filter_permutation {A} (p : A -> bool) (l l' : list A) :
  Permutation l l' -> Permutation (filter p l) (filter p l').
Proof.
  induction 1 as [|x l l' _ IH|x y l|l l' l'' _ IH1 _ IH2];
    simpl; [constructor| | |].
  - destruct (p x); [now constructor | exact IH].
  - destruct (p x), (p y); try reflexivity. apply perm_swap.
  - eapply Permutation_trans; eassumption.
Qed.

Section GroupShape.

Context {Comment ProjectField IssueFieldValue : Type}.
Variable K : Collaborators Comment ProjectField IssueFieldValue.

Local Abbreviation Wrapper :=
  (IssueWrapper Comment ProjectField IssueFieldValue).
Local Abbreviation Collection :=
  (IssueList Comment ProjectField IssueFieldValue).

Variable this : Collection.
Variable fieldName : string.

Local Abbreviation plain_group := (plain_group_of this).

Lemma push_issue_filled (w : Wrapper) (g : Collection) : filled (push_issue w g).
Proof. unfold filled, push_issue. simpl. now destruct (issues g). Qed.

Lemma Map_update_filled (groups : JsMap Collection) (key : string) (w : Wrapper) :
  Forall (fun entry => filled (snd entry)) groups ->
  Forall (fun entry => filled (snd entry))
         (Map_update groups key (push_issue w)).
Proof.
  apply Map_update_Forall. intros g _. apply push_issue_filled.
Qed.

Lemma groupBy_step_shape (groups : JsMap Collection) (w : Wrapper) :
  Forall (fun entry => plain_group (snd entry)) groups ->
  Forall (fun entry => filled (snd entry)) groups ->
  NoDup (map fst groups) ->
  Forall (fun entry => plain_group (snd entry))
         (groupBy_step K this fieldName groups w)
  /\ Forall (fun entry => filled (snd entry))
            (groupBy_step K this fieldName groups w)
  /\ NoDup (map fst (groupBy_step K this fieldName groups w)).
Proof.
  intros Hplain Hfilled Hnd. unfold groupBy_step. cbv zeta.
  set (key := IssueWrapper_status K w fieldName).
  destruct (Map_has groups key) eqn:Ehas; cbn [negb].
  - split; [|split].
    + apply Map_update_Forall; [|exact Hplain]. intros g Hg. exact Hg.
    + now apply Map_update_filled.
    + now rewrite Map_update_keys.
  - unfold Map_set. rewrite Ehas. rewrite Map_update_absent by exact Ehas.
    split; [|split].
    + apply Forall_app. split; [exact Hplain|].
      constructor; [|constructor]. repeat split.
    + apply Forall_app. split; [exact Hfilled|].
      constructor; [|constructor]. apply push_issue_filled.
    + rewrite map_app. simpl. apply NoDup_app; [exact Hnd | repeat constructor; intros [] |].
      intros k Hk [<-|[]]. apply Map_has_In in Hk. congruence.
Qed.

Lemma groupBy_groups_shape :
  Forall (fun entry => plain_group (snd entry)) (groupBy_groups K this fieldName)
  /\ Forall (fun entry => filled (snd entry)) (groupBy_groups K this fieldName)
  /\ NoDup (map fst (groupBy_groups K this fieldName)).
Proof.
  unfold groupBy_groups.
  assert (H : forall ws groups,
             Forall (fun entry => plain_group (snd entry)) groups ->
             Forall (fun entry => filled (snd entry)) groups ->
             NoDup (map fst groups) ->
             Forall (fun entry => plain_group (snd entry))
                    (fold_left (groupBy_step K this fieldName) ws groups)
             /\ Forall (fun entry => filled (snd entry))
                       (fold_left (groupBy_step K this fieldName) ws groups)
             /\ NoDup (map fst (fold_left (groupBy_step K this fieldName) ws groups))).
  { induction ws as [|w ws IH]; intros groups H1 H2 H3; simpl; [auto|].
    destruct (groupBy_step_shape groups w H1 H2 H3) as (H1' & H2' & H3').
    now apply IH. }
  apply H; constructor.
Qed.

Local Abbreviation sortedGroups := (sortedGroups K this fieldName).

Lemma sortedGroups_perm :
  Permutation sortedGroups (groupBy_groups K this fieldName).
Proof. apply Array_sort_perm. Qed.

Lemma groupBy_sortedGroups :
  IssueList_groupBy K this fieldName = map snd sortedGroups.
Proof. reflexivity. Qed.

Lemma sortedGroups_ok :
  Forall (group_ok K fieldName) sortedGroups
  /\ Forall (fun entry => group_of this (snd entry)) sortedGroups
  /\ NoDup (map fst sortedGroups)
  /\ Permutation (members sortedGroups) (issues this).
Proof.
  destruct (groupBy_groups_ok K this fieldName) as [Hok Hperm].
  destruct groupBy_groups_shape as (Hplain & Hfilled & Hnd).
  pose proof sortedGroups_perm as Hs. apply Permutation_sym in Hs.
  split; [|split; [|split]].
  - eapply Permutation_Forall; eassumption.
  - eapply Permutation_Forall; [exact Hs|].
    apply Forall_forall. intros entry Hin.
    rewrite Forall_forall in Hplain, Hfilled.
    specialize (Hplain entry Hin). specialize (Hfilled entry Hin).
    destruct Hplain as (? & ? & ? & ? & ? & ?). repeat split; assumption.
  - eapply Permutation_NoDup; [apply Permutation_map, Hs | exact Hnd].
  - eapply Permutation_trans; [|exact Hperm].
    unfold members. apply Permutation_flat_map. now apply Permutation_sym.
Qed.

End GroupShape.

Section CollectionViews.

Context {Comment ProjectField IssueFieldValue : Type}.
Variable K : Collaborators Comment ProjectField IssueFieldValue.

Local Abbreviation Wrapper :=
  (IssueWrapper Comment ProjectField IssueFieldValue).
Local Abbreviation Collection :=
  (IssueList Comment ProjectField IssueFieldValue).

Lemma groupKeys_sorted (fieldName : string) (entries : JsMap Collection) :
  Forall (group_ok K fieldName) entries ->
  map (fun g => IssueList_groupKey g) (map snd entries)
  = map (fun entry => Returned (fst entry)) entries.
Proof.
  induction 1 as [|entry entries Hok _ IH]; simpl; [reflexivity|].
  now rewrite (group_ok_groupKey K fieldName entry Hok), IH.
Qed.

Lemma members_length (entries : JsMap Collection) :
  Forall (fun entry => filled (snd entry)) entries ->
  (List.length entries <= List.length (members entries))%nat.
Proof.
  unfold members.
  induction 1 as [|entry entries Hf _ IH]; simpl; [lia|].
  rewrite length_app. unfold filled in Hf. unfold IssueList in *.
  destruct (issues (snd entry)); [contradiction | simpl; lia].
Qed.

(** X7: the groups of [groupBy]. No two groups have the same group key;
    every group holds at least one entity, has the title and the URL of
    the collection, and has no organization, no project number and both
    fetch flags off, whatever the collection has; there are at most as
    many groups as entities. *)
Theorem groupBy_distinct_groups (this : Collection) (fieldName : string) :
  NoDup (map (fun g => IssueList_groupKey g) (IssueList_groupBy K this fieldName))
  /\ Forall (group_of this) (IssueList_groupBy K this fieldName)
  /\ (List.length (IssueList_groupBy K this fieldName)
      <= List.length (issues this))%nat.
Proof.
  destruct (sortedGroups_ok K this fieldName) as (Hok & Hgroup & Hnd & Hperm).
  rewrite groupBy_sortedGroups. split; [|split].
  - rewrite (groupKeys_sorted fieldName _ Hok).
    rewrite <- (map_map fst (fun key => Returned key)).
    apply Finite.Injective_map_NoDup; [|exact Hnd].
    intros a b H. now inversion H.
  - apply Forall_map. exact Hgroup.
  - rewrite length_map, <- (Permutation_length Hperm).
    apply members_length. eapply Forall_impl; [|exact Hgroup].
    intros entry H. apply H.
Qed.

(** X8: the status of a collection. [IssueList.status] is [undefined] on
    a collection without entities and on no other; otherwise it is the
    status of one of the entities, and is not the empty string. *)
Theorem list_status_of_member (this : Collection) (fieldName : string) :
  match IssueList_status K this fieldName with
  | None => issues this = []
  | Some status =>
      status <> ""
      /\ exists w, In w (issues this)
                   /\ IssueWrapper_status K w fieldName = status
  end.
Proof.
  unfold IssueList_status.
  pose proof (Array_sort_perm (compareKeys K)
                (map (fun w => IssueWrapper_status K w fieldName) (issues this)))
    as Hperm.
  destruct (Array_sort _ _) as [|status rest]; simpl.
  - apply Permutation_nil in Hperm. now apply map_eq_nil in Hperm.
  - assert (Hin : In status (map (fun w => IssueWrapper_status K w fieldName)
                                 (issues this))).
    { eapply Permutation_in; [exact Hperm | now left]. }
    apply in_map_iff in Hin. destruct Hin as (w & Hw & Hin).
    split; [rewrite <- Hw; apply status_nonempty | now exists w].
Qed.

(** *** [chart] *)

Lemma chartEntries_sorted (fieldName : string) (entries : JsMap Collection) :
  Forall (group_ok K fieldName) entries ->
  chartEntries (map snd entries)
  = Returned (map (fun entry => (fst entry, IssueList_length (snd entry)))
                  entries).
Proof.
  induction 1 as [|entry entries Hok _ IH]; simpl; [reflexivity|].
  now rewrite (group_ok_groupKey K fieldName entry Hok), IH.
Qed.

Lemma filter_same_status (fieldName key status : string) (ws : list Wrapper) :
  Forall (fun w => IssueWrapper_status K w fieldName = status) ws ->
  withStatus K fieldName key ws = if String.eqb status key then ws else [].
Proof.
  unfold withStatus. induction 1 as [|w ws Hw _ IH]; simpl.
  - now destruct (String.eqb status key).
  - rewrite Hw, IH. now destruct (String.eqb status key).
Qed.

Lemma withStatus_app (fieldName key : string) (a b : list Wrapper) :
  withStatus K fieldName key (a ++ b)
  = (withStatus K fieldName key a ++ withStatus K fieldName key b)%list.
Proof. apply filter_app. Qed.

Lemma withStatus_others (fieldName : string) (entries : JsMap Collection)
      (key : string) :
  Forall (group_ok K fieldName) entries ->
  ~ In key (map fst entries) ->
  withStatus K fieldName key (members entries) = [].
Proof.
  induction 1 as [|other entries Hother Hok IH]; [reflexivity|].
  intro Hnotin. simpl in Hnotin.
  change (members (other :: entries))
    with (issues (snd other) ++ members entries)%list.
  rewrite withStatus_app.
  rewrite (filter_same_status fieldName key (fst other))
    by (destruct Hother as (_ & _ & Hall); exact Hall).
  destruct (String.eqb (fst other) key) eqn:E.
  - apply String.eqb_eq in E. exfalso. apply Hnotin. now left.
  - simpl. apply IH. intro H. apply Hnotin. now right.
Qed.

Lemma withStatus_members (fieldName : string) (entries : JsMap Collection)
      (key : string) (group : Collection) :
  Forall (group_ok K fieldName) entries ->
  NoDup (map fst entries) ->
  In (key, group) entries ->
  withStatus K fieldName key (members entries) = issues group.
Proof.
  intros Hok. induction Hok as [|entry entries Hentry Hok IH]; [intros _ []|].
  simpl map. intros Hnd Hin. inversion Hnd as [|k ks Hnotin Hnd']. subst.
  change (members (entry :: entries))
    with (issues (snd entry) ++ members entries)%list.
  rewrite withStatus_app.
  rewrite (filter_same_status fieldName key (fst entry))
    by (destruct Hentry as (_ & _ & Hall); exact Hall).
  destruct Hin as [->|Hin].
  - cbn [fst snd] in *. rewrite String.eqb_refl.
    rewrite (withStatus_others fieldName entries key Hok Hnotin).
    apply app_nil_r.
  - destruct (String.eqb (fst entry) key) eqn:E.
    + apply String.eqb_eq in E. exfalso. apply Hnotin.
      apply in_map_iff. exists (key, group). now split.
    + simpl. now apply IH.
Qed.

Lemma list_sum_members (entries : JsMap Collection) :
  list_sum (map (fun entry => IssueList_length (snd entry)) entries)
  = List.length (members entries).
Proof.
  induction entries as [|entry entries IH]; simpl; [reflexivity|].
  rewrite length_app, IH. reflexivity.
Qed.

(** X9: the chart of a collection. [chart] never throws. On a collection
    without entities it returns the error text. Otherwise it hands
    [barChart] a map with one entry for each status that occurs, in the
    order of the groups of [groupBy], whose number is the number of
    entities of that status: no number is zero and the numbers add up to
    the number of entities of the collection. The title is the one given
    unless that is missing or empty. *)
Theorem chart_counts_entities
        (barChart : JsMap nat -> string -> string -> string)
        (this : Collection) (fieldName : string) (title : option string) :
  exists data,
    IssueList_chart K barChart this fieldName title
    = Returned
        (if IssueList_isEmpty this then noIssuesForChart
         else barChart data fieldName
                (match title with
                 | Some (String c rest) => String c rest
                 | _ => "Number of Issues by " ++ fieldName
                 end))
    /\ map (fun entry => Returned (fst entry)) data
       = map (fun g => IssueList_groupKey g) (IssueList_groupBy K this fieldName)
    /\ NoDup (map fst data)
    /\ list_sum (map snd data) = List.length (issues this)
    /\ Forall (fun entry =>
                 snd entry
                 = List.length (withStatus K fieldName (fst entry) (issues this))
                 /\ (0 < snd entry)%nat)
              data.
Proof.
  destruct (sortedGroups_ok K this fieldName) as (Hok & Hgroup & Hnd & Hperm).
  set (entries := sortedGroups K this fieldName) in *.
  exists (map (fun entry => (fst entry, IssueList_length (snd entry))) entries).
  assert (Hkeys : map fst (map (fun entry : string * Collection =>
                                  (fst entry, IssueList_length (snd entry)))
                               entries)
                  = map fst entries).
  { rewrite map_map. reflexivity. }
  split; [|split; [|split; [|split]]].
  - unfold IssueList_chart. cbv zeta. rewrite groupBy_sortedGroups.
    fold entries. rewrite length_map.
    rewrite (chartEntries_sorted fieldName entries Hok).
    rewrite Map_new_distinct by (rewrite Hkeys; exact Hnd).
    assert (Htitle : or_else (string_or_empty title)
                             ("Number of Issues by " ++ fieldName)
                     = match title with
                       | Some (String c rest) => String c rest
                       | _ => "Number of Issues by " ++ fieldName
                       end)
      by (destruct title as [[|c t]|]; reflexivity).
    rewrite Htitle. unfold IssueList_isEmpty.
    rewrite <- (Permutation_length Hperm).
    pose proof (members_length entries) as Hlen.
    destruct entries as [|entry rest]; [reflexivity|].
    assert (Hpos : (List.length (entry :: rest)
                    <= List.length (members (entry :: rest)))%nat).
    { apply Hlen. eapply Forall_impl; [|exact Hgroup]. intros e H. apply H. }
    destruct (List.length (members (entry :: rest))) as [|n] eqn:El;
      [simpl in Hpos; lia | reflexivity].
  - rewrite groupBy_sortedGroups. fold entries.
    rewrite (groupKeys_sorted fieldName entries Hok), map_map. reflexivity.
  - rewrite Hkeys. exact Hnd.
  - rewrite map_map. cbn [snd].
    rewrite list_sum_members. now apply Permutation_length.
  - apply Forall_map. apply Forall_forall. intros [key group] Hin. cbn [fst snd].
    assert (Hcount : withStatus K fieldName key (members entries) = issues group)
      by (eapply withStatus_members; eassumption).
    assert (Hsame : List.length (withStatus K fieldName key (issues this))
                    = List.length (withStatus K fieldName key (members entries))).
    { apply Permutation_length, Permutation_sym. unfold withStatus.
      apply filter_permutation. exact Hperm. }
    rewrite Hsame, Hcount. split; [reflexivity|].
    rewrite Forall_forall in Hgroup. destruct (Hgroup _ Hin) as (Hfilled & _).
    unfold IssueList_length. simpl in Hfilled.
    destruct (issues group); [contradiction | simpl; lia].
Qed.

(** *** [sort] and [blame] *)

End CollectionViews.

Lemma sort_insert_filter {A} (compare : A -> A -> Z) (p : A -> bool)
      (x : A) (l : list A) :
  (forall y, In y l -> p x = true -> p y = true -> (compare x y <= 0)%Z) ->
  filter p (sort_insert compare x l)
  = if p x then x :: filter p l else filter p l.
Proof.
  induction l as [|y l IH]; intro H; simpl; [reflexivity|].
  destruct (compare x y <=? 0)%Z eqn:E; [reflexivity|].
  simpl. rewrite IH by (intros z Hz; apply H; now right).
  destruct (p x) eqn:Px, (p y) eqn:Py; try reflexivity.
  apply Z.leb_gt in E. specialize (H y (or_introl eq_refl) eq_refl Py). lia.
Qed.

Lemma Array_sort_filter {A} (compare : A -> A -> Z) (p : A -> bool) (l : list A) :
  (forall x y, p x = true -> p y = true -> (compare x y <= 0)%Z) ->
  filter p (Array_sort compare l) = filter p l.
Proof.
  intro H. unfold Array_sort.
  induction l as [|x l IH]; simpl; [reflexivity|].
  rewrite sort_insert_filter by (intros y _; apply H). now rewrite IH.
Qed.

Section SortAndBlame.

Context {Comment ProjectField IssueFieldValue : Type}.
Variable K : Collaborators Comment ProjectField IssueFieldValue.

Local Abbreviation Wrapper :=
  (IssueWrapper Comment ProjectField IssueFieldValue).
Local Abbreviation Collection :=
  (IssueList Comment ProjectField IssueFieldValue).

(** X10: [sort] reorders and nothing else. The sorted collection holds the
    entities of the collection, each as often as before; its title, URL,
    group key, organization, project number and fetch flags are
    untouched; and the sort is stable: the entities of one status, when
    the comparator finds that status equal to itself, stay in the order
    they were in, in either direction. *)
Theorem sort_is_stable (this : Collection) (fieldName : string)
        (descending : bool) :
  Permutation (issues (IssueList_sort K this fieldName descending))
              (issues this)
  /\ sourceOfTruth (IssueList_sort K this fieldName descending)
     = sourceOfTruth this
  /\ organization (IssueList_sort K this fieldName descending)
     = organization this
  /\ projectNumber (IssueList_sort K this fieldName descending)
     = projectNumber this
  /\ commentsFetched (IssueList_sort K this fieldName descending)
     = commentsFetched this
  /\ projectFieldsFetched (IssueList_sort K this fieldName descending)
     = projectFieldsFetched this
  /\ forall status,
       compareValues K status status = 0%Z ->
       withStatus K fieldName status
                  (issues (IssueList_sort K this fieldName descending))
       = withStatus K fieldName status (issues this).
Proof.
  split; [apply Array_sort_perm|]. repeat split.
  intros status Hrefl. unfold IssueList_sort, withStatus. cbn [issues set_issues].
  apply Array_sort_filter. intros a b Ha Hb.
  apply String.eqb_eq in Ha, Hb. rewrite Ha, Hb, Hrefl.
  destruct descending; simpl; lia.
Qed.

(** X11: [blame] is a view of the stale entities. It holds, in their
    order, the entities of the collection for which no latest update is
    found; it has the title of the collection followed by
    [ - Stale Updates], and the URL and the group key of the collection,
    so the blame view of a group still answers [groupKey]. Taking the
    blame view of a blame view finds the same entities and appends to the
    title once more. *)
Theorem blame_keeps_stale (this : Collection)
        (strategiesBlob : option (string + list string)) :
  (forall w,
      In w (issues (IssueList_blame K this strategiesBlob))
      <-> In w (issues this)
          /\ latestUpdates K w (IssueWrapper_comments w) 1 strategiesBlob = [])
  /\ IssueList_title (IssueList_blame K this strategiesBlob)
     = IssueList_title this ++ " - Stale Updates"
  /\ IssueList_url (IssueList_blame K this strategiesBlob) = IssueList_url this
  /\ IssueList_groupKey (IssueList_blame K this strategiesBlob)
     = IssueList_groupKey this
  /\ issues (IssueList_blame K (IssueList_blame K this strategiesBlob)
                             strategiesBlob)
     = issues (IssueList_blame K this strategiesBlob)
  /\ IssueList_title
       (IssueList_blame K (IssueList_blame K this strategiesBlob) strategiesBlob)
     = (IssueList_title this ++ " - Stale Updates") ++ " - Stale Updates".
Proof.
  split; [|repeat split].
  - intro w. unfold IssueList_blame, IssueList_filter, IssueList_copy.
    cbn [issues set_issues set_sourceOfTruth IssueList_new].
    rewrite filter_In, Nat.eqb_eq, length_zero_iff_nil. reflexivity.
  - unfold IssueList_blame, IssueList_filter, IssueList_copy.
    cbn [issues set_issues set_sourceOfTruth IssueList_new].
    induction (issues this) as [|w ws IH]; simpl; [reflexivity|].
    destruct (_ =? 0)%nat eqn:E; simpl; [now rewrite E, IH | exact IH].
Qed.

End SortAndBlame.

(* ===================================================================== *)
(** ** Collections: fetching *)
(* ===================================================================== *)

Section ListFetching.

Context {Comment ProjectField IssueFieldValue : Type}.
Variable K : Collaborators Comment ProjectField IssueFieldValue.

Local Abbreviation Wrapper :=
  (IssueWrapper Comment ProjectField IssueFieldValue).
Local Abbreviation Collection :=
  (IssueList Comment ProjectField IssueFieldValue).
Local Abbreviation Parameters :=
  (IssueFetchParameters Comment ProjectField IssueFieldValue).

Lemma same_issue_set_comments (q : GetIssueParameters) (c : list Comment)
      (w : Wrapper) :
  same_issue q (IssueWrapper_set_comments c w) = same_issue q w.
Proof. now destruct w. Qed.

Lemma same_issue_set_project (q : GetIssueParameters)
      (project : Project ProjectField) (w : Wrapper) :
  same_issue q (IssueWrapper_set_project project w) = same_issue q w.
Proof. now destruct w. Qed.

Lemma assignFound_none (q : GetIssueParameters) (change : Wrapper -> Wrapper)
      (ws : list Wrapper) :
  assignFound q change ws = None <-> find (same_issue q) ws = None.
Proof.
  induction ws as [|w ws IH]; simpl; [tauto|].
  destruct (same_issue q w); [split; discriminate|].
  rewrite <- IH. destruct (assignFound q change ws); simpl; split;
    congruence.
Qed.

Lemma assignFound_find (p q : GetIssueParameters) (change : Wrapper -> Wrapper)
      (ws ws' : list Wrapper) :
  (forall w, same_issue q (change w) = same_issue q w) ->
  assignFound p change ws = Some ws' ->
  (find (same_issue q) ws' = None <-> find (same_issue q) ws = None).
Proof.
  intro Hsame. revert ws'. induction ws as [|w ws IH]; intros ws'; simpl;
    [discriminate|].
  destruct (same_issue p w).
  - intro H. inversion H. subst ws'. simpl. rewrite Hsame.
    destruct (same_issue q w); [split; discriminate | reflexivity].
  - destruct (assignFound p change ws) as [rest|]; [|discriminate].
    intro H. inversion H. subst ws'. simpl.
    destruct (same_issue q w); [reflexivity | now apply IH].
Qed.

(** The loop of [fetchComments] sends nothing, leaves the flags alone, and
    throws only for an entry whose issue the collection does not hold. *)
Lemma assignComments_spec (entries : list (GetIssueParameters * list Comment)) :
  forall (l : Collection) (log : list Event),
    match assignComments K entries l log with
    | (Returned _, l', log') =>
        log' = log /\ commentsFetched l' = commentsFetched l
    | (Thrown e, l', log') =>
        log' = log /\ commentsFetched l' = commentsFetched l
        /\ exists params comments,
             In (params, comments) entries
             /\ IssueList_find l params = None
             /\ e = nonexistentIssue K params
    | (Starved, _, _) => False
    end.
Proof.
  induction entries as [|[p c] entries IH]; intros l log.
  - simpl. now split.
  - cbn [assignComments]. unfold Eff.bind at 1, Eff.this at 1.
    destruct (assignFound p (IssueWrapper_set_comments c) (issues l))
      as [ws|] eqn:E.
    + unfold Eff.bind at 1, Eff.assign at 1.
      specialize (IH (set_issues ws l) log).
      destruct (assignComments K entries (set_issues ws l) log)
        as [[[u|e|] l'] log'].
      * exact IH.
      * destruct IH as (Hlog & Hflag & q & c' & Hin & Hfind & He).
        split; [exact Hlog | split; [exact Hflag|]].
        exists q, c'. split; [now right | split; [|exact He]].
        unfold IssueList_find in *. cbn [issues set_issues] in Hfind.
        apply (assignFound_find p q _ _ ws
                 (fun w => same_issue_set_comments q c w) E).
        exact Hfind.
      * exact IH.
    + unfold Eff.throw. split; [reflexivity | split; [reflexivity|]].
      exists p, c. split; [now left | split; [|reflexivity]].
      now apply assignFound_none in E.
Qed.

(** X12: the comments of a collection are fetched once. When
    [IssueList.fetchComments] returns, the collection is flagged, and any
    later call returns at once, sends nothing and changes nothing. When it
    throws, the flag is still off, so a later call starts over; it throws
    for a timeframe that is not one, for a request that is refused, or for
    an answer that names an issue the collection does not hold. *)
Theorem list_fetchComments_once
        (numComments : Z) (this : Collection) (log : list Event) :
  match IssueList_fetchComments K numComments this log with
  | (Returned _, this', log') =>
      commentsFetched this' = true
      /\ (forall n later,
             IssueList_fetchComments K n this' later = (Returned tt, this', later))
      /\ (commentsFetched this = true -> this' = this /\ log' = log)
  | (Thrown e, this', log') =>
      commentsFetched this = false
      /\ commentsFetched this' = false
      /\ (withinTimeframe K (timeframe K) (issues this) = Thrown e
          \/ exists selected,
               withinTimeframe K (timeframe K) (issues this) = Returned selected
               /\ (listCommentsForListOfIssues
                     K (map (fun w => issueParams w) selected) numComments
                   = inr e
                   \/ exists entries params comments,
                        listCommentsForListOfIssues
                          K (map (fun w => issueParams w) selected) numComments
                        = inl entries
                        /\ In (params, comments) entries
                        /\ IssueList_find this params = None
                        /\ e = nonexistentIssue K params))
  | (Starved, _, _) => False
  end.
Proof.
  assert (Hmemo : forall l : Collection,
             commentsFetched l = true ->
             forall n later,
               IssueList_fetchComments K n l later = (Returned tt, l, later)).
  { intros l Hl n later. unfold IssueList_fetchComments.
    unfold Eff.bind at 1, Eff.this at 1. now rewrite Hl. }
  destruct (commentsFetched this) eqn:Eflag.
  - rewrite (Hmemo this Eflag). split; [exact Eflag|].
    split; [now apply Hmemo | now intros _].
  - unfold IssueList_fetchComments.
    unfold Eff.bind at 1, Eff.this at 1. rewrite Eflag.
    unfold Eff.bind at 1, Eff.lift at 1.
    destruct (withinTimeframe K (timeframe K) (issues this))
      as [selected|e|] eqn:Ewithin.
    + unfold Eff.bind at 1, Eff.request at 1.
      change (map (issueParams (IssueFieldValue:=IssueFieldValue)) selected)
        with (map (fun w : Wrapper => issueParams w) selected).
      destruct (listCommentsForListOfIssues
                  K (map (fun w => issueParams w) selected) numComments)
        as [entries|e] eqn:Eanswer.
      * unfold Eff.bind at 1.
        pose proof (assignComments_spec entries this
                      (log ++ [Request "listCommentsForListOfIssues"
                                 (flat_map (fun w => paramsArgs (issueParams w))
                                           selected
                                  ++ [string_of_Z numComments])])%list) as Hloop.
        destruct (assignComments K entries this _) as [[[u|e|] l'] log'].
        -- unfold Eff.assign. split; [reflexivity|].
           split; [now apply Hmemo | discriminate].
        -- destruct Hloop as (_ & Hflag & p & c & Hin & Hfind & He).
           split; [reflexivity | split; [congruence|]].
           right. exists selected. split; [reflexivity|]. right.
           exists entries, p, c. repeat split; assumption.
        -- exact Hloop.
      * split; [reflexivity | split; [exact Eflag|]].
        right. exists selected. split; [reflexivity | now left].
    + split; [reflexivity | split; [exact Eflag | now left]].
    + exfalso. clear Hmemo Eflag. revert Ewithin.
      induction (issues this) as [|w ws IH]; simpl; [discriminate|].
      unfold IssueWrapper_wasUpdatedWithinTimeframe.
      repeat (destruct (String.eqb (timeframe K) _);
              [destruct (withinTimeframe K (timeframe K) ws);
               [discriminate | discriminate | now apply IH] |]).
      discriminate.
Qed.

Lemma assignFound_Forall (P : Wrapper -> Prop) (q : GetIssueParameters)
      (change : Wrapper -> Wrapper) (ws ws' : list Wrapper) :
  (forall w, P (change w)) ->
  Forall P ws -> assignFound q change ws = Some ws' -> Forall P ws'.
Proof.
  intros Hchange Hall. revert ws'.
  induction Hall as [|w ws Hw Hws IH]; intros ws'; simpl; [discriminate|].
  destruct (same_issue q w).
  - intro H. inversion H. constructor; [apply Hchange | exact Hws].
  - destruct (assignFound q change ws) as [rest|]; [|discriminate].
    intro H. inversion H. constructor; [exact Hw | now apply IH].
Qed.

Lemma assignFound_length (q : GetIssueParameters)
      (change : Wrapper -> Wrapper) (ws ws' : list Wrapper) :
  assignFound q change ws = Some ws' -> List.length ws' = List.length ws.
Proof.
  revert ws'. induction ws as [|w ws IH]; intros ws'; simpl; [discriminate|].
  destruct (same_issue q w).
  - intro H. now inversion H.
  - destruct (assignFound q change ws) as [rest|]; [|discriminate].
    intro H. inversion H. simpl. now rewrite (IH rest).
Qed.

Lemma assignProjectFields_stamped (org : string) (number : Z)
      (items : list (GetIssueParameters * JsMap ProjectField)) :
  forall ws : list Wrapper,
    Forall (stamped org number) ws ->
    Forall (stamped org number)
           (fold_left (assignProjectFields org number) items ws)
    /\ List.length (fold_left (assignProjectFields org number) items ws)
       = List.length ws.
Proof.
  induction items as [|item items IH]; intros ws Hws; simpl; [now split|].
  unfold assignProjectFields at 2 4.
  destruct (assignFound (fst item) _ ws) as [ws'|] eqn:E; [|now apply IH].
  destruct (IH ws') as [Hall Hlen].
  - eapply assignFound_Forall; [|exact Hws|exact E].
    intro w. destruct w. eexists. reflexivity.
  - split; [exact Hall|]. rewrite Hlen. eapply assignFound_length, E.
Qed.

(** X13: the project fields of a collection. When
    [IssueList.fetchProjectFields] returns, the collection is flagged and
    any later call returns at once. On a collection that was not flagged
    it works with the project number of the collection when there is
    one, whatever number it is given, sends one request, and leaves every
    entity with the data of that project of the organization of the
    collection, whatever project the entity carried before. It throws
    without a request when the organization or the number is missing, and
    then, as when the request is refused, the flag stays off and the
    entities are as they were. *)
Theorem list_fetchProjectFields_stamps
        (forNumber : option Z) (this : Collection) (log : list Event) :
  match IssueList_fetchProjectFields K forNumber this log with
  | (Returned _, this', log') =>
      projectFieldsFetched this' = true
      /\ (forall n later,
             IssueList_fetchProjectFields K n this' later
             = (Returned tt, this', later))
      /\ (if projectFieldsFetched this then this' = this /\ log' = log
          else exists org number,
                 truthyString (organization this) = Some org
                 /\ effectiveProjectNumber (projectNumber this) forNumber
                    = Some number
                 /\ organization this' = organization this
                 /\ truthyNumber (projectNumber this') = Some number
                 /\ log' = (log ++ [Request "listProjectFieldsForProject"
                                      [org; string_of_Z number]])%list
                 /\ Forall (stamped org number) (issues this')
                 /\ List.length (issues this') = List.length (issues this))
  | (Thrown e, this', log') =>
      projectFieldsFetched this = false
      /\ projectFieldsFetched this' = false
      /\ issues this' = issues this
      /\ ((e = cannotFetchProjectFields /\ log' = log
           /\ (truthyString (organization this) = None
               \/ effectiveProjectNumber (projectNumber this) forNumber = None))
          \/ exists org number,
               truthyString (organization this) = Some org
               /\ effectiveProjectNumber (projectNumber this) forNumber
                  = Some number
               /\ listProjectFieldsForProject K org number = inr e
               /\ log' = (log ++ [Request "listProjectFieldsForProject"
                                    [org; string_of_Z number]])%list)
  | (Starved, _, _) => False
  end.
Proof.
  assert (Hmemo : forall l : Collection,
             projectFieldsFetched l = true ->
             forall n later,
               IssueList_fetchProjectFields K n l later = (Returned tt, l, later)).
  { intros l Hl n later. unfold IssueList_fetchProjectFields.
    unfold Eff.bind at 1, Eff.this at 1. now rewrite Hl. }
  destruct (projectFieldsFetched this) eqn:Eflag.
  - rewrite (Hmemo this Eflag). split; [exact Eflag|].
    split; [now apply Hmemo | now split].
  - unfold IssueList_fetchProjectFields.
    unfold Eff.bind at 1, Eff.this at 1. rewrite Eflag.
    unfold Eff.bind at 1.
    set (adopt := negb (GithubUrl.is_some (truthyNumber (projectNumber this)))
                  && GithubUrl.is_some (truthyNumber forNumber)).
    set (this1 := if adopt then set_projectNumber forNumber this else this).
    assert (Hwhen : when adopt (Eff.assign (set_projectNumber forNumber)) this log
                    = (Returned tt, this1, log))
      by (unfold this1; now destruct adopt).
    rewrite Hwhen. unfold Eff.bind at 1, Eff.this at 1.
    assert (Horg : organization this1 = organization this)
      by (unfold this1; now destruct adopt).
    assert (Hissues : issues this1 = issues this)
      by (unfold this1; now destruct adopt).
    assert (Hflag1 : projectFieldsFetched this1 = false)
      by (unfold this1; now destruct adopt).
    assert (Hnumber : truthyNumber (projectNumber this1)
                      = effectiveProjectNumber (projectNumber this) forNumber).
    { unfold this1, adopt, effectiveProjectNumber.
      destruct (truthyNumber (projectNumber this)) as [own|] eqn:Eown;
        [exact Eown|].
      destruct (truthyNumber forNumber) as [given|] eqn:Egiven; simpl;
        [exact Egiven | exact Eown]. }
    rewrite Horg, Hnumber.
    destruct (truthyString (organization this)) as [org|] eqn:Eorg.
    + destruct (effectiveProjectNumber (projectNumber this) forNumber)
        as [number|] eqn:Enumber.
      * unfold Eff.bind at 1, Eff.request at 1.
        destruct (listProjectFieldsForProject K org number)
          as [items|e] eqn:Eanswer.
        -- cbn [Eff.bind Eff.assign].
           split; [reflexivity | split; [now apply Hmemo|]].
           exists org, number.
           cbn [issues organization projectNumber set_issues
                set_projectFieldsFetched].
           destruct (assignProjectFields_stamped org number items
                       (map (IssueWrapper_set_project
                               {| project_organization := org;
                                  project_number := number;
                                  project_fields := [] |})
                            (issues this1))) as [Hall Hlen].
           { apply Forall_map, Forall_forall. intros w _.
             destruct w. eexists. reflexivity. }
           repeat split; try assumption.
           rewrite Hlen, length_map, Hissues. reflexivity.
        -- split; [reflexivity | split; [exact Hflag1 | split; [exact Hissues|]]].
           right. exists org, number. repeat split. exact Eanswer.
      * unfold Eff.throw.
        split; [reflexivity | split; [exact Hflag1 | split; [exact Hissues|]]].
        left. repeat split. now right.
    + unfold Eff.throw.
      split; [reflexivity | split; [exact Hflag1 | split; [exact Hissues|]]].
      left. repeat split. now left.
Qed.

(** *** What the fetch of a collection keeps *)

Lemma keepsMetadata_refl (l : Collection) : keepsMetadata l l.
Proof. unfold keepsMetadata. repeat split; auto. Qed.

Lemma keepsMetadata_trans (a b c : Collection) :
  keepsMetadata a b -> keepsMetadata b c -> keepsMetadata a c.
Proof.
  unfold keepsMetadata.
  intros (H1 & H2 & H3 & H4 & H5 & H6) (G1 & G2 & G3 & G4 & G5 & G6).
  repeat split; try congruence; auto. lia.
Qed.

Ltac keeps_metadata :=
  first [ exact keepsMetadata_refl | exact keepsMetadata_trans ].

Lemma assignComments_keeps
      (entries : list (GetIssueParameters * list Comment)) :
  preserves keepsMetadata (assignComments K entries).
Proof.
  induction entries as [|[params comments] entries IH]; intros l log;
    cbn [assignComments].
  - apply keepsMetadata_refl.
  - unfold Eff.bind at 1. unfold Eff.this at 1.
    destruct (assignFound params (IssueWrapper_set_comments comments)
                          (issues l)) as [ws|] eqn:E.
    + unfold Eff.bind at 1. unfold Eff.assign at 1.
      apply keepsMetadata_trans with (set_issues ws l); [|apply IH].
      unfold keepsMetadata. cbn [issues set_issues sourceOfTruth organization
                                 projectNumber commentsFetched
                                 projectFieldsFetched].
      rewrite (assignFound_length _ _ _ _ E). repeat split; auto.
    + apply keepsMetadata_refl.
Qed.

Lemma list_fetchComments_keeps (numComments : Z) :
  preserves keepsMetadata (IssueList_fetchComments K numComments).
Proof.
  unfold IssueList_fetchComments.
  apply preserves_bind; try keeps_metadata; [apply preserves_this; keeps_metadata|].
  intro this. destruct (commentsFetched this);
    [apply preserves_ret; keeps_metadata|].
  apply preserves_bind; try keeps_metadata; [apply preserves_lift; keeps_metadata|].
  intro selected.
  apply preserves_bind; try keeps_metadata;
    [apply preserves_request; keeps_metadata|].
  intro commentsMap.
  apply preserves_bind; try keeps_metadata; [apply assignComments_keeps|].
  intros _. apply preserves_assign. intro l.
  unfold keepsMetadata. repeat split; auto.
Qed.

Lemma list_fetchProjectFields_own (number : Z) (l : Collection)
      (log : list Event) :
  truthyNumber (projectNumber l) = Some number ->
  keepsMetadata l
    (snd (fst (IssueList_fetchProjectFields K (Some number) l log))).
Proof.
  intro Hown. unfold IssueList_fetchProjectFields.
  unfold Eff.bind at 1, Eff.this at 1.
  destruct (projectFieldsFetched l) eqn:Eflag; [apply keepsMetadata_refl|].
  unfold Eff.bind at 1. rewrite Hown. cbn [GithubUrl.is_some negb andb when Eff.ret].
  unfold Eff.bind at 1, Eff.this at 1. rewrite Hown.
  destruct (truthyString (organization l)) as [org|]; [|apply keepsMetadata_refl].
  unfold Eff.bind at 1, Eff.request at 1.
  destruct (listProjectFieldsForProject K org number) as [items|e];
    [|apply keepsMetadata_refl].
  cbn [Eff.bind Eff.assign fst snd]. unfold keepsMetadata.
  cbn [issues set_issues sourceOfTruth organization projectNumber
       commentsFetched projectFieldsFetched set_projectFieldsFetched].
  destruct (assignProjectFields_stamped org number items
              (map (IssueWrapper_set_project
                      {| project_organization := org;
                         project_number := number;
                         project_fields := [] |})
                   (issues l))) as [_ Hlen].
  { apply Forall_map, Forall_forall. intros w _. destruct w. eexists. reflexivity. }
  rewrite Hlen, length_map. repeat split; auto.
Qed.

Lemma forEach_length {T} (m : Eff T unit) (xs : list T) (log : list Event) :
  List.length (snd (fst (Eff.forEach m xs log))) = List.length xs.
Proof.
  revert log. induction xs as [|x xs IH]; intro log; simpl; [reflexivity|].
  destruct (m x log) as [[[[]|e|] x'] log']; simpl; try reflexivity.
  specialize (IH log').
  destruct (Eff.forEach m xs log') as [[r xs'] log'']. simpl in *.
  now rewrite IH.
Qed.

Lemma list_fetch_keeps
      (self : Parameters -> Eff Wrapper unit) (params : Parameters)
      (this : Collection) (log : list Event) :
  keepsMetadata this (snd (fst (IssueList_fetch_with K self params this log))).
Proof.
  unfold IssueList_fetch_with. unfold Eff.bind at 1, Eff.this at 1.
  assert (Hrest : forall u : unit,
             preserves keepsMetadata
               (when (0 <? fetch_comments params)%Z
                     (IssueList_fetchComments K (fetch_comments params)) ;;;
                Eff.assign (fun l => set_issues
                                       (IssueList_filter l (fetch_filter params)) l) ;;;
                Eff.zoom issues (@set_issues _ _ _)
                         (Eff.forEach (self params)))%eff).
  { intros _.
    apply preserves_bind; try keeps_metadata.
    { apply preserves_when; [keeps_metadata | apply list_fetchComments_keeps]. }
    intros _. apply preserves_bind; try keeps_metadata.
    { apply preserves_assign. intro l. unfold keepsMetadata, IssueList_filter.
      cbn [issues set_issues sourceOfTruth organization projectNumber
           commentsFetched projectFieldsFetched].
      repeat split; auto. apply filter_length_le. }
    intros _ l log0. unfold Eff.zoom.
    pose proof (forEach_length (self params) (issues l) log0) as Hlen.
    destruct (Eff.forEach (self params) (issues l) log0) as [[r ws] log1].
    unfold keepsMetadata.
    cbn [fst snd issues set_issues sourceOfTruth organization projectNumber
         commentsFetched projectFieldsFetched] in *.
    rewrite Hlen. repeat split; auto. }
  unfold Eff.bind at 1.
  destruct (if fetch_projectFields params
            then truthyNumber (projectNumber this) else None)
    as [number|] eqn:Enumber.
  - assert (Hown : truthyNumber (projectNumber this) = Some number)
      by (destruct (fetch_projectFields params); [exact Enumber | discriminate]).
    pose proof (list_fetchProjectFields_own number this log Hown) as Hfields.
    destruct (IssueList_fetchProjectFields K (Some number) this log)
      as [[[u|e|] l1] log1]; cbn [fst snd] in *; try exact Hfields.
    eapply keepsMetadata_trans; [exact Hfields | apply (Hrest u)].
  - unfold Eff.ret at 1. apply (Hrest tt).
Qed.

(** X14: what the fetch of a collection keeps. Whatever its outcome, and
    whatever the fetch of an entity does, [IssueList.fetch] leaves the
    title, the URL, the group key, the organization and the project
    number of the collection as they were, never adds an entity, and
    never takes back a fetch flag that was set. *)
Theorem list_fetch_keeps_metadata
        (self : Parameters -> Eff Wrapper unit) (params : Parameters)
        (this : Collection) (log : list Event) :
  sourceOfTruth (snd (fst (IssueList_fetch_with K self params this log)))
  = sourceOfTruth this
  /\ organization (snd (fst (IssueList_fetch_with K self params this log)))
     = organization this
  /\ projectNumber (snd (fst (IssueList_fetch_with K self params this log)))
     = projectNumber this
  /\ (List.length
        (issues (snd (fst (IssueList_fetch_with K self params this log))))
      <= List.length (issues this))%nat
  /\ (commentsFetched this = true ->
      commentsFetched (snd (fst (IssueList_fetch_with K self params this log)))
      = true)
  /\ (projectFieldsFetched this = true ->
      projectFieldsFetched
        (snd (fst (IssueList_fetch_with K self params this log)))
      = true).
Proof.
  destruct (list_fetch_keeps self params this log)
    as (H1 & H2 & H3 & H4 & H5 & H6).
  repeat split; assumption.
Qed.

End ListFetching.

(* ===================================================================== *)
(** ** Entities: fields, timeframes, memory *)
(* ===================================================================== *)

Section EntityProperties.

Context {Comment ProjectField IssueFieldValue : Type}.
Variable K : Collaborators Comment ProjectField IssueFieldValue.

Local Abbreviation Wrapper :=
  (IssueWrapper Comment ProjectField IssueFieldValue).
Local Abbreviation Collection :=
  (IssueList Comment ProjectField IssueFieldValue).
Local Abbreviation Parameters :=
  (IssueFetchParameters Comment ProjectField IssueFieldValue).

Lemma or_else_empty (a : string) : or_else a "" = a.
Proof.
  unfold or_else. destruct (String.eqb a "") eqn:E; [|reflexivity].
  apply String.eqb_eq in E. now subst.
Qed.

Ltac field_cases H :=
  repeat match goal with
         | |- context [String.eqb ?f (StringUtil.fuzzy ?alias)] =>
             let E := fresh "E" in
             destruct (String.eqb f (StringUtil.fuzzy alias)) eqn:E;
             try rewrite E in H; cbn [orb] in H |- *
         end.

(** X15: the names of the issue itself come first in [field]. A name
    that, once case, whitespace and underscores are forgotten, is one of
    the names of the switch is answered from the issue itself: the answer
    is the same for any spelling of the name, and does not depend on the
    project fields or the issue fields, so a custom field of such a name
    is never read. Any other name is answered from the issue fields, then
    from the project fields, under the slug of the name. *)
Theorem field_builtin_first (w : Wrapper) (fieldName : string) :
  (is_builtin fieldName = true ->
   (forall (K' : Collaborators Comment ProjectField IssueFieldValue)
           (w' : Wrapper),
       sameBuiltins w w' ->
       IssueWrapper_field K' w' fieldName = IssueWrapper_field K w fieldName)
   /\ (forall spelling,
          StringUtil.fuzzy spelling = StringUtil.fuzzy fieldName ->
          IssueWrapper_field K w spelling = IssueWrapper_field K w fieldName))
  /\ (is_builtin fieldName = false ->
      IssueWrapper_field K w fieldName
      = or_else
          (string_or_empty
             (Map_get (IssueWrapper_issueFields K w)
                      (slugifyFieldName K fieldName)))
          (string_or_empty
             (Map_get (IssueWrapper_projectFields K w)
                      (slugifyFieldName K fieldName)))).
Proof.
  split; [intro H; split|intro H].
  - intros K' w' (H1 & H2 & H3 & H4 & H5 & H6 & H7 & H8).
    unfold is_builtin, builtinFieldNames in H. cbn [existsb] in H.
    unfold IssueWrapper_field. cbv zeta.
    field_cases H;
      try discriminate H;
      unfold IssueWrapper_title, IssueWrapper__body, IssueWrapper_url,
        IssueWrapper_number, IssueWrapper_type, IssueWrapper_isSubissue,
        IssueWrapper_repo, IssueWrapper_owner, IssueWrapper_repoNameWithOwner,
        IssueWrapper_parent;
      rewrite ?H1, ?H2, ?H3, ?H4, ?H5, ?H6, ?H7, ?H8; reflexivity.
  - intros spelling Hsame.
    unfold is_builtin, builtinFieldNames in H. cbn [existsb] in H.
    unfold IssueWrapper_field. cbv zeta. rewrite Hsame.
    field_cases H; try discriminate H; reflexivity.
  - unfold is_builtin, builtinFieldNames in H. cbn [existsb] in H.
    unfold IssueWrapper_field. cbv zeta.
    field_cases H; try discriminate H.
    apply or_else_empty.
Qed.

(** X16: the timeframes nest. When a day has no negative length, an issue
    updated today was updated this week, one updated this week was updated
    this month, and one updated this month was updated this year; the same
    holds of when it was posted. [wasUpdatedWithinTimeframe] answers for
    the five timeframes it knows and throws for any other word. *)
Theorem timeframes_nest (w : Wrapper) :
  (0 <= ONE_DAY K)%Z ->
  (IssueWrapper_wasUpdatedToday K w = true ->
   IssueWrapper_wasUpdatedThisWeek K w = true)
  /\ (IssueWrapper_wasUpdatedThisWeek K w = true ->
      IssueWrapper_wasUpdatedThisMonth K w = true)
  /\ (IssueWrapper_wasUpdatedThisMonth K w = true ->
      IssueWrapper_wasUpdatedThisYear K w = true)
  /\ (IssueWrapper_wasPostedToday K w = true ->
      IssueWrapper_wasPostedThisWeek K w = true)
  /\ (IssueWrapper_wasPostedThisWeek K w = true ->
      IssueWrapper_wasPostedThisMonth K w = true)
  /\ (IssueWrapper_wasPostedThisMonth K w = true ->
      IssueWrapper_wasPostedThisYear K w = true)
  /\ forall timeframe,
       match IssueWrapper_wasUpdatedWithinTimeframe K w timeframe with
       | Returned _ => In timeframe timeframes
       | Thrown e =>
           ~ In timeframe timeframes
           /\ e = "Invalid Timeframe for Issue filtering: " ++ dquote
                    ++ timeframe ++ dquote ++ "."
       | Starved => False
       end.
Proof.
  intro Hday.
  unfold IssueWrapper_wasUpdatedToday, IssueWrapper_wasUpdatedThisWeek,
    IssueWrapper_wasUpdatedThisMonth, IssueWrapper_wasUpdatedThisYear,
    IssueWrapper_wasPostedToday, IssueWrapper_wasPostedThisWeek,
    IssueWrapper_wasPostedThisMonth, IssueWrapper_wasPostedThisYear,
    IssueWrapper_wasUpdatedSince, IssueWrapper_wasPostedSince.
  rewrite !Z.ltb_lt.
  repeat (split; [nia|]).
  intro timeframe. unfold IssueWrapper_wasUpdatedWithinTimeframe, timeframes.
  destruct (String.eqb timeframe "all-time") eqn:E1;
    [apply String.eqb_eq in E1; subst; simpl; tauto|].
  destruct (String.eqb timeframe "today") eqn:E2;
    [apply String.eqb_eq in E2; subst; simpl; tauto|].
  destruct (String.eqb timeframe "last-week") eqn:E3;
    [apply String.eqb_eq in E3; subst; simpl; tauto|].
  destruct (String.eqb timeframe "last-month") eqn:E4;
    [apply String.eqb_eq in E4; subst; simpl; tauto|].
  destruct (String.eqb timeframe "last-year") eqn:E5;
    [apply String.eqb_eq in E5; subst; simpl; tauto|].
  apply String.eqb_neq in E1, E2, E3, E4, E5.
  split; [|reflexivity]. simpl. intuition congruence.
Qed.

End EntityProperties.

Section BodyGetter.

Context {Comment ProjectField IssueFieldValue : Type}.
Variable K : Collaborators Comment ProjectField IssueFieldValue.

Local Abbreviation Wrapper :=
  (IssueWrapper Comment ProjectField IssueFieldValue).

Hypothesis isTruthy_true : isTruthy K (JsBool true) = true.
Hypothesis isTruthy_false : isTruthy K (JsBool false) = false.

Lemma bodyOptions_validated :
  RenderConfig.validateRenderOptions (isTruthy K) (Number K) (ToString K)
                                     bodyOptions
  = Returned bodyRenderOptions.
Proof.
  unfold RenderConfig.validateRenderOptions.
  change (RenderConfig.invalidKeys bodyOptions) with (@nil string).
  cbn [List.length Nat.ltb Nat.leb].
  change (prop bodyOptions "field") with JsUndefined.
  change (prop bodyOptions "fields") with JsUndefined.
  change (prop bodyOptions "updates") with (JsNumber (Some 0%Z)).
  change (prop bodyOptions "header") with JsUndefined.
  change (prop bodyOptions "body") with (JsBool true).
  change (prop bodyOptions "author") with JsUndefined.
  change (prop bodyOptions "createdAt") with JsUndefined.
  change (prop bodyOptions "updatedAt") with JsUndefined.
  change (prop bodyOptions "subissues") with (JsBool false).
  change (prop bodyOptions "relatedIssues") with JsUndefined.
  change (prop bodyOptions "skipIfEmpty") with JsUndefined.
  cbn. rewrite isTruthy_true, isTruthy_false. reflexivity.
Qed.

Lemma render_body_options (this : Wrapper) :
  wrapper_relatedIssues this = None ->
  fst (renderIssue K this bodyRenderOptions 3)
  = if String.eqb (IssueWrapper__body this) "" then None
    else Some {| markdown := "### " ++ IssueWrapper_header this ++ nl ++ nl
                               ++ IssueWrapper__body this ++ nl ++ nl;
                 sources := [IssueWrapper_url this] |}.
Proof.
  intro Hrelated. rewrite renderIssue_unfold. unfold renderIssue_with.
  unfold resolveDefaults. cbn [subissues relatedIssues bodyRenderOptions
                               set_render_relatedIssues].
  rewrite Hrelated. unfold nothingToRender.
  cbn [header body updates createdAt updatedAt fields subissues
       relatedIssues skipIfEmpty set_render_relatedIssues bodyRenderOptions
       GithubUrl.is_some requested negb orb andb Z.eqb fst snd
       List.length Nat.ltb Nat.leb].
  destruct (String.eqb (IssueWrapper__body this) ""); cbn [fst]; [reflexivity|].
  cbn [andb fst append repeat_string]. rewrite !string_app_assoc. reflexivity.
Qed.

(** X17: reading [body] remembers the body. With [isTruthy] true on [true]
    and false on [false], the options of the getter validate to a
    rendering of the header and the body without updates and without
    sub-issues. Reading the body of an entity whose body is empty
    remembers nothing; reading a body that is not empty, on an entity
    without related issues, remembers once the header at level 3 followed
    by the body, with the URL of the entity as only source. Either way
    the getter returns the trimmed body. *)
Theorem body_getter_remembers
        (Memory : Type) (Memory_remember : MemoryItem -> Memory -> Memory)
        (this : Wrapper) (memory : Memory) (log : list Event) :
  IssueWrapper__render K this bodyOptions
  = Returned (fst (renderIssue K this bodyRenderOptions 3))
  /\ (IssueWrapper__body this = "" ->
      IssueWrapper_body K Memory Memory_remember this memory log
      = (Returned "", memory, log))
  /\ (IssueWrapper__body this <> "" ->
      wrapper_relatedIssues this = None ->
      IssueWrapper_body K Memory Memory_remember this memory log
      = (Returned (IssueWrapper__body this),
         Memory_remember
           {| item_content := "### " ++ IssueWrapper_header this ++ nl ++ nl
                                ++ IssueWrapper__body this ++ nl ++ nl;
              item_sources := [IssueWrapper_url this] |}
           memory,
         log)).
Proof.
  assert (Hrender : IssueWrapper__render K this bodyOptions
                    = Returned (fst (renderIssue K this bodyRenderOptions 3))).
  { unfold IssueWrapper__render. now rewrite bodyOptions_validated. }
  split; [exact Hrender | split].
  - intro Hbody. unfold IssueWrapper_body, IssueWrapper_remember.
    rewrite Hrender. unfold Eff.bind, Eff.lift.
    assert (Hnone : fst (renderIssue K this bodyRenderOptions 3) = None).
    { apply renderIssue_nothing. unfold nothingToRender, resolveDefaults.
      cbn [header body updates subissues relatedIssues skipIfEmpty
           set_render_relatedIssues bodyRenderOptions requested negb orb
           andb Z.eqb].
      rewrite Hbody. reflexivity. }
    rewrite Hnone. unfold Eff.ret. now rewrite Hbody.
  - intros Hbody Hrelated. unfold IssueWrapper_body, IssueWrapper_remember.
    rewrite Hrender, (render_body_options this Hrelated).
    rewrite (eqb_empty_false _ Hbody). reflexivity.
Qed.

End BodyGetter.

(* ===================================================================== *)
(** ** Entities: fetching *)
(* ===================================================================== *)

(** *** Effects: what a method adds to the log *)

Section Adding.

Context {S : Type}.
Variable P : Event -> Prop.

Lemma adds_nothing {A} (m : Eff S A) (s : S) :
  (forall log, snd (m s log) = log) -> adds_at P m s.
Proof. intros H log. exists []. now rewrite H, app_nil_r. Qed.

Lemma adds_ret {A} (a : A) : adds P (@Eff.ret S A a).
Proof. intro s. now apply adds_nothing. Qed.

Lemma adds_throw {A} (e : string) : adds P (@Eff.throw S A e).
Proof. intro s. now apply adds_nothing. Qed.

Lemma adds_this : adds P (@Eff.this S).
Proof. intro s. now apply adds_nothing. Qed.

Lemma adds_assign (f : S -> S) : adds P (Eff.assign f).
Proof. intro s. now apply adds_nothing. Qed.

Lemma adds_lift {A} (r : outcome A) : adds P (@Eff.lift S A r).
Proof. intro s. now apply adds_nothing. Qed.

Lemma adds_emit (e : Event) : P e -> adds P (@Eff.emit S e).
Proof. intros H s log. exists [e]. split; [reflexivity | now constructor]. Qed.

Lemma adds_request {A} (endpoint : string) (args : list string)
      (answer : A + string) :
  P (Request endpoint args) -> adds P (@Eff.request S A endpoint args answer).
Proof.
  intros H s log. exists [Request endpoint args].
  split; [now destruct answer | now constructor].
Qed.

Lemma adds_bind_at {A B} (m : Eff S A) (k : A -> Eff S B) (s : S) :
  adds_at P m s -> (forall a, adds P (k a)) -> adds_at P (Eff.bind m k) s.
Proof.
  intros Hm Hk log. unfold Eff.bind.
  destruct (Hm log) as (added & Hlog & Hadded).
  destruct (m s log) as [[[a|e|] s'] log']; simpl in *;
    [|now exists added|now exists added].
  destruct (Hk a s' log') as (more & Hlog' & Hmore).
  exists (added ++ more)%list. subst log'.
  split; [now rewrite Hlog', app_assoc | now apply Forall_app].
Qed.

Lemma adds_bind {A B} (m : Eff S A) (k : A -> Eff S B) :
  adds P m -> (forall a, adds P (k a)) -> adds P (Eff.bind m k).
Proof. intros Hm Hk s. now apply adds_bind_at. Qed.

(** After [Eff.this] the continuation runs on the receiver it was given. *)
Lemma adds_this_at {B} (k : S -> Eff S B) (s : S) :
  adds_at P (k s) s -> adds_at P (Eff.bind Eff.this k) s.
Proof. intros H log. exact (H log). Qed.

Lemma adds_try_catch {A} (m : Eff S A) (handler : string -> Eff S A) :
  adds P m -> (forall e, adds P (handler e)) ->
  adds P (Eff.try_catch m handler).
Proof.
  intros Hm Hh s log. unfold Eff.try_catch.
  destruct (Hm s log) as (added & Hlog & Hadded).
  destruct (m s log) as [[[a|e|] s'] log']; simpl in *;
    [now exists added| |now exists added].
  destruct (Hh e s' log') as (more & Hlog' & Hmore).
  exists (added ++ more)%list. subst log'.
  split; [now rewrite Hlog', app_assoc | now apply Forall_app].
Qed.

Lemma adds_on {T A} (obj : T) (m : Eff T A) :
  adds_at P m obj -> adds P (@Eff.on S T A obj m).
Proof.
  intros Hm s log. unfold Eff.on.
  destruct (Hm log) as (added & Hlog & Hadded).
  destruct (m obj log) as [[[a|e|] obj'] log']; now exists added.
Qed.

Lemma adds_static {A} (m : Eff unit A) : adds P m -> adds P (@Eff.static S A m).
Proof.
  intros Hm s log. unfold Eff.static.
  destruct (Hm tt log) as (added & Hlog & Hadded).
  destruct (m tt log) as [[r u] log']. now exists added.
Qed.

Lemma adds_zoom {T A} (get : S -> T) (set : T -> S -> S) (m : Eff T A) :
  adds P m -> adds P (Eff.zoom get set m).
Proof.
  intros Hm s log. unfold Eff.zoom.
  destruct (Hm (get s) log) as (added & Hlog & Hadded).
  destruct (m (get s) log) as [[r t'] log']. now exists added.
Qed.

Lemma adds_when (c : bool) (m : Eff S unit) : adds P m -> adds P (when c m).
Proof. intro H. destruct c; [exact H | apply adds_ret]. Qed.

Lemma adds_forEach (m : Eff S unit) : adds P m -> adds P (Eff.forEach m).
Proof.
  intros Hm xs. induction xs as [|x xs IH]; intro log; simpl.
  - exists []. now rewrite app_nil_r.
  - destruct (Hm x log) as (added & Hlog & Hadded).
    destruct (m x log) as [[[[]|e|] x'] log']; simpl in *;
      [|now exists added|now exists added].
    destruct (IH log') as (more & Hlog' & Hmore).
    destruct (Eff.forEach m xs log') as [[r xs'] log'']. simpl in *.
    exists (added ++ more)%list. subst log'.
    split; [now rewrite Hlog', app_assoc | now apply Forall_app].
Qed.

End Adding.

Section EntityFetching.

Context {Comment ProjectField IssueFieldValue : Type}.
Variable K : Collaborators Comment ProjectField IssueFieldValue.

Local Abbreviation Wrapper :=
  (IssueWrapper Comment ProjectField IssueFieldValue).
Local Abbreviation Collection :=
  (IssueList Comment ProjectField IssueFieldValue).
Local Abbreviation Parameters :=
  (IssueFetchParameters Comment ProjectField IssueFieldValue).

(** *** The project fields of one issue are never asked for *)

(** The step of [fetch] for the project fields: the entity has a project
    number only when it carries a project, and then the fields of that
    project are there already. *)
Lemma fetchProjectFields_own_number (this : Wrapper) (number : Z)
      (log : list Event) :
  truthyNumber (IssueWrapper_projectNumber this) = Some number ->
  IssueWrapper_fetchProjectFields K number this log = (Returned tt, this, log).
Proof.
  unfold IssueWrapper_projectNumber, IssueWrapper_fetchProjectFields.
  unfold Eff.bind, Eff.this.
  destruct (issue_project (issue this)) as [project|]; [|discriminate].
  simpl. destruct (Z.eqb (project_number project) 0); [discriminate|].
  intro H. inversion H. now rewrite Z.eqb_refl.
Qed.

Local Abbreviation quiet := (adds not_issue_project_fields).

Ltac quiet_leaf :=
  first [ apply adds_ret | apply adds_throw | apply adds_this
        | apply adds_assign | apply adds_lift
        | apply adds_emit; exact I
        | apply adds_request; discriminate ].

(** The first method of a sequence, when it is a primitive one. *)
Ltac quiet_bind := apply adds_bind; [quiet_leaf | intro].

(** The first method of a sequence, when it is another method. *)
Ltac quiet_seq := apply adds_bind; [|intro].

Lemma fetchComments_quiet (numComments : Z) :
  quiet (IssueWrapper_fetchComments K numComments).
Proof.
  unfold IssueWrapper_fetchComments. quiet_bind.
  destruct (issue_comments (issue a)); [quiet_leaf|].
  quiet_bind. quiet_leaf.
Qed.

Lemma assignComments_quiet (entries : list (GetIssueParameters * list Comment)) :
  quiet (assignComments K entries).
Proof.
  induction entries as [|[p c] entries IH]; cbn [assignComments];
    [quiet_leaf|].
  quiet_bind.
  destruct (assignFound p _ (issues a)); [|quiet_leaf].
  quiet_bind. exact IH.
Qed.

Lemma list_fetchComments_quiet (numComments : Z) :
  quiet (IssueList_fetchComments K numComments).
Proof.
  unfold IssueList_fetchComments. quiet_bind.
  destruct (commentsFetched a); [quiet_leaf|].
  quiet_bind. quiet_bind. quiet_seq; [apply assignComments_quiet | quiet_leaf].
Qed.

Lemma list_fetchProjectFields_quiet (forNumber : option Z) :
  quiet (IssueList_fetchProjectFields K forNumber).
Proof.
  unfold IssueList_fetchProjectFields. quiet_bind.
  destruct (projectFieldsFetched a); [quiet_leaf|].
  quiet_seq; [apply adds_when; quiet_leaf|]. quiet_bind.
  destruct (truthyString (organization a1)); [|quiet_leaf].
  destruct (truthyNumber (projectNumber a1)); [|quiet_leaf].
  quiet_bind. quiet_bind. quiet_bind. quiet_leaf.
Qed.

Section QuietKnot.

Variable self : Parameters -> Eff Wrapper unit.
Hypothesis self_quiet : forall p, quiet (self p).

Lemma list_fetch_quiet (params : Parameters) :
  quiet (IssueList_fetch_with K self params).
Proof.
  unfold IssueList_fetch_with. quiet_bind. quiet_seq.
  { destruct (if fetch_projectFields params
              then truthyNumber (projectNumber a) else None);
      [apply list_fetchProjectFields_quiet | quiet_leaf]. }
  quiet_seq; [apply adds_when, list_fetchComments_quiet|].
  quiet_bind. apply adds_zoom, adds_forEach, self_quiet.
Qed.

Lemma forSubissues_quiet (q : GetIssueParameters) (fetchParams : Parameters) :
  quiet (IssueList_forSubissues_with K self q fetchParams).
Proof.
  unfold IssueList_forSubissues_with. apply adds_try_catch.
  - quiet_bind. destruct a as [[subissues title] url].
    quiet_seq; [apply adds_on, list_fetch_quiet | quiet_leaf].
  - intro e. quiet_bind. quiet_leaf.
Qed.

Lemma forIssue_quiet (q : GetIssueParameters) (fetchParams : Parameters) :
  quiet (IssueWrapper_forIssue_with K self q fetchParams).
Proof.
  unfold IssueWrapper_forIssue_with. quiet_bind.
  quiet_seq; [apply adds_on, self_quiet | quiet_leaf].
Qed.

Lemma forUrl_quiet (url : string) (fetchParams : Parameters) :
  quiet (IssueWrapper_forUrl_with K self url fetchParams).
Proof.
  unfold IssueWrapper_forUrl_with. quiet_bind.
  destruct a as [m|]; [|quiet_leaf].
  destruct (truthyNumber (GithubUrl.issueNumber m)); [|quiet_leaf].
  apply forIssue_quiet.
Qed.

Lemma forUrls_collect_quiet (urls : list string) (params : Parameters) :
  forall collected, quiet (forUrls_collect K self urls params collected).
Proof.
  induction urls as [|url urls IH]; intro collected; cbn [forUrls_collect];
    [quiet_leaf|].
  quiet_seq; [|apply IH].
  apply adds_try_catch.
  - quiet_seq; [apply forUrl_quiet | quiet_leaf].
  - intro e. quiet_bind. quiet_leaf.
Qed.

Lemma forUrls_quiet (urls : list string) (params : Parameters) :
  quiet (IssueList_forUrls_with K self urls params).
Proof.
  unfold IssueList_forUrls_with. quiet_seq; [apply forUrls_collect_quiet|].
  quiet_seq; [apply adds_on, list_fetch_quiet | quiet_leaf].
Qed.

Lemma fetchSubissues_quiet (params : Parameters) :
  quiet (IssueWrapper_fetchSubissues_with K self params).
Proof.
  unfold IssueWrapper_fetchSubissues_with. quiet_bind. quiet_bind.
  quiet_seq; [apply adds_static, forSubissues_quiet|].
  quiet_bind. quiet_seq; [|quiet_leaf].
  destruct (truthyNumber (IssueWrapper_projectNumber a2)); [|quiet_leaf].
  apply adds_on, list_fetchProjectFields_quiet.
Qed.

Lemma get_comments_quiet :
  quiet (@IssueWrapper_get_comments Comment ProjectField IssueFieldValue).
Proof. intro s. now apply adds_nothing. Qed.

Lemma followLinks_quiet (params : Parameters) :
  quiet (IssueWrapper_followLinks_with K self params).
Proof.
  unfold IssueWrapper_followLinks_with. quiet_bind.
  destruct (wrapper_relatedIssues a); [quiet_leaf|].
  quiet_seq; [apply get_comments_quiet|]. quiet_bind.
  destruct (option_map (comment_update K) (latestUpdate K a1 a0)) as [update|];
    [|quiet_leaf].
  destruct (String.eqb update ""); [quiet_leaf|].
  quiet_bind.
  destruct (List.length a2 =? 0)%nat; [quiet_leaf|].
  quiet_seq; [apply adds_static, forUrls_quiet | quiet_leaf].
Qed.

Lemma fetch_body_quiet (params : Parameters) :
  quiet (IssueWrapper_fetch_body K self params).
Proof.
  intro this. unfold IssueWrapper_fetch_body.
  apply adds_this_at. apply adds_bind_at.
  { apply adds_when. quiet_bind. apply adds_when, fetchComments_quiet. }
  intros _ this1. apply adds_this_at. apply adds_bind_at.
  - destruct (if fetch_projectFields params
              then truthyNumber (IssueWrapper_projectNumber this1) else None)
      as [number|] eqn:E; [|now apply adds_ret].
    apply adds_nothing. intro log.
    rewrite fetchProjectFields_own_number; [reflexivity|].
    destruct (fetch_projectFields params); [exact E | discriminate].
  - intros _. quiet_seq; [apply adds_when, fetchSubissues_quiet|].
    apply adds_when, followLinks_quiet.
Qed.

End QuietKnot.

Lemma fetch_quiet (fuel : nat) :
  forall params, quiet (IssueWrapper_fetch K fuel params).
Proof.
  induction fuel as [|fuel IH]; intro params; cbn [IssueWrapper_fetch].
  - intro s. now apply adds_nothing.
  - now apply fetch_body_quiet.
Qed.

(** X18: [fetch] never asks for the project fields of one issue. The step
    of [IssueWrapper.fetch] for the project fields runs only on an entity
    that has a project number, which it has only once the data of that
    project is attached, and so [fetchProjectFields] returns at once:
    whatever the parameters, the outcome and the depth of the nested
    fetches, no request [listProjectFieldsForIssue] is among the events
    that a fetch adds to the log. *)
Theorem fetch_never_lists_issue_project_fields
        (fuel : nat) (params : Parameters) (this : Wrapper) (log : list Event) :
  (exists added,
      snd (IssueWrapper_fetch K fuel params this log) = (log ++ added)%list
      /\ Forall not_issue_project_fields added)
  /\ forall number,
       truthyNumber (IssueWrapper_projectNumber this) = Some number ->
       IssueWrapper_fetchProjectFields K number this log
       = (Returned tt, this, log).
Proof.
  split; [apply fetch_quiet|].
  intro number. apply fetchProjectFields_own_number.
Qed.

(** *** A second fetch *)

Lemma fetch_body_settled
      (self : Parameters -> Eff Wrapper unit) (params : Parameters)
      (this : Wrapper) (log : list Event) :
  fetch_subissues params = false ->
  comments_settled K params this ->
  links_settled K params this ->
  IssueWrapper_fetch_body K self params this log = (Returned tt, this, log).
Proof.
  intros Hsub Hcomments Hlinks. unfold IssueWrapper_fetch_body.
  unfold Eff.bind at 1, Eff.this at 1. unfold Eff.bind at 1.
  assert (Hstep1 :
            when (negb (GithubUrl.is_some (issue_comments (issue this)))
                  && (0 <? fetch_comments params)%Z)
                 (within <- Eff.lift (IssueWrapper_wasUpdatedWithinTimeframe
                                        K this (timeframe K)) ;;
                  when within (IssueWrapper_fetchComments
                                 K (fetch_comments params)))%eff
                 this log
            = (Returned tt, this, log)).
  { destruct Hcomments as [H|[H|H]].
    - now rewrite H.
    - rewrite H, andb_false_r. reflexivity.
    - destruct (negb _ && _); [|reflexivity].
      cbn [when]. unfold Eff.bind, Eff.lift. now rewrite H. }
  rewrite Hstep1. unfold Eff.bind at 1, Eff.this at 1. unfold Eff.bind at 1.
  assert (Hstep2 :
            match (if fetch_projectFields params
                   then truthyNumber (IssueWrapper_projectNumber this)
                   else None) with
            | Some number => IssueWrapper_fetchProjectFields K number
            | None => Eff.ret tt
            end this log
            = (Returned tt, this, log)).
  { destruct (if fetch_projectFields params
              then truthyNumber (IssueWrapper_projectNumber this) else None)
      as [number|] eqn:E; [|reflexivity].
    apply fetchProjectFields_own_number.
    destruct (fetch_projectFields params); [exact E | discriminate]. }
  rewrite Hstep2. rewrite Hsub. cbn [when]. unfold Eff.bind at 1, Eff.ret at 1.
  destruct Hlinks as [H|[H|(comments & Hlist & Hupdate)]].
  - now rewrite H.
  - destruct (fetch_followLinks params); [|reflexivity]. cbn [when].
    unfold IssueWrapper_followLinks_with. unfold Eff.bind at 1, Eff.this at 1.
    destruct (wrapper_relatedIssues this); [reflexivity | contradiction].
  - destruct (fetch_followLinks params); [|reflexivity]. cbn [when].
    unfold IssueWrapper_followLinks_with. unfold Eff.bind at 1, Eff.this at 1.
    destruct (wrapper_relatedIssues this) eqn:Erelated; [reflexivity|].
    unfold Eff.bind at 1, IssueWrapper_get_comments at 1.
    assert (Hsame : IssueWrapper_comments this = comments)
      by (unfold IssueWrapper_comments; now rewrite Hlist).
    assert (Hcache : set_commentList (Some comments) this = this)
      by (destruct this; simpl in *; congruence).
    rewrite Hsame, Hcache. unfold Eff.bind at 1, Eff.this at 1.
    destruct (option_map (comment_update K) (latestUpdate K this comments))
      as [update|]; [|reflexivity].
    subst update. reflexivity.
Qed.

Lemma followLinks_issue
      (self : Parameters -> Eff Wrapper unit) (params : Parameters)
      (this : Wrapper) (log : list Event) :
  issue (snd (fst (IssueWrapper_followLinks_with K self params this log)))
  = issue this.
Proof.
  pose (R := fun w w' : Wrapper => issue w = issue w').
  assert (Hrefl : forall w, R w w) by reflexivity.
  assert (Htrans : forall a b c, R a b -> R b c -> R a c)
    by (unfold R; congruence).
  assert (H : preserves R (IssueWrapper_followLinks_with K self params)).
  { unfold IssueWrapper_followLinks_with.
    apply preserves_bind; try assumption; [now apply preserves_this|].
    intro w. destruct (wrapper_relatedIssues w); [now apply preserves_ret|].
    apply preserves_bind; try assumption.
    { intros s l. unfold R. now destruct s. }
    intro comments. apply preserves_bind; try assumption;
      [now apply preserves_this|].
    intro w'.
    destruct (option_map (comment_update K) (latestUpdate K w' comments))
      as [update|]; [|now apply preserves_ret].
    destruct (String.eqb update ""); [now apply preserves_ret|].
    apply preserves_bind; try assumption; [now apply preserves_lift|].
    intro urls. destruct (List.length urls =? 0)%nat.
    - apply preserves_assign. intro s. unfold R. now destruct s.
    - apply preserves_bind; try assumption; [now apply preserves_static|].
      intro related. apply preserves_assign. intro s. unfold R. now destruct s. }
  symmetry. apply (H this log).
Qed.

Lemma followLinks_settles
      (self : Parameters -> Eff Wrapper unit) (params : Parameters)
      (this this' : Wrapper) (log log' : list Event) :
  IssueWrapper_followLinks_with K self params this log
  = (Returned tt, this', log') ->
  links_settled K params this'.
Proof.
  unfold IssueWrapper_followLinks_with. unfold Eff.bind at 1, Eff.this at 1.
  destruct (wrapper_relatedIssues this) as [related|] eqn:Erelated.
  - intro H. inversion H. subst. right. left. congruence.
  - unfold Eff.bind at 1, IssueWrapper_get_comments at 1.
    unfold Eff.bind at 1, Eff.this at 1.
    set (cached := set_commentList (Some (IssueWrapper_comments this)) this).
    assert (Hlist : commentList cached = Some (IssueWrapper_comments this))
      by (unfold cached; now destruct this).
    destruct (option_map (comment_update K)
                         (latestUpdate K cached (IssueWrapper_comments this)))
      as [update|] eqn:Eupdate.
    + destruct (String.eqb update "") eqn:Eempty.
      * intro H. inversion H. subst. right. right.
        exists (IssueWrapper_comments this). split; [exact Hlist|].
        rewrite Eupdate. now apply String.eqb_eq.
      * unfold Eff.bind at 1, Eff.lift at 1.
        destruct (GithubUrl.scrapeUrls (newURL K) update ["issue"])
          as [urls|e|]; [|discriminate|discriminate].
        destruct (List.length urls =? 0)%nat.
        -- intro H. inversion H. subst. right. left.
           unfold cached. now destruct this.
        -- unfold Eff.bind at 1, Eff.static at 1.
           destruct (IssueList_forUrls_with K self urls
                       (relatedFetchParameters params) tt log)
             as [[[related|e|] u] log1]; [|discriminate|discriminate].
           intro H. inversion H. subst. right. left.
           unfold cached. now destruct this.
    + intro H. inversion H. subst. right. right.
      exists (IssueWrapper_comments this). split; [exact Hlist|].
      now rewrite Eupdate.
Qed.

Lemma timeframe_of_issue (w w' : Wrapper) (timeframe : string) :
  issue w' = issue w ->
  IssueWrapper_wasUpdatedWithinTimeframe K w' timeframe
  = IssueWrapper_wasUpdatedWithinTimeframe K w timeframe.
Proof.
  intro H. unfold IssueWrapper_wasUpdatedWithinTimeframe,
             IssueWrapper_wasUpdatedSince, IssueWrapper_updatedAt.
  now rewrite H.
Qed.

Lemma comments_settled_issue (params : Parameters) (w w' : Wrapper) :
  issue w' = issue w ->
  comments_settled K params w -> comments_settled K params w'.
Proof.
  intros H. unfold comments_settled.
  rewrite (timeframe_of_issue w w' _ H), H. tauto.
Qed.

Lemma fetch_body_settles
      (self : Parameters -> Eff Wrapper unit) (params : Parameters)
      (this this' : Wrapper) (log log' : list Event) :
  fetch_subissues params = false ->
  IssueWrapper_fetch_body K self params this log = (Returned tt, this', log') ->
  comments_settled K params this' /\ links_settled K params this'.
Proof.
  intros Hsub. unfold IssueWrapper_fetch_body.
  unfold Eff.bind at 1, Eff.this at 1. unfold Eff.bind at 1.
  (* the comments *)
  assert (Hstep1 :
            match when (negb (GithubUrl.is_some (issue_comments (issue this)))
                        && (0 <? fetch_comments params)%Z)
                       (within <- Eff.lift (IssueWrapper_wasUpdatedWithinTimeframe
                                              K this (timeframe K)) ;;
                        when within (IssueWrapper_fetchComments
                                       K (fetch_comments params)))%eff
                       this log with
            | (Returned _, s1, _) => comments_settled K params s1
            | _ => True
            end).
  { destruct (GithubUrl.is_some (issue_comments (issue this))) eqn:Esome;
      cbn [negb andb when]; [now left|].
    destruct (0 <? fetch_comments params)%Z eqn:Epos; cbn [when];
      [|right; now left].
    unfold Eff.bind at 1, Eff.lift at 1.
    destruct (IssueWrapper_wasUpdatedWithinTimeframe K this (timeframe K))
      as [[|]|e|] eqn:Ewithin; try exact I; cbn [when].
    - unfold IssueWrapper_fetchComments. unfold Eff.bind at 1, Eff.this at 1.
      destruct (issue_comments (issue this)); [discriminate|].
      unfold Eff.bind at 1, Eff.request at 1.
      destruct (listCommentsForIssue K _ _); [|exact I].
      unfold Eff.assign. left. now destruct this.
    - right. now right. }
  destruct (when _ _ this log) as [[[u|e|] s1] log1];
    [|discriminate|discriminate].
  unfold Eff.bind at 1, Eff.this at 1. unfold Eff.bind at 1.
  (* the project fields *)
  assert (Hstep2 :
            match (if fetch_projectFields params
                   then truthyNumber (IssueWrapper_projectNumber s1)
                   else None) with
            | Some number => IssueWrapper_fetchProjectFields K number
            | None => Eff.ret tt
            end s1 log1
            = (Returned tt, s1, log1)).
  { destruct (if fetch_projectFields params
              then truthyNumber (IssueWrapper_projectNumber s1) else None)
      as [number|] eqn:E; [|reflexivity].
    apply fetchProjectFields_own_number.
    destruct (fetch_projectFields params); [exact E | discriminate]. }
  rewrite Hstep2. rewrite Hsub. cbn [when]. unfold Eff.bind at 1, Eff.ret at 1.
  (* the links *)
  destruct (fetch_followLinks params) eqn:Efollow; cbn [when].
  - intro H. split.
    + apply (comments_settled_issue params s1); [|exact Hstep1].
      pose proof (followLinks_issue self params s1 log1) as Hissue.
      now rewrite H in Hissue.
    + eapply followLinks_settles, H.
  - intro H. inversion H. subst. split; [exact Hstep1 | now left].
Qed.

(** X19: a fetch without sub-issues is done once. When a fetch that
    does not ask for sub-issues has returned, a second fetch with the same
    parameters returns at once, sends no request, emits no warning and
    leaves the entity as the first fetch left it: comments, project
    fields and related issues are not fetched again. *)
Theorem fetch_twice_is_fetch_once
        (fuel again : nat) (params : Parameters) (this this' : Wrapper)
        (log log' later : list Event) :
  fetch_subissues params = false ->
  IssueWrapper_fetch K fuel params this log = (Returned tt, this', log') ->
  IssueWrapper_fetch K (S again) params this' later
  = (Returned tt, this', later).
Proof.
  intros Hsub Hfirst. destruct fuel as [|fuel]; [discriminate|].
  cbn [IssueWrapper_fetch] in *.
  destruct (fetch_body_settles _ _ _ _ _ _ Hsub Hfirst) as [Hc Hl].
  now apply fetch_body_settled.
Qed.

(** *** A fetch that does not nest *)

Lemma fetch_body_flat
      (self : Parameters -> Eff Wrapper unit) (params : Parameters)
      (this : Wrapper) (log : list Event) :
  fetch_subissues params = false ->
  fetch_followLinks params = false ->
  match IssueWrapper_fetch_body K self params this log with
  | (Starved, _, _) => False
  | (_, _, log') =>
      log' = log
      \/ log' = (log ++ [Request "listCommentsForIssue"
                           (paramsArgs (issueParams this)
                              ++ [string_of_Z (fetch_comments params)])])%list
  end.
Proof.
  intros Hsub Hfollow. unfold IssueWrapper_fetch_body.
  unfold Eff.bind at 1, Eff.this at 1. unfold Eff.bind at 1.
  rewrite Hsub, Hfollow. cbn [when].
  assert (Htail : forall (s1 : Wrapper) (log1 : list Event),
             (this0 <- Eff.this ;;
              match (if fetch_projectFields params
                     then truthyNumber (IssueWrapper_projectNumber this0)
                     else None) with
              | Some number => IssueWrapper_fetchProjectFields K number
              | None => Eff.ret tt
              end ;;; Eff.ret tt ;;; Eff.ret tt)%eff s1 log1
             = (Returned tt, s1, log1)).
  { intros s1 log1. unfold Eff.bind at 1, Eff.this at 1. unfold Eff.bind at 1.
    destruct (if fetch_projectFields params
              then truthyNumber (IssueWrapper_projectNumber s1) else None)
      as [number|] eqn:E; [|reflexivity].
    rewrite fetchProjectFields_own_number; [reflexivity|].
    destruct (fetch_projectFields params); [exact E | discriminate]. }
  destruct (negb (GithubUrl.is_some (issue_comments (issue this)))
            && (0 <? fetch_comments params)%Z) eqn:Econd; cbn [when].
  - unfold Eff.bind at 1, Eff.lift at 1.
    destruct (IssueWrapper_wasUpdatedWithinTimeframe K this (timeframe K))
      as [[|]|e|] eqn:Ewithin; cbn [when].
    + unfold IssueWrapper_fetchComments. unfold Eff.bind at 1, Eff.this at 1.
      destruct (issue_comments (issue this)) as [c|] eqn:Ec;
        [discriminate Econd|].
      unfold Eff.bind at 1, Eff.request at 1.
      destruct (listCommentsForIssue K (issueParams this) (fetch_comments params))
        as [comments|e].
      * unfold Eff.assign at 1. rewrite Htail. now right.
      * now right.
    + unfold Eff.ret at 1. rewrite Htail. now left.
    + now left.
    + revert Ewithin. unfold IssueWrapper_wasUpdatedWithinTimeframe.
      repeat (destruct (String.eqb (timeframe K) _); [discriminate|]).
      discriminate.
  - unfold Eff.ret at 1. rewrite Htail. now left.
Qed.

Lemma fetch_body_flat_self
      (self self' : Parameters -> Eff Wrapper unit) (params : Parameters)
      (this : Wrapper) (log : list Event) :
  fetch_subissues params = false ->
  fetch_followLinks params = false ->
  IssueWrapper_fetch_body K self params this log
  = IssueWrapper_fetch_body K self' params this log.
Proof.
  intros Hsub Hfollow. unfold IssueWrapper_fetch_body.
  rewrite Hsub, Hfollow. reflexivity.
Qed.

(** X20: a fetch without sub-issues and links ends. Such a fetch calls no
    other fetch: with any fuel beyond the first unit it does what it does
    with one unit, it returns or throws, and it has sent nothing or the
    one request for the comments of the issue. *)
Theorem fetch_without_nesting_ends
        (fuel : nat) (params : Parameters) (this : Wrapper) (log : list Event) :
  fetch_subissues params = false ->
  fetch_followLinks params = false ->
  IssueWrapper_fetch K (S fuel) params this log
  = IssueWrapper_fetch K 1 params this log
  /\ match IssueWrapper_fetch K 1 params this log with
     | (Starved, _, _) => False
     | (_, _, log') =>
         log' = log
         \/ log' = (log ++ [Request "listCommentsForIssue"
                              (paramsArgs (issueParams this)
                                 ++ [string_of_Z (fetch_comments params)])])%list
     end.
Proof.
  intros Hsub Hfollow. cbn [IssueWrapper_fetch]. split.
  - now apply fetch_body_flat_self.
  - now apply fetch_body_flat.
Qed.

End EntityFetching.

(* ===================================================================== *)
(** ** Entities from URLs *)
(* ===================================================================== *)

Section FromUrl.

Context {Comment ProjectField IssueFieldValue : Type}.
Variable K : Collaborators Comment ProjectField IssueFieldValue.

Local Abbreviation Wrapper :=
  (IssueWrapper Comment ProjectField IssueFieldValue).
Local Abbreviation Parameters :=
  (IssueFetchParameters Comment ProjectField IssueFieldValue).

Import GithubUrl.



Variable self : Parameters -> Eff Wrapper unit.


End FromUrl.

(* ===================================================================== *)
(** ** Configuration *)
(* ===================================================================== *)

Section FetchConfig.

Context {Comment ProjectField IssueFieldValue : Type}.
Variable K : Collaborators Comment ProjectField IssueFieldValue.

Local Abbreviation Parameters :=
  (IssueFetchParameters Comment ProjectField IssueFieldValue).
Local Abbreviation Dirty :=
  (DirtyIssueFetchParameters Comment ProjectField IssueFieldValue).

Lemma validated_comments (dirty : Dirty) (params : Parameters) :
  validateFetchParameters K dirty = Returned params ->
  (0 <= fetch_comments params)%Z.
Proof.
  unfold validateFetchParameters. cbv zeta.
  destruct (0 <? List.length _)%nat; [discriminate|].
  destruct (is_undefined (prop (dirty_props dirty) "comments")).
  - intro H. inversion H. simpl. lia.
  - destruct (ToNumber (Number K) (prop (dirty_props dirty) "comments"))
      as [n|]; [|discriminate].
    destruct (n <? 0)%Z eqn:E; [discriminate|].
    intro H. inversion H. simpl. now apply Z.ltb_ge in E.
Qed.

Lemma validate_spread (params : Parameters) (subissues : bool) :
  (forall b, isTruthy K (JsBool b) = b) ->
  (0 <= fetch_comments params)%Z ->
  validateFetchParameters
    K {| dirty_props :=
           [ ("comments", JsNumber (Some (fetch_comments params)));
             ("projectFields", JsBool (fetch_projectFields params));
             ("issueFields", JsBool (fetch_issueFields params));
             ("subissues", JsBool subissues);
             ("followLinks", JsBool (fetch_followLinks params)) ];
         dirty_filter := Some (fetch_filter params) |}
  = Returned {| fetch_comments := fetch_comments params;
                fetch_projectFields := fetch_projectFields params;
                fetch_issueFields := fetch_issueFields params;
                fetch_subissues := subissues;
                fetch_followLinks := fetch_followLinks params;
                fetch_filter := fetch_filter params |}.
Proof.
  intros Htruthy Hcomments. unfold validateFetchParameters. cbv zeta.
  cbn [dirty_keys dirty_props dirty_filter Object_keys map fst app].
  change (filter (fun key => negb (Set_has fetchValidKeys key))
                 ["comments"; "projectFields"; "issueFields"; "subissues";
                  "followLinks"; "filter"])
    with (@nil string).
  cbn [List.length Nat.ltb Nat.leb].
  change (prop _ "comments") with (JsNumber (Some (fetch_comments params))).
  change (prop _ "projectFields") with (JsBool (fetch_projectFields params)).
  change (prop _ "issueFields") with (JsBool (fetch_issueFields params)).
  change (prop _ "subissues") with (JsBool subissues).
  change (prop _ "followLinks") with (JsBool (fetch_followLinks params)).
  cbn [is_undefined ToNumber RenderConfig.definedOr].
  apply Z.ltb_ge in Hcomments. rewrite Hcomments, !Htruthy. reflexivity.
Qed.

(** X22: validated fetch parameters validate to themselves. With
    [isTruthy] the identity on booleans, the number of comments of
    validated parameters is not negative, and validating the spread of
    validated parameters returns them again; with [subissues: true] over
    the spread, as [fetchSubissues] does, it returns them with sub-issues
    switched on and everything else, the filter included, as it was. *)
Theorem validateFetchParameters_revalidates (dirty : Dirty) (params : Parameters) :
  (forall b, isTruthy K (JsBool b) = b) ->
  validateFetchParameters K dirty = Returned params ->
  (0 <= fetch_comments params)%Z
  /\ validateFetchParameters K (spreadParameters params) = Returned params
  /\ validateFetchParameters K (inheritWithSubissues params)
     = Returned {| fetch_comments := fetch_comments params;
                   fetch_projectFields := fetch_projectFields params;
                   fetch_issueFields := fetch_issueFields params;
                   fetch_subissues := true;
                   fetch_followLinks := fetch_followLinks params;
                   fetch_filter := fetch_filter params |}.
Proof.
  intros Htruthy Hvalid.
  pose proof (validated_comments dirty params Hvalid) as Hcomments.
  split; [exact Hcomments | split].
  - unfold spreadParameters.
    rewrite (validate_spread params (fetch_subissues params) Htruthy Hcomments).
    now destruct params.
  - apply (validate_spread params true Htruthy Hcomments).
Qed.

Lemma filter_nil_iff {A} (p : A -> bool) (l : list A) :
  filter p l = [] <-> Forall (fun x => p x = false) l.
Proof.
  induction l as [|x l IH]; simpl; [split; [constructor | reflexivity]|].
  destruct (p x) eqn:E.
  - split; [discriminate | intro H; inversion H; congruence].
  - rewrite IH. split; [now constructor | intro H; now inversion H].
Qed.

(** X23: the keys of the fetch parameters. [validateFetchParameters]
    throws for an unknown key exactly when a key of the object is not one
    of [comments], [projectFields], [issueFields], [subissues],
    [followLinks] and [filter], the keys its type declares; the message
    lists the unknown keys in the order of the object. When all keys are
    known it throws only for a number of comments that is not a number or
    is negative. *)
Theorem validateFetchParameters_known_keys (dirty : Dirty) :
  (Forall (fun key => In key fetchValidKeys) (dirty_keys dirty) ->
   match validateFetchParameters K dirty with
   | Returned params => (0 <= fetch_comments params)%Z
   | Thrown _ =>
       is_undefined (prop (dirty_props dirty) "comments") = false
       /\ match ToNumber (Number K) (prop (dirty_props dirty) "comments") with
          | Some n => (n < 0)%Z
          | None => True
          end
   | Starved => False
   end)
  /\ (forall unknown,
         In unknown (dirty_keys dirty) -> ~ In unknown fetchValidKeys ->
         exists keys,
           In unknown keys
           /\ keys = filter (fun key => negb (Set_has fetchValidKeys key))
                            (dirty_keys dirty)
           /\ validateFetchParameters K dirty
              = Thrown ("Invalid FetchParameter"
                          ++ (if (1 <? List.length keys)%nat then "s" else "")
                          ++ ": " ++ join ", " keys)).
Proof.
  split.
  - intro Hall.
    assert (Hnone : filter (fun key => negb (Set_has fetchValidKeys key))
                           (dirty_keys dirty) = []).
    { apply filter_nil_iff. eapply Forall_impl; [|exact Hall].
      intros key Hkey. apply negb_false_iff. now apply Set_has_In. }
    unfold validateFetchParameters. cbv zeta. rewrite Hnone.
    cbn [List.length Nat.ltb Nat.leb].
    destruct (is_undefined (prop (dirty_props dirty) "comments"));
      [simpl; lia|].
    destruct (ToNumber (Number K) (prop (dirty_props dirty) "comments"))
      as [n|]; [|now split].
    destruct (n <? 0)%Z eqn:E;
      [split; [reflexivity | now apply Z.ltb_lt] | now apply Z.ltb_ge in E].
  - intros unknown Hin Hunknown. eexists. split; [|split; [reflexivity|]].
    + apply filter_In. split; [exact Hin|].
      apply negb_true_iff. destruct (Set_has fetchValidKeys unknown) eqn:E;
        [|reflexivity].
      apply Set_has_In in E. contradiction.
    + unfold validateFetchParameters. cbv zeta.
      destruct (filter _ (dirty_keys dirty)) as [|key keys] eqn:E;
        [|reflexivity].
      exfalso. apply filter_nil_iff in E. rewrite Forall_forall in E.
      specialize (E unknown Hin). apply negb_false_iff, Set_has_In in E.
      contradiction.
Qed.

End FetchConfig.

Section RenderOptionProperties.

Variable isTruthy : JsValue -> bool.
Variable Number : JsValue -> option Z.
Variable ToString : JsValue -> string.

Local Abbreviation validate :=
  (RenderConfig.validateRenderOptions isTruthy Number ToString).

Lemma prop_app_other (options : JsRecord) (key other : string) (value : JsValue) :
  other <> key ->
  prop (options ++ [(key, value)])%list other = prop options other.
Proof.
  intro H. induction options as [|[k v] options IH]; simpl.
  - apply String.eqb_neq in H. rewrite String.eqb_sym in H. now rewrite H.
  - destruct (String.eqb k other); [reflexivity | exact IH].
Qed.

Lemma prop_absent (options : JsRecord) (key : string) :
  ~ In key (Object_keys options) -> prop options key = JsUndefined.
Proof.
  induction options as [|[k v] options IH]; simpl; [reflexivity|].
  intro H. destruct (String.eqb k key) eqn:E.
  - apply String.eqb_eq in E. exfalso. apply H. now left.
  - apply IH. intro Hin. apply H. now right.
Qed.

Lemma prop_app_new (options : JsRecord) (key : string) (value : JsValue) :
  ~ In key (Object_keys options) ->
  prop (options ++ [(key, value)])%list key = value.
Proof.
  induction options as [|[k v] options IH]; simpl.
  - now rewrite String.eqb_refl.
  - intro H. destruct (String.eqb k key) eqn:E.
    + apply String.eqb_eq in E. exfalso. apply H. now left.
    + apply IH. intro Hin. apply H. now right.
Qed.

(** X24: a falsy [author], [createdAt] or [updatedAt] is as none. For
    these three options the value is looked at only when it is truthy:
    adding one of them with a falsy value ([false], [0], the empty
    string, [null]) to an options object that does not have it changes
    nothing in what [validateRenderOptions] returns or throws. In
    particular [author: false] leaves the author switched on. *)
Theorem validateRenderOptions_falsy_is_absent
        (options : DirtyRenderOptions) (key : string) (value : JsValue) :
  In key falsyKeepsDefault ->
  truthy value = false ->
  ~ In key (Object_keys options) ->
  validate (options ++ [(key, value)])%list = validate options.
Proof.
  intros Hkey Hfalsy Hnew.
  assert (Hinvalid : RenderConfig.invalidKeys (options ++ [(key, value)])%list
                     = RenderConfig.invalidKeys options).
  { unfold RenderConfig.invalidKeys, Object_keys. rewrite map_app, filter_app.
    simpl. unfold falsyKeepsDefault in Hkey.
    destruct Hkey as [<-|[<-|[<-|[]]]]; simpl; apply app_nil_r. }
  assert (Hother : forall other,
             ~ In other falsyKeepsDefault ->
             prop (options ++ [(key, value)])%list other = prop options other).
  { intros other Hother. apply prop_app_other. intros ->. contradiction. }
  assert (Hsame : forall other dflt,
             RenderConfig.truthyOr isTruthy dflt
               (prop (options ++ [(key, value)])%list other)
             = RenderConfig.truthyOr isTruthy dflt (prop options other)).
  { intros other dflt. destruct (String.eqb other key) eqn:E.
    - apply String.eqb_eq in E. subst other.
      rewrite prop_app_new, prop_absent by assumption.
      unfold RenderConfig.truthyOr. now rewrite Hfalsy.
    - apply String.eqb_neq in E. now rewrite prop_app_other. }
  unfold RenderConfig.validateRenderOptions. cbv zeta.
  rewrite Hinvalid, !Hsame.
  rewrite !Hother by (unfold falsyKeepsDefault; simpl; intuition discriminate).
  reflexivity.
Qed.

End RenderOptionProperties.

(* ===================================================================== *)
(** ** Rendering *)
(* ===================================================================== *)

Section RenderShape.

Context {Comment ProjectField IssueFieldValue : Type}.
Variable K : Collaborators Comment ProjectField IssueFieldValue.

Local Abbreviation Wrapper :=
  (IssueWrapper Comment ProjectField IssueFieldValue).

Lemma starts_with_refl (s : string) : starts_with s s.
Proof. exists "". induction s as [|c s IH]; simpl; [reflexivity | now rewrite <- IH]. Qed.

Lemma starts_with_app (prefix s more : string) :
  starts_with prefix s -> starts_with prefix (s ++ more).
Proof.
  intros [rest ->]. exists (rest ++ more). apply string_app_assoc.
Qed.

Lemma starts_with_fields (w : Wrapper) (prefix : string) (names : list string) :
  forall md,
    starts_with prefix md ->
    starts_with prefix (fold_left (renderFieldLine K w) names md).
Proof.
  induction names as [|name names IH]; intros md H; simpl; [exact H|].
  apply IH. unfold renderFieldLine.
  destruct (String.eqb (IssueWrapper_field K w name) ""); [exact H|].
  now apply starts_with_app.
Qed.

Lemma starts_with_updates (level : nat) (prefix : string)
      (latest : list Comment) :
  forall md srcs options,
    starts_with prefix md ->
    starts_with prefix
      (fst (fst (fold_left (renderUpdateStep K level) latest
                           (md, srcs, options)))).
Proof.
  induction latest as [|update latest IH]; intros md srcs options H; simpl;
    [exact H|].
  destruct (renderComment K update options (level + 1)); apply IH;
    [now apply starts_with_app | exact H].
Qed.

Lemma starts_with_nested
      (render : Wrapper -> IssueRenderOptions -> nat ->
                option RenderedIssue * IssueRenderOptions)
      (level : nat) (prefix : string) (nested : list Wrapper) :
  forall st : RenderState,
    starts_with prefix (fst (fst st)) ->
    starts_with prefix (fst (fst (renderNested render level nested st))).
Proof.
  assert (Hloop : forall (ws : list Wrapper) (st : RenderState),
             starts_with prefix (fst (fst st)) ->
             starts_with prefix
               (fst (fst (fold_left (renderNestedStep render level) ws st)))).
  { induction ws as [|w ws IH]; intros [[md srcs] options] H; simpl; [exact H|].
    apply IH. destruct (render w options (level + 1)) as [[rendered|] options'];
      simpl in *; [now apply starts_with_app | exact H]. }
  intros st H. unfold renderNested.
  specialize (Hloop nested st H).
  destruct (fold_left (renderNestedStep render level) nested st)
    as [[md srcs] options]. simpl in *. now apply starts_with_app.
Qed.

(** X25: a fragment starts with its heading. When [renderIssue] returns a
    fragment for options that ask for the header, the markdown starts
    with as many [#] as the level says, a space, the header of the entity
    and an empty line: what follows is appended and the heading is never
    rewritten. It returns no fragment only when there is nothing to
    render and either empty fragments are skipped or no header is asked
    for. *)
Theorem renderIssue_starts_with_heading
        (w : Wrapper) (options : IssueRenderOptions) (level : nat) :
  match fst (renderIssue K w options level) with
  | Some fragment =>
      if header options
      then starts_with (repeat_string "#" level ++ " "
                          ++ IssueWrapper_header w ++ nl ++ nl)
                       (markdown fragment)
      else True
  | None =>
      nothingToRender K w (resolveDefaults w options) = true
      /\ (skipIfEmpty options = true \/ header options = false)
  end.
Proof.
  destruct (resolveDefaults_keeps w options) as (Hheader & _ & _ & Hskip).
  rewrite renderIssue_unfold. unfold renderIssue_with.
  set (resolved := resolveDefaults w options) in *.
  rewrite Hheader, Hskip.
  set (heading := repeat_string "#" level ++ " " ++ IssueWrapper_header w
                    ++ nl ++ nl).
  set (md0 := if header options
              then "" ++ repeat_string "#" level ++ " "
                      ++ IssueWrapper_header w ++ nl ++ nl
              else "").
  assert (Hmd0 : header options = true -> starts_with heading md0).
  { intro H. unfold md0. rewrite H. apply starts_with_refl. }
  destruct (nothingToRender K w resolved) eqn:Enothing.
  - destruct (skipIfEmpty options) eqn:Eskip; cbn [orb fst].
    + split; [reflexivity | now left].
    + destruct (header options) eqn:Eheader; cbn [negb fst].
      * cbn [markdown]. apply starts_with_app, Hmd0. reflexivity.
      * split; [reflexivity | now right].
  - match goal with
    | |- context [requested (relatedIssues (snd ?s))] => set (st2 := s)
    end.
    assert (Hst2 : header options = true ->
                   starts_with heading (fst (fst st2))).
    { intro Hon. specialize (Hmd0 Hon). subst st2. unfold md0 in *.
      rewrite Hon in *.
      repeat match goal with
             | |- starts_with _ (fst (fst (if ?c then _ else _))) => destruct c
             | |- starts_with _ (fst (fst (match ?x with
                                           | Some _ => _
                                           | None => _
                                           end))) => destruct x
             | |- starts_with _ (fst (fst (renderNested _ _ _ _))) =>
                 apply starts_with_nested
             | |- starts_with _
                    (fst (fst (fold_left (renderUpdateStep _ _) _ _))) =>
                 apply starts_with_updates
             | |- starts_with _ (fst (fst (_, _, _))) => cbn [fst]
             | |- starts_with _ (if ?c then _ else _) => destruct c
             | |- starts_with _ (fold_left (renderFieldLine _ _) _ _ ++ _) =>
                 apply starts_with_app, starts_with_fields
             | |- starts_with _ ("" ++ _) => exact Hmd0
             | |- starts_with _ (_ ++ _) => apply starts_with_app
             end. }
    clearbody st2.
    assert (Hlast : forall st3 : RenderState,
               (header options = true -> starts_with heading (fst (fst st3))) ->
               match fst (let '(md, srcs, o) := st3 in
                          (Some {| markdown := md; sources := srcs |}, o)) with
               | Some fragment =>
                   if header options
                   then starts_with heading (markdown fragment)
                   else True
               | None =>
                   false = true
                   /\ (skipIfEmpty options = true \/ header options = false)
               end).
    { intros [[md srcs] o] H. cbn [fst markdown] in *.
      destruct (header options); [now apply H | exact I]. }
    apply Hlast. intro Hon. specialize (Hst2 Hon).
    destruct (requested (relatedIssues (snd st2))); [|exact Hst2].
    destruct (wrapper_relatedIssues w); [|exact Hst2].
    now apply starts_with_nested.
Qed.

(** X26: the defaults are settled once, in the options of the caller.
    [renderIssue] writes into the options object it is given: after the
    call an option for the sub-issues or the related issues that was
    undefined says whether the entity rendered has such a collection,
    and the other options are as they were. Rendering another entity with
    the same object afterwards changes the object no more, so that entity
    is rendered under the defaults that the first one settled. *)
Theorem renderIssue_settles_options
        (first next : Wrapper) (options : IssueRenderOptions)
        (level level' : nat) :
  subissues (snd (renderIssue K first options level))
  = Some (match subissues options with
          | Some asked => asked
          | None => GithubUrl.is_some (wrapper_subissues first)
          end)
  /\ relatedIssues (snd (renderIssue K first options level))
     = Some (match relatedIssues options with
             | Some asked => asked
             | None => GithubUrl.is_some (wrapper_relatedIssues first)
             end)
  /\ header (snd (renderIssue K first options level)) = header options
  /\ body (snd (renderIssue K first options level)) = body options
  /\ updates (snd (renderIssue K first options level)) = updates options
  /\ author (snd (renderIssue K first options level)) = author options
  /\ createdAt (snd (renderIssue K first options level)) = createdAt options
  /\ updatedAt (snd (renderIssue K first options level)) = updatedAt options
  /\ fields (snd (renderIssue K first options level)) = fields options
  /\ skipIfEmpty (snd (renderIssue K first options level))
     = skipIfEmpty options
  /\ snd (renderIssue K next (snd (renderIssue K first options level)) level')
     = snd (renderIssue K first options level).
Proof.
  rewrite !renderIssue_options.
  rewrite (resolveDefaults_fixed next) by apply resolveDefaults_resolved.
  unfold resolveDefaults.
  destruct options as [h b u a c e f s r k]; cbn [subissues relatedIssues].
  destruct s as [asked|], r as [related|]; repeat split.
Qed.

End RenderShape.

(* ===================================================================== *)
(** ** Collections from a repository, a project, a project view *)
(* ===================================================================== *)

Section ListingProperties.

Context {Comment ProjectField IssueFieldValue : Type}.
Variable K : Collaborators Comment ProjectField IssueFieldValue.
Variable L : @Listings Comment ProjectField IssueFieldValue.

Local Abbreviation Wrapper :=
  (IssueWrapper Comment ProjectField IssueFieldValue).
Local Abbreviation Collection :=
  (IssueList Comment ProjectField IssueFieldValue).
Local Abbreviation Parameters :=
  (IssueFetchParameters Comment ProjectField IssueFieldValue).
Local Abbreviation RawIssue :=
  (Issue Comment ProjectField IssueFieldValue).

Variable self : Parameters -> Eff Wrapper unit.

Lemma IssueList_new_length (raw : list RawIssue) (sot : SourceOfTruth) :
  List.length (issues (IssueList_new raw sot)) = List.length raw.
Proof. unfold IssueList_new. cbn [issues]. apply length_map. Qed.

Lemma fetched_collection (l : Collection) (fetchParams : Parameters)
      (log : list Event) :
  match (fetched <- Eff.on l (IssueList_fetch_with K self fetchParams) ;;
         Eff.ret (snd fetched))%eff tt log with
  | (Returned l', _, _) => keepsMetadata l l'
  | _ => True
  end.
Proof.
  pose proof (list_fetch_keeps K self fetchParams l log) as Hkeeps.
  unfold Eff.bind, Eff.on, Eff.ret.
  destruct (IssueList_fetch_with K self fetchParams l log) as [[r l'] log'].
  destruct r; exact I || exact Hkeeps.
Qed.

Lemma flagged_fetchProjectFields (l : Collection) (n : option Z)
      (log : list Event) :
  projectFieldsFetched l = true ->
  IssueList_fetchProjectFields K n l log = (Returned tt, l, log).
Proof.
  intro Hflag. unfold IssueList_fetchProjectFields.
  unfold Eff.bind at 1, Eff.this at 1. now rewrite Hflag.
Qed.

Lemma projectList_flagged (params : ProjectParameters L)
      (response : list RawIssue * string * string) :
  projectFieldsFetched (projectList L params response) = true.
Proof. now destruct response as [[raw title] url]. Qed.

(** X27: what a collection keeps of where it comes from. When
    [IssueList.forRepo] returns, the listing has answered and the
    collection carries its title and URL and the organization of the
    parameters, with at most the listed issues; when
    [IssueList.forProject] returns, the collection carries the project
    number as well and is marked as having its project fields, so that
    [fetchProjectFields] on it requests nothing and changes nothing. A
    listing that rejects makes either constructor throw its error. *)
Theorem constructors_carry_origin
        (repo : RepoParameters L) (project : ProjectParameters L)
        (fetchParams : Parameters) (log : list Event) :
  match IssueList_forRepo_with K L self repo fetchParams tt log with
  | (Returned l, _, _) =>
      exists raw title url,
        listIssuesForRepo L repo = inl (raw, title, url)
        /\ IssueList_title l = title /\ IssueList_url l = url
        /\ organization l = Some (repo_organization L repo)
        /\ projectNumber l = None
        /\ (List.length (issues l) <= List.length raw)%nat
  | (Thrown e, _, _) =>
      forall e', listIssuesForRepo L repo = inr e' -> e = e'
  | (Starved, _, _) => exists response, listIssuesForRepo L repo = inl response
  end
  /\ match IssueList_forProject_with K L self project fetchParams tt log with
     | (Returned l, _, _) =>
         exists raw title url,
           listIssuesForProject L project = inl (raw, title, url)
           /\ IssueList_title l = title /\ IssueList_url l = url
           /\ organization l = Some (listing_organization L project)
           /\ projectNumber l = Some (listing_projectNumber L project)
           /\ (List.length (issues l) <= List.length raw)%nat
           /\ forall n log', IssueList_fetchProjectFields K n l log'
                             = (Returned tt, l, log')
     | (Thrown e, _, _) =>
         forall e', listIssuesForProject L project = inr e' -> e = e'
     | (Starved, _, _) =>
         exists response, listIssuesForProject L project = inl response
     end.
Proof.
  split.
  - unfold IssueList_forRepo_with. unfold Eff.bind at 1, Eff.request.
    destruct (listIssuesForRepo L repo) as [[[raw title] url]|e'].
    + match goal with
      | |- context [Eff.on ?l _] =>
          pose proof (fetched_collection l fetchParams
                        (log ++ [Request "listIssuesForRepo"
                                   [repo_organization L repo]])%list) as H
      end.
      match type of H with
      | match ?run with _ => _ end =>
          match goal with
          | |- match ?run' with _ => _ end => change run' with run
          end;
          destruct run as [[[l'| |] u] log']
      end.
      * destruct H as (Hsot & Horg & Hnum & Hlen & _).
        exists raw, title, url. split; [reflexivity|].
        unfold IssueList_title, IssueList_url. rewrite Hsot, Horg, Hnum.
        repeat split; try reflexivity.
        etransitivity; [exact Hlen|].
        cbn [set_organization issues]. now rewrite IssueList_new_length.
      * discriminate.
      * now eexists.
    + intros e0 [= ->]. reflexivity.
  - unfold IssueList_forProject_with. unfold Eff.bind at 1, Eff.request.
    destruct (listIssuesForProject L project) as [response|e'].
    + pose proof (fetched_collection (projectList L project response) fetchParams
                    (log ++ [Request "listIssuesForProject"
                               (projectArgs L project)])%list) as H.
      match type of H with
      | match ?run with _ => _ end =>
          match goal with
          | |- match ?run' with _ => _ end => change run' with run
          end;
          destruct run as [[[l'| |] u] log']
      end.
      * destruct H as (Hsot & Horg & Hnum & Hlen & _ & Hflag).
        specialize (Hflag (projectList_flagged project response)).
        destruct response as [[raw title] url].
        exists raw, title, url. split; [reflexivity|].
        unfold IssueList_title, IssueList_url. rewrite Hsot, Horg, Hnum.
        repeat split; try reflexivity.
        -- etransitivity; [exact Hlen|].
           unfold projectList.
           cbn [set_organization set_projectNumber set_projectFieldsFetched
                issues].
           now rewrite IssueList_new_length.
        -- intros n log0. now apply flagged_fetchProjectFields.
      * discriminate.
      * now eexists.
    + intros e0 [= ->]. reflexivity.
Qed.

Lemma applyViewFilter_flagged (view : ProjectView L) (l : Collection)
      (log : list Event) :
  projectFieldsFetched l = true ->
  IssueList_applyViewFilter K L view l log
  = (Returned tt, scopedTo L view l,
     (log ++ if (0 <? List.length (unsupportedFields L view))%nat
             then [Warning (unsupportedFilters
                              (sot_url (scopeToView L view (sourceOfTruth l)))
                              (unsupportedFields L view))]
             else [])%list).
Proof.
  intro Hflag. unfold IssueList_applyViewFilter.
  unfold Eff.bind at 1.
  assert (Hfields :
            when (usesCustomFields L view)
                 (IssueList_fetchProjectFields K (view_projectNumber L view))
                 l log = (Returned tt, l, log)).
  { unfold when. destruct (usesCustomFields L view).
    - now apply flagged_fetchProjectFields.
    - reflexivity. }
  rewrite Hfields.
  unfold Eff.bind, Eff.assign, Eff.this, when, Eff.emit, Eff.ret, scopedTo,
    IssueList_filter.
  cbn [sourceOfTruth set_sourceOfTruth issues].
  destruct (0 <? List.length (unsupportedFields L view))%nat.
  - reflexivity.
  - now rewrite app_nil_r.
Qed.

(** X28: a collection of a project view never asks for the fields of
    the project. When the listing answers and the view is found,
    [IssueList.forProjectView] is the fetch of the listed collection
    scoped to the view (the URL ends in the view number, or in the
    encoded filter query; the title in the name of the view, when it has
    one) and filtered by it, after the listing, the view and the warning
    about unsupported filters and nothing else, also for a view that
    uses custom fields; the result keeps that title and URL. *)
Theorem forProjectView_scopes_to_view
        (params : GetProjectViewParameters (ProjectParameters L))
        (fetchParams : Parameters) (log : list Event)
        (raw : list RawIssue) (title url : string) (view : ProjectView L) :
  listIssuesForProject L (view_project params) = inl (raw, title, url) ->
  resolvesTo L params view ->
  IssueList_forProjectView_with K L self params fetchParams tt log
  = (fetched <- Eff.on (scopedTo L view
                          (projectList L (view_project params)
                                       (raw, title, url)))
                       (IssueList_fetch_with K self fetchParams) ;;
     Eff.ret (snd fetched))%eff tt (log ++ viewEvents L params view url)%list
  /\ match IssueList_forProjectView_with K L self params fetchParams tt log with
     | (Returned l, _, _) =>
         IssueList_title l
         = match truthyString (view_name L view) with
           | Some name => title ++ " (" ++ name ++ ")"
           | None => title
           end
         /\ IssueList_url l
            = match truthyNumber (view_number L view) with
              | Some number => url ++ "/views/" ++ string_of_Z number
              | None => url ++ "?filterQuery="
                            ++ encodeURIComponent L (view_filterQuery L view)
              end
         /\ projectNumber l
            = Some (listing_projectNumber L (view_project params))
         /\ (List.length (issues l)
             <= List.length (filter (filterIssue L view)
                                    (map (fun i => IssueWrapper_new i) raw)))%nat
     | _ => True
     end.
Proof.
  intros Hlisting Hview.
  assert (Heq :
    IssueList_forProjectView_with K L self params fetchParams tt log
    = (fetched <- Eff.on (scopedTo L view
                            (projectList L (view_project params)
                                         (raw, title, url)))
                         (IssueList_fetch_with K self fetchParams) ;;
       Eff.ret (snd fetched))%eff tt (log ++ viewEvents L params view url)%list).
  { unfold IssueList_forProjectView_with, viewEvents.
    unfold Eff.bind at 1, Eff.request at 1. rewrite Hlisting.
    unfold Eff.bind at 1. unfold resolvesTo in Hview.
    destruct (projectViewNumber params) as [number|].
    - unfold Eff.request at 1. rewrite Hview.
      unfold Eff.bind at 1, Eff.on at 1.
      rewrite applyViewFilter_flagged by apply projectList_flagged.
      cbn [snd]. repeat rewrite <- app_assoc. reflexivity.
    - destruct (customQuery params) as [query|]; [|contradiction].
      subst view. unfold Eff.ret at 1.
      unfold Eff.bind at 1, Eff.on at 1.
      rewrite applyViewFilter_flagged by apply projectList_flagged.
      cbn [snd]. repeat rewrite <- app_assoc. reflexivity. }
  split; [exact Heq|]. rewrite Heq.
  pose proof (fetched_collection
                (scopedTo L view
                   (projectList L (view_project params) (raw, title, url)))
                fetchParams (log ++ viewEvents L params view url)%list) as H.
  match type of H with
  | match ?run with _ => _ end => destruct run as [[[l'| |] u] log']
  end; try exact I.
  destruct H as (Hsot & _ & Hnum & Hlen & _).
  unfold IssueList_title, IssueList_url. rewrite Hsot, Hnum.
  unfold scopedTo, projectList in *.
  cbn [sourceOfTruth set_sourceOfTruth set_issues set_organization
       set_projectNumber set_projectFieldsFetched IssueList_new issues
       projectNumber scopeToView sot_title sot_url] in *.
  repeat split; try reflexivity; try exact Hlen.
Qed.

(** X29: a project view needs a number or a query, and is asked for
    it late. With neither [projectViewNumber] nor [customQuery],
    [IssueList.forProjectView] throws, but only after it has requested
    the issues of the project: the request is in the log, and a listing
    that rejects makes it throw the error of the listing instead. *)
Theorem forProjectView_needs_view
        (params : GetProjectViewParameters (ProjectParameters L))
        (fetchParams : Parameters) (log : list Event) :
  projectViewNumber params = None ->
  customQuery params = None ->
  IssueList_forProjectView_with K L self params fetchParams tt log
  = (Thrown match listIssuesForProject L (view_project params) with
            | inl _ => "Either projectViewNumber or customQuery must be provided."
            | inr e => e
            end,
     tt,
     (log ++ [Request "listIssuesForProject"
                      [listing_organization L (view_project params);
                       string_of_Z (listing_projectNumber
                                      L (view_project params))]])%list).
Proof.
  intros Hnumber Hquery. unfold IssueList_forProjectView_with.
  unfold Eff.bind at 1, Eff.request at 1.
  destruct (listIssuesForProject L (view_project params)) as [response|e].
  - unfold Eff.bind at 1. now rewrite Hnumber, Hquery.
  - reflexivity.
Qed.

End ListingProperties.

(* ===================================================================== *)
(** ** More runs on the small tracker *)
(* ===================================================================== *)

Section MoreRuns.

Import Example ExampleProject.


(** An issue updated now: today, and so this year. *)
Lemma timeframes_nest_witness :
  (0 <= ONE_DAY (collaborators plain))%Z
  /\ IssueWrapper_wasUpdatedToday (collaborators plain) (IssueWrapper_new issueA)
     = true
  /\ IssueWrapper_wasUpdatedThisYear (collaborators plain)
                                     (IssueWrapper_new issueA)
     = true.
Proof.
  assert (Hday : (0 <= ONE_DAY (collaborators plain))%Z) by discriminate.
  destruct (timeframes_nest (collaborators plain) (IssueWrapper_new issueA) Hday)
    as (Hweek & Hmonth & Hyear & _).
  split; [exact Hday | split; [reflexivity|]].
  apply Hyear, Hmonth, Hweek. reflexivity.
Defined.

(** Issue 3 has a body: reading it remembers the heading and the body. *)
Lemma body_getter_remembers_witness :
  IssueWrapper_body (collaborators plain) (list MemoryItem) cons
                    (IssueWrapper_new issueC) [] []
  = (Returned "Ship it.",
     [ {| item_content := "### [C](https://github.com/o/r/issues/3)" ++ nl ++ nl
                            ++ "Ship it." ++ nl ++ nl;
          item_sources := ["https://github.com/o/r/issues/3"] |} ],
     []).
Proof.
  destruct (body_getter_remembers
              (collaborators plain) eq_refl eq_refl (list MemoryItem) cons
              (IssueWrapper_new issueC) [] [])
    as (_ & _ & Hbody).
  apply Hbody; [discriminate | reflexivity].
Defined.

(** Issue 1 of the linked tracker, fetched with its comments and without
    sub-issues: a second fetch does nothing. *)
Lemma fetch_twice_is_fetch_once_witness :
  exists this' log',
    IssueWrapper_fetch (collaborators linked) 2 (params 1 false false)
                       (IssueWrapper_new issueA) []
    = (Returned tt, this', log')
    /\ log' = [Request "listCommentsForIssue" ["o"; "r"; "1"; "1"]]
    /\ IssueWrapper_fetch (collaborators linked) 1 (params 1 false false)
                          this' log'
       = (Returned tt, this', log').
Proof.
  destruct (IssueWrapper_fetch (collaborators linked) 2 (params 1 false false)
                               (IssueWrapper_new issueA) [])
    as [[[[]| |] this'] log'] eqn:E;
    try (vm_compute in E; discriminate E).
  exists this', log'. split; [reflexivity|]. split.
  - vm_compute in E. now inversion E.
  - exact (fetch_twice_is_fetch_once
             (collaborators linked) 2 0 (params 1 false false)
             (IssueWrapper_new issueA) this' [] log' log' eq_refl E).
Defined.

(** The same fetch needs one unit of fuel. *)
Lemma fetch_without_nesting_ends_witness :
  IssueWrapper_fetch (collaborators linked) 5 (params 1 false false)
                     (IssueWrapper_new issueA) []
  = IssueWrapper_fetch (collaborators linked) 1 (params 1 false false)
                       (IssueWrapper_new issueA) []
  /\ snd (IssueWrapper_fetch (collaborators linked) 1 (params 1 false false)
                             (IssueWrapper_new issueA) [])
     = [Request "listCommentsForIssue" ["o"; "r"; "1"; "1"]].
Proof.
  split; [|reflexivity].
  exact (proj1 (fetch_without_nesting_ends
                  (collaborators linked) 4 (params 1 false false)
                  (IssueWrapper_new issueA) [] eq_refl eq_refl)).
Defined.


(** The parameters [{ comments: 2 }]. *)
Lemma validateFetchParameters_revalidates_witness :
  exists validated,
    validateFetchParameters
      (collaborators plain)
      {| dirty_props := [("comments", JsNumber (Some 2%Z))];
         dirty_filter := None |}
    = Returned validated
    /\ fetch_comments validated = 2%Z
    /\ validateFetchParameters (collaborators plain)
                               (spreadParameters validated)
       = Returned validated.
Proof.
  destruct (validateFetchParameters
              (collaborators plain)
              {| dirty_props := [("comments", JsNumber (Some 2%Z))];
                 dirty_filter := None |})
    as [validated| |] eqn:E; try (vm_compute in E; discriminate E).
  exists validated. split; [reflexivity|]. split.
  - vm_compute in E. now inversion E.
  - refine (proj1 (proj2 (validateFetchParameters_revalidates
                            (collaborators plain) _ validated _ E))).
    now intros [].
Defined.

(** [{ body: true, author: false }] validates as [{ body: true }], with
    the author switched on. *)
Lemma validateRenderOptions_falsy_is_absent_witness :
  RenderConfig.validateRenderOptions
    truthy (fun _ => None) stringOf
    [("body", JsBool true); ("author", JsBool false)]
  = RenderConfig.validateRenderOptions
      truthy (fun _ => None) stringOf [("body", JsBool true)]
  /\ match RenderConfig.validateRenderOptions
             truthy (fun _ => None) stringOf
             [("body", JsBool true); ("author", JsBool false)] with
     | Returned validated => author validated = true
     | _ => False
     end.
Proof.
  split; [|reflexivity].
  apply (validateRenderOptions_falsy_is_absent
           truthy (fun _ => None) stringOf
           [("body", JsBool true)] "author" (JsBool false)).
  - now left.
  - reflexivity.
  - intros [H|[]]. discriminate H.
Defined.

(** View 2 of project 7: the collection is scoped to the view and holds
    the issue A. *)
Lemma forProjectView_scopes_to_view_witness :
  exists l log,
    IssueList_forProjectView_with
      (collaborators plain) listings
      (IssueWrapper_fetch (collaborators plain) 1)
      sprint (params 0 false false) tt []
    = (Returned l, tt, log)
    /\ IssueList_title l = "Roadmap (Sprint)"
    /\ IssueList_url l = "https://github.com/orgs/o/projects/7/views/2"
    /\ map (fun w => IssueWrapper_number w) (issues l) = [1%Z]
    /\ log = [ Request "listIssuesForProject" ["o"; "7"];
               Request "getProjectView" ["o"; "7"; "2"] ].
Proof.
  destruct (forProjectView_scopes_to_view
              (collaborators plain) listings
              (IssueWrapper_fetch (collaborators plain) 1)
              sprint (params 0 false false) []
              [issueA; issueB] "Roadmap" "https://github.com/orgs/o/projects/7"
              {| number := Some 2%Z; name := Some "Sprint";
                 filterQuery := "title:A"; custom := true |}
              eq_refl eq_refl)
    as [_ H].
  destruct (IssueList_forProjectView_with
              (collaborators plain) listings
              (IssueWrapper_fetch (collaborators plain) 1)
              sprint (params 0 false false) tt [])
    as [[[l| |] []] log] eqn:E; try (vm_compute in E; discriminate E).
  exists l, log. destruct H as (Htitle & Hurl & _).
  split; [reflexivity|]. split; [exact Htitle|]. split; [exact Hurl|].
  vm_compute in E. inversion E. split; reflexivity.
Defined.

(** Project 7 without a view number and without a query. *)
Lemma forProjectView_needs_view_witness :
  IssueList_forProjectView_with
    (collaborators plain) listings
    (IssueWrapper_fetch (collaborators plain) 1)
    unscoped (params 0 false false) tt []
  = (Thrown "Either projectViewNumber or customQuery must be provided.", tt,
     [Request "listIssuesForProject" ["o"; "7"]]).
Proof.
  exact (forProjectView_needs_view
           (collaborators plain) listings
           (IssueWrapper_fetch (collaborators plain) 1)
           unscoped (params 0 false false) [] eq_refl eq_refl).
Defined.

End MoreRuns.
